(** * ViralCut AI: a shallow embedding of the orchestration code

    The development follows the layout of the repository.  Part I holds the
    definitions:

    - [Js]        the JavaScript primitives the code relies on: numbers
                  (the doubles, with the rounding of each operation),
                  [Number::toString], [Math.round], string replacement and
                  [JSON.parse];
    - [Types]     the shared type declarations;
    - [Analyzer], [AnalyzerMore]
                  [src/lib/ai-analyzer.ts]: caption grouping, scene,
                  silence and volume-peak detection;
    - [Eff]       explicit state passing for the module-level tables, and
                  the trace of the states at the awaits of an async
                  function;
    - [Queue], [QueueUse]
                  [src/lib/queue.ts]: the in-memory lanes, priority
                  insertion, the worker loop;
    - [Processor], [ProcessorUse]
                  the mock video processor ([processVideo]);
    - [Ffmpeg]    [src/lib/ffmpeg-commands.ts]: the command-string builders;
    - [Api]       the upload ([POST]) and status ([GET]) route handlers;
    - [Client], [StatusUi]
                  the upload form and the status display that call them;
    - [JsObject], [TextUse]
                  property lookup on plain objects, and predicates on text;
    - [Samples], [MoreSamples]
                  concrete inputs.

    Part II holds the theorems, module by module, starting with the facts
    about rounding ([DoubleFacts]), and their instances at the sample
    inputs. *)

From Stdlib Require Import ZArith QArith Qround Qminmax Qpower Lqa String Ascii List Lia DecimalString.
From stdpp Require Import base gmap strings list sorting.

Open Scope Z_scope.

(* ===================================================================== *)
(** * Part I: definitions                                                 *)
(* ===================================================================== *)

(** ** JavaScript primitives *)

Module Js.

(** [String(n)] for an integer-valued number: plain decimal digits. *)
Definition Z_to_string (x : Z) : string := NilEmpty.string_of_int (Z.to_int x).

(** [s.replace(/c/g, r)] for a one-character pattern [c]. *)
Fixpoint replaceAll (c : ascii) (r : string) (s : string) : string :=
  match s with
  | EmptyString => EmptyString
  | String d s' =>
      if Ascii.eqb d c then r +:+ replaceAll c r s'
      else String d (replaceAll c r s')
  end.

(** [l.slice(i, j)] for [0 <= i <= j]. *)
Definition slice {A : Type} (l : list A) (i j : nat) : list A :=
  firstn (j - i) (skipn i l).

(** [xs.join(sep)]. *)
Definition join (sep : string) (xs : list string) : string := String.concat sep xs.

(** [xs.includes(x)] on an array of strings. *)
Definition includes (xs : list string) (x : string) : bool :=
  existsb (String.eqb x) xs.

(** [Math.round]: nearest integer, ties towards plus infinity. *)
Definition round (x : Q) : Z := Qfloor (x + (1 # 2)).

(** *** Numbers

    A JavaScript number is a binary64 float.  Every finite one is a
    rational, and it is modelled as that rational; comparison, [Math.floor],
    [Math.round], [Math.min] and [Math.max] are exact on it.  The
    arithmetic operations return the exact result rounded to the nearest
    double, ties to the even mantissa ([fl]).  Infinities, NaN and the sign
    of zero are not modelled: a result beyond the largest double is kept as
    the rational the unbounded format would give. *)

(** The nearest integer, ties to the even one. *)
Definition rne (x : Q) : Z :=
  let f := Qfloor x in
  match (x - inject_Z f ?= 1 # 2)%Q with
  | Lt => f
  | Gt => f + 1
  | Eq => if Z.even f then f else f + 1
  end.

(** [floor (log2 x)] for [0 < x]. *)
Definition ilog2 (x : Q) : Z :=
  let l := Z.log2 (Qnum x) - Z.log2 (Zpos (Qden x)) in
  if Qle_bool (2 ^ l) x then l else l - 1.

(** The exponent of the last mantissa bit: 53 bits of mantissa, and the
    subnormal numbers below [2 ^ -1022] share the exponent [-1074]. *)
Definition exponent (x : Q) : Z := Z.max (ilog2 x - 52) (-1074).

Definition flPos (x : Q) : Q :=
  let e := exponent x in Qred (inject_Z (rne (x / 2 ^ e)) * 2 ^ e).

(** The double nearest to [x]. *)
Definition fl (x : Q) : Q :=
  match (0 ?= x)%Q with
  | Eq => 0%Q
  | Lt => flPos x
  | Gt => (- flPos (- x))%Q
  end.

(** A rational that is a double. *)
Definition isDouble (x : Q) : Prop := (fl x == x)%Q.

(** A numeric literal of the source, and [a + b], [a - b], [a * b], [a / b]. *)
Definition double (literal : Q) : Q := fl literal.
Definition fadd (a b : Q) : Q := fl (a + b).
Definition fsub (a b : Q) : Q := fl (a - b).
Definition fmul (a b : Q) : Q := fl (a * b).
Definition fdiv (a b : Q) : Q := fl (a / b).

(** [s.replace(/\.[^X]+$/, r)], where [excluded] decides the characters [X]
    of the negated class next to the dot: the leftmost (hence only) place
    at which a dot is followed, up to the end of the string, by one or more
    characters outside the class is replaced by [r]. *)
Fixpoint allChars (p : ascii -> bool) (s : string) : bool :=
  match s with
  | EmptyString => true
  | String c s' => p c && allChars p s'
  end.

Fixpoint replaceExt (excluded : ascii -> bool) (r : string) (s : string) : string :=
  match s with
  | EmptyString => EmptyString
  | String c s' =>
      if Ascii.eqb c "." && negb (String.eqb s' "")
         && allChars (fun d => negb (Ascii.eqb d "." || excluded d)) s'
      then r
      else String c (replaceExt excluded r s')
  end.

(** The double-quote character, and a string between double quotes. *)
Definition dq : string := String (ascii_of_nat 34) EmptyString.

Definition quoted (s : string) : string := dq +:+ s +:+ dq.

(** [s.padStart(n, c)] for a one-character pad. *)
Fixpoint repeatChar (c : ascii) (n : nat) : string :=
  match n with
  | O => EmptyString
  | S n' => String c (repeatChar c n')
  end.

Definition padStart (n : nat) (c : ascii) (s : string) : string :=
  repeatChar c (n - String.length s) +:+ s.

(** *** Printing a number ([Number::toString], radix 10) *)

(** [floor (log10 x)] for [0 < x]: from an estimate below it, upwards. *)
Fixpoint ilog10From (fuel : nat) (e : Z) (x : Q) : Z :=
  match fuel with
  | O => e
  | S fuel' => if Qle_bool (10 ^ (e + 1)) x then ilog10From fuel' (e + 1) x else e
  end.

Definition ilog10 (x : Q) : Z :=
  let l := ilog2 x in
  let e0 := (if 0 <=? l then l * 30102 / 100000 else l * 30103 / 100000) - 1 in
  ilog10From 4 e0 x.

(** The decimal digits of a double [x > 0] as [Number::toString] chooses
    them: the shortest [s] of [k] digits, and the [n], for which
    [s * 10 ^ (n - k)] rounds to [x]; of two such [s] the one nearer to [x]. *)
Definition candidate (x : Q) (n k : Z) : option (Z * Z) :=
  let scale := (10 ^ (n - k))%Q in
  let s := Qfloor (x / scale) in
  let ok (c : Z) := Qeq_bool (fl (inject_Z c * scale)) x in
  let pick (c : Z) := if c =? 10 ^ k then (10 ^ (k - 1), n + 1) else (c, n) in
  match ok s, ok (s + 1) with
  | true, true =>
      let dl := (x - inject_Z s * scale)%Q in
      let dh := (inject_Z (s + 1) * scale - x)%Q in
      match (dl ?= dh)%Q with
      | Lt => Some (pick s)
      | Gt => Some (pick (s + 1))
      | Eq => Some (pick (if Z.even s then s else s + 1))
      end
  | true, false => Some (pick s)
  | false, true => Some (pick (s + 1))
  | false, false => None
  end.

Fixpoint shortest (fuel : nat) (x : Q) (n k : Z) : Z * Z :=
  match fuel with
  | O => (Qfloor (x / 10 ^ (n - k)), n)
  | S fuel' =>
      match candidate x n k with
      | Some r => r
      | None => shortest fuel' x n (k + 1)
      end
  end.

Definition zeros (n : Z) : string := repeatChar "0" (Z.to_nat n).

Definition formatDigits (s n : Z) : string :=
  let ds := Z_to_string s in
  let k := Z.of_nat (String.length ds) in
  if (k <=? n) && (n <=? 21) then ds +:+ zeros (n - k)
  else if (0 <? n) && (n <=? 21) then
    substring 0 (Z.to_nat n) ds +:+ "." +:+ substring (Z.to_nat n) (Z.to_nat (k - n)) ds
  else if (-6 <? n) && (n <=? 0) then "0." +:+ zeros (- n) +:+ ds
  else
    let e := n - 1 in
    let expo := (if 0 <=? e then "e+" else "e-") +:+ Z_to_string (Z.abs e) in
    if k =? 1 then ds +:+ expo
    else substring 0 1 ds +:+ "." +:+ substring 1 (Z.to_nat (k - 1)) ds +:+ expo.

Definition positiveToString (x : Q) : string :=
  let '(s, n) := shortest 17 x (ilog10 x + 1) 1 in formatDigits s n.

(** [String(x)] for a number [x]. *)
Definition Number_toString (x : Q) : string :=
  match (0 ?= x)%Q with
  | Eq => "0"
  | Lt => positiveToString (fl x)
  | Gt => "-" +:+ positiveToString (fl (- x))
  end.


(** [s || d] on strings: the empty string is falsy. *)
Definition strOr (s : option string) (d : string) : string :=
  match s with
  | Some v => if String.eqb v "" then d else v
  | None => d
  end.

(** A thrown value: an [Error] object carrying a message, or anything else. *)
Inductive Thrown : Type :=
  | ErrorObj (message : string)
  | NonError.

(** [error instanceof Error ? error.message : fallback]. *)
Definition messageOr (fallback : string) (e : Thrown) : string :=
  match e with
  | ErrorObj m => m
  | NonError => fallback
  end.

(** *** [JSON.parse]

    A parser for the JSON grammar (ECMA-404) that builds the value
    [JSON.parse] returns: a number is the double its literal denotes, a
    string is its text with the escapes decoded, and an object is the list
    of its properties in property order, each name once.  Texts are in
    UTF-8; a code unit written [\uXXXX] is encoded like a code point, a
    surrogate pair as the code point it stands for (a lone surrogate,
    which no UTF-8 text contains, in the three bytes of the generalised
    encoding). *)

#[warnings="-register-all"]
Inductive Json : Type :=
  | JsonNull
  | JsonBool (b : bool)
  | JsonNumber (value : Q)
  | JsonString (value : string)
  | JsonArray (items : list Json)
  | JsonObject (properties : list (string * Json)).

Definition code (c : ascii) : nat := nat_of_ascii c.

Definition isDigit (c : ascii) : bool := (48 <=? code c)%nat && (code c <=? 57)%nat.

Definition isHex (c : ascii) : bool :=
  isDigit c
  || ((65 <=? code c)%nat && (code c <=? 70)%nat)
  || ((97 <=? code c)%nat && (code c <=? 102)%nat).

Definition isWs (c : ascii) : bool :=
  (code c =? 32)%nat || (code c =? 9)%nat || (code c =? 10)%nat || (code c =? 13)%nat.

Fixpoint skipWs (s : string) : string :=
  match s with
  | EmptyString => EmptyString
  | String c s' => if isWs c then skipWs s' else s
  end.

Fixpoint takeDigits (s : string) : string * string :=
  match s with
  | EmptyString => (EmptyString, EmptyString)
  | String c s' =>
      if isDigit c then let (d, r) := takeDigits s' in (String c d, r)
      else (EmptyString, s)
  end.

(** [prefix] then the rest, if [s] starts with [prefix]. *)
Fixpoint expect (prefix s : string) : option string :=
  match prefix, s with
  | EmptyString, _ => Some s
  | String p prefix', String c s' => if Ascii.eqb p c then expect prefix' s' else None
  | String _ _, EmptyString => None
  end.

Definition prepend (p : string) (r : option (string * string)) : option (string * string) :=
  match r with
  | Some (body, rest) => Some (p +:+ body, rest)
  | None => None
  end.

Definition consTo (c : ascii) (r : option (string * string)) : option (string * string) :=
  match r with
  | Some (body, rest) => Some (String c body, rest)
  | None => None
  end.

(** The value of a hexadecimal digit, and of four of them. *)
Definition hexVal (c : ascii) : Z :=
  let n := Z.of_nat (code c) in
  if isDigit c then n - 48
  else if (97 <=? code c)%nat then n - 87
  else n - 55.

Definition hex4 (h1 h2 h3 h4 : ascii) : option Z :=
  if isHex h1 && isHex h2 && isHex h3 && isHex h4
  then Some (((hexVal h1 * 16 + hexVal h2) * 16 + hexVal h3) * 16 + hexVal h4)
  else None.

Definition byte (n : Z) : ascii := ascii_of_nat (Z.to_nat n).

(** The bytes of a code point (or of a lone code unit). *)
Definition utf8 (cp : Z) : string :=
  if cp <? 128 then String (byte cp) EmptyString
  else if cp <? 2048 then
    String (byte (192 + cp / 64)) (String (byte (128 + cp mod 64)) EmptyString)
  else if cp <? 65536 then
    String (byte (224 + cp / 4096))
      (String (byte (128 + cp / 64 mod 64)) (String (byte (128 + cp mod 64)) EmptyString))
  else
    String (byte (240 + cp / 262144))
      (String (byte (128 + cp / 4096 mod 64))
         (String (byte (128 + cp / 64 mod 64)) (String (byte (128 + cp mod 64)) EmptyString))).

Definition isHighSurrogate (u : Z) : bool := (55296 <=? u) && (u <=? 56319).
Definition isLowSurrogate (u : Z) : bool := (56320 <=? u) && (u <=? 57343).

(** The characters of a string literal after its opening quote, up to the
    closing quote, decoded: no raw control character, and a backslash only
    in one of the escapes of the grammar. *)
Fixpoint parseStringBody (s : string) : option (string * string) :=
  match s with
  | EmptyString => None
  | String c s' =>
      if Ascii.eqb c (ascii_of_nat 34) then Some (EmptyString, s')
      else if Ascii.eqb c "\" then
        match s' with
        | EmptyString => None
        | String e s'' =>
            if Ascii.eqb e (ascii_of_nat 34) || Ascii.eqb e "\" || Ascii.eqb e "/"
            then consTo e (parseStringBody s'')
            else if Ascii.eqb e "b" then consTo (ascii_of_nat 8) (parseStringBody s'')
            else if Ascii.eqb e "f" then consTo (ascii_of_nat 12) (parseStringBody s'')
            else if Ascii.eqb e "n" then consTo (ascii_of_nat 10) (parseStringBody s'')
            else if Ascii.eqb e "r" then consTo (ascii_of_nat 13) (parseStringBody s'')
            else if Ascii.eqb e "t" then consTo (ascii_of_nat 9) (parseStringBody s'')
            else if Ascii.eqb e "u" then
              match s'' with
              | String h1 (String h2 (String h3 (String h4 s5))) =>
                  match hex4 h1 h2 h3 h4 with
                  | None => None
                  | Some u =>
                      if isHighSurrogate u then
                        match s5 with
                        | String b1 (String b2
                            (String l1 (String l2 (String l3 (String l4 s11))))) =>
                            match
                              (if Ascii.eqb b1 "\" && Ascii.eqb b2 "u"
                               then hex4 l1 l2 l3 l4 else None)
                            with
                            | Some l =>
                                if isLowSurrogate l
                                then prepend
                                       (utf8 (65536 + (u - 55296) * 1024 + (l - 56320)))
                                       (parseStringBody s11)
                                else prepend (utf8 u) (parseStringBody s5)
                            | None => prepend (utf8 u) (parseStringBody s5)
                            end
                        | _ => prepend (utf8 u) (parseStringBody s5)
                        end
                      else prepend (utf8 u) (parseStringBody s5)
                  end
              | _ => None
              end
            else None
        end
      else if (code c <? 32)%nat then None
      else consTo c (parseStringBody s')
  end.

(** The number a run of decimal digits denotes. *)
Fixpoint digitsValue (acc : Z) (s : string) : Z :=
  match s with
  | EmptyString => acc
  | String c s' => digitsValue (acc * 10 + (Z.of_nat (code c) - 48)) s'
  end.

(** A number: an optional minus sign; a zero, or a non-zero digit and more
    digits; an optional fraction (a dot and one or more digits); an optional
    exponent (e or E, an optional sign, one or more digits).  Its value is
    the double nearest to the decimal number written. *)
Definition parseNumber (s : string) : option (Q * string) :=
  let '(negative, s1) :=
    match s with
    | String "-" s' => (true, s')
    | _ => (false, s)
    end in
  let int : option (string * string) :=
    match s1 with
    | EmptyString => None
    | String c s2 =>
        if Ascii.eqb c "0" then Some ("0", s2)
        else if isDigit c then let (d, r) := takeDigits s2 in Some (String c d, r)
        else None
    end in
  match int with
  | None => None
  | Some (ip, r1) =>
      let frac : option (string * string) :=
        match r1 with
        | String "." r =>
            let (d, r') := takeDigits r in
            if String.eqb d EmptyString then None else Some (d, r')
        | _ => Some (EmptyString, r1)
        end in
      match frac with
      | None => None
      | Some (fp, r2) =>
          let exp : option (Z * string) :=
            match r2 with
            | String e r =>
                if Ascii.eqb e "e" || Ascii.eqb e "E" then
                  let '(negativeExp, r') :=
                    match r with
                    | String "+" r'' => (false, r'')
                    | String "-" r'' => (true, r'')
                    | _ => (false, r)
                    end in
                  let (d, r'') := takeDigits r' in
                  if String.eqb d EmptyString then None
                  else Some (if negativeExp then - digitsValue 0 d else digitsValue 0 d, r'')
                else Some (0, r2)
            | EmptyString => Some (0, r2)
            end in
          match exp with
          | None => None
          | Some (ep, r3) =>
              let mantissa := inject_Z (digitsValue 0 (ip +:+ fp)) in
              let magnitude :=
                (mantissa * 10 ^ (ep - Z.of_nat (String.length fp)))%Q in
              Some (fl (if negative then - magnitude else magnitude)%Q, r3)
          end
      end
  end.

(** *** The properties of an object

    [CreateDataProperty] on the list of properties in property order: an
    array index (the decimal numeral of an integer below [2 ^ 32 - 1])
    goes among the array indices in ascending order, which come first;
    another new name goes to the end; a name that is there already keeps
    its place and gets the new value. *)
Definition arrayIndex (k : string) : option Z :=
  match k with
  | EmptyString => None
  | String c rest =>
      if allChars isDigit k && (negb (Ascii.eqb c "0") || String.eqb rest EmptyString)
         && (digitsValue 0 k <=? 4294967294)
      then Some (digitsValue 0 k) else None
  end.

Section Properties.

Context {V : Type}.

Fixpoint hasProperty (k : string) (props : list (string * V)) : bool :=
  match props with
  | [] => false
  | (k', _) :: rest => String.eqb k' k || hasProperty k rest
  end.

Fixpoint replaceProperty (k : string) (v : V) (props : list (string * V))
    : list (string * V) :=
  match props with
  | [] => []
  | (k', v') :: rest =>
      if String.eqb k' k then (k', v) :: rest else (k', v') :: replaceProperty k v rest
  end.

Fixpoint insertIndex (n : Z) (k : string) (v : V) (props : list (string * V))
    : list (string * V) :=
  match props with
  | [] => [(k, v)]
  | (k', v') :: rest =>
      match arrayIndex k' with
      | Some n' => if n' <? n then (k', v') :: insertIndex n k v rest else (k, v) :: props
      | None => (k, v) :: props
      end
  end.

Definition defineProperty (props : list (string * V)) (kv : string * V)
    : list (string * V) :=
  let (k, v) := kv in
  if hasProperty k props then replaceProperty k v props
  else
    match arrayIndex k with
    | Some n => insertIndex n k v props
    | None => props ++ [(k, v)]
    end.

(** The object with the given members, defined in the order written. *)
Definition objectOf (members : list (string * V)) : list (string * V) :=
  fold_left defineProperty members [].

End Properties.

(** A value at the head of [s] (white space already skipped); the elements
    of an array after its bracket; the members of an object after its
    brace.  A value needs at most two units of fuel more than the values
    nested in it, and those are shorter texts, so fuel of twice the length
    of the text is never exhausted. *)
Fixpoint parseValue (fuel : nat) (s : string) : option (Json * string) :=
  match fuel with
  | O => None
  | S fuel' =>
      match s with
      | EmptyString => None
      | String c s' =>
          if Ascii.eqb c "{" then
            match skipWs s' with
            | String "}" r => Some (JsonObject [], r)
            | s'' =>
                match parseMembers fuel' s'' with
                | Some (ms, r) => Some (JsonObject (objectOf ms), r)
                | None => None
                end
            end
          else if Ascii.eqb c "[" then
            match skipWs s' with
            | String "]" r => Some (JsonArray [], r)
            | s'' =>
                match parseElements fuel' s'' with
                | Some (vs, r) => Some (JsonArray vs, r)
                | None => None
                end
            end
          else if Ascii.eqb c (ascii_of_nat 34) then
            match parseStringBody s' with
            | Some (body, r) => Some (JsonString body, r)
            | None => None
            end
          else if Ascii.eqb c "t" then
            match expect "rue" s' with Some r => Some (JsonBool true, r) | None => None end
          else if Ascii.eqb c "f" then
            match expect "alse" s' with Some r => Some (JsonBool false, r) | None => None end
          else if Ascii.eqb c "n" then
            match expect "ull" s' with Some r => Some (JsonNull, r) | None => None end
          else
            match parseNumber s with
            | Some (value, r) => Some (JsonNumber value, r)
            | None => None
            end
      end
  end
with parseElements (fuel : nat) (s : string) : option (list Json * string) :=
  match fuel with
  | O => None
  | S fuel' =>
      match parseValue fuel' s with
      | None => None
      | Some (v, r) =>
          match skipWs r with
          | String "," r' =>
              match parseElements fuel' (skipWs r') with
              | Some (vs, r'') => Some (v :: vs, r'')
              | None => None
              end
          | String "]" r' => Some ([v], r')
          | _ => None
          end
      end
  end
with parseMembers (fuel : nat) (s : string) : option (list (string * Json) * string) :=
  match fuel with
  | O => None
  | S fuel' =>
      match s with
      | EmptyString => None
      | String c s1 =>
          if Ascii.eqb c (ascii_of_nat 34) then
            match parseStringBody s1 with
            | None => None
            | Some (key, r) =>
                match skipWs r with
                | String ":" r2 =>
                    match parseValue fuel' (skipWs r2) with
                    | None => None
                    | Some (v, r3) =>
                        match skipWs r3 with
                        | String "," r4 =>
                            match parseMembers fuel' (skipWs r4) with
                            | Some (ms, r5) => Some ((key, v) :: ms, r5)
                            | None => None
                            end
                        | String "}" r4 => Some ([(key, v)], r4)
                        | _ => None
                        end
                    end
                | _ => None
                end
            end
          else None
      end
  end.

(** [JSON.parse(text)]: the value, or [None] when a [SyntaxError] is thrown. *)
Definition JSON_parse (text : string) : option Json :=
  match parseValue (2 * String.length text + 2) (skipWs text) with
  | Some (v, rest) => if String.eqb (skipWs rest) EmptyString then Some v else None
  | None => None
  end.

(** [s.split(c)] for a one-character separator. *)
Fixpoint split (c : ascii) (s : string) : list string :=
  match s with
  | EmptyString => [EmptyString]
  | String d s' =>
      if Ascii.eqb d c then EmptyString :: split c s'
      else
        match split c s' with
        | h :: t => String d h :: t
        | [] => [String d EmptyString]
        end
  end.

End Js.

(** ** Shared types (the [@/types/video] declarations the code uses) *)

Module Types.

Inductive VideoStyle : Type := modern | minimal | energetic.
Inductive VideoPace : Type := fast | medium | intense.

Record Colors : Type := {
  primary : string;
  secondary : string;
  accent : string;
}.

Record StyleConfig : Type := {
  style : VideoStyle;
  pace : VideoPace;
  colors : Colors;
}.

Inductive VideoStatus : Type := uploading | queued | processing | completed | error.

End Types.

(** ** The AI analyzer ([src/lib/ai-analyzer.ts]) *)

Module Analyzer.

(** Timestamps are JavaScript numbers: the rationals that are doubles.
    Copies and comparisons are exact; a difference, a quotient or a sum is
    the rounded one ([Js.fsub], [Js.fdiv], [Js.fadd]). *)
Record TranscriptionWord : Type := {
  word : string;
  start : Q;
  end_ : Q;
  confidence : Q;
}.

Record Transcription : Type := {
  text : string;
  words : list TranscriptionWord;
  language : string;
  duration : Q;
}.

(** The element type of the array [generateCaptions] returns. *)
Record CaptionOut : Type := {
  cap_text : string;
  start_time : Q;
  end_time : Q;
  is_highlighted : bool;
  highlight_words : list string;
}.

Inductive SceneType : Type := cut | fade | dissolve.

Record SceneChange : Type := {
  sc_timestamp : Q;
  sc_type : SceneType;
  sc_confidence : Q;
}.

Record SilencePeriod : Type := {
  sp_start : Q;
  sp_end : Q;
  sp_duration : Q;
}.

Definition wordsPerCaption : nat := 5.

Section WithLowerCase.

(** [String.prototype.toLowerCase] is Unicode aware; it is left as a
    parameter of the embedding. *)
Variable toLowerCase : string -> string.

(** The body of one iteration of the loop of [generateCaptions], for the
    slice [captionWords]; [None] is the [continue] branch. *)
Definition captionOf (viralKeywords : list string)
    (captionWords : list TranscriptionWord) : option CaptionOut :=
  match captionWords with
  | [] => None
  | w0 :: _ =>
      let text := Js.join " " (map word captionWords) in
      let startTime := start w0 in
      let endTime := end_ (List.last captionWords w0) in
      let highlightWords :=
        map word
          (List.filter (fun w => Js.includes viralKeywords (toLowerCase (word w)))
             captionWords) in
      Some {| cap_text := text;
              start_time := startTime;
              end_time := endTime;
              is_highlighted := (0 <? length highlightWords)%nat;
              highlight_words := highlightWords |}
  end.

(** [for (let i = ...; i < words.length; i += wordsPerCaption)], with
    [fuel] bounding the number of iterations still allowed. *)
Fixpoint captionsFrom (viralKeywords : list string) (ws : list TranscriptionWord)
    (fuel i : nat) : list CaptionOut :=
  match fuel with
  | O => []
  | S fuel' =>
      if (i <? length ws)%nat then
        let captionWords := Js.slice ws i (i + wordsPerCaption) in
        match captionOf viralKeywords captionWords with
        | None => captionsFrom viralKeywords ws fuel' (i + wordsPerCaption)
        | Some c => c :: captionsFrom viralKeywords ws fuel' (i + wordsPerCaption)
        end
      else []
  end.

(** The loop starts at [0]; it runs at most [words.length] times. *)
Definition generateCaptions (transcription : Transcription)
    (viralKeywords : list string) : list CaptionOut :=
  let ws := words transcription in
  captionsFrom viralKeywords ws (length ws) 0.

End WithLowerCase.

(** What relates a chunk of words to the caption made from it: the times
    of its first and last word and its words joined by spaces. *)
Definition captionFor (c : list TranscriptionWord) (cap : CaptionOut) : Prop :=
  exists w0 wl,
    head c = Some w0 /\ last c = Some wl /\
    cap_text cap = Js.join " " (map word c) /\
    start_time cap = start w0 /\ end_time cap = end_ wl.

(** The record pushed by [detectScenes] for the words [words[i-1]] and [words[i]]. *)
Definition sceneOf (prev cur : TranscriptionWord) : SceneChange :=
  let gap := Js.fsub (start cur) (end_ prev) in
  {| sc_timestamp := Js.fadd (end_ prev) (Js.fdiv gap 2);
     sc_type := fade;
     sc_confidence := Qmin (Js.fdiv gap 5) 1 |}.

(** [for (let i = ...; i < words.length; i++)] of [detectScenes]; [n] counts
    the iterations that remain. *)
Fixpoint scenesFrom (ws : list TranscriptionWord) (n i : nat) : list SceneChange :=
  match n with
  | O => []
  | S n' =>
      match ws !! (i - 1)%nat, ws !! i with
      | Some prev, Some cur =>
          let gap := Js.fsub (start cur) (end_ prev) in
          if Qlt_le_dec 2 gap
          then sceneOf prev cur :: scenesFrom ws n' (S i)
          else scenesFrom ws n' (S i)
      | _, _ => []
      end
  end.

Definition detectScenes (transcription : Transcription) : list SceneChange :=
  let ws := words transcription in
  scenesFrom ws (length ws - 1) 1.

(** The record pushed by [detectSilences]. *)
Definition silenceOf (prev cur : TranscriptionWord) : SilencePeriod :=
  let silenceStart := end_ prev in
  let silenceEnd := start cur in
  {| sp_start := silenceStart;
     sp_end := silenceEnd;
     sp_duration := Js.fsub silenceEnd silenceStart |}.

Fixpoint silencesFrom (ws : list TranscriptionWord) (n i : nat) : list SilencePeriod :=
  match n with
  | O => []
  | S n' =>
      match ws !! (i - 1)%nat, ws !! i with
      | Some prev, Some cur =>
          let duration := Js.fsub (start cur) (end_ prev) in
          if Qlt_le_dec 1 duration
          then silenceOf prev cur :: silencesFrom ws n' (S i)
          else silencesFrom ws n' (S i)
      | _, _ => []
      end
  end.

Definition detectSilences (transcription : Transcription) : list SilencePeriod :=
  let ws := words transcription in
  silencesFrom ws (length ws - 1) 1.

(** The shape the two detection loops share; the theorems reason about
    both loops through it. *)
Fixpoint gapsFrom {A : Type} (threshold : Q)
    (mk : TranscriptionWord -> TranscriptionWord -> A)
    (ws : list TranscriptionWord) (n i : nat) : list A :=
  match n with
  | O => []
  | S n' =>
      match ws !! (i - 1)%nat, ws !! i with
      | Some prev, Some cur =>
          if Qlt_le_dec threshold (Js.fsub (start cur) (end_ prev))
          then mk prev cur :: gapsFrom threshold mk ws n' (S i)
          else gapsFrom threshold mk ws n' (S i)
      | _, _ => []
      end
  end.

(** Two consecutive words, [p] right before [w], at an index of the range
    [lo <= j < hi]. *)
Definition adjacentIn (ws : list TranscriptionWord) (lo hi : nat)
    (p w : TranscriptionWord) : Prop :=
  exists j, (lo <= j < hi)%nat /\ ws !! (j - 1)%nat = Some p /\ ws !! j = Some w.

End Analyzer.

(** ** Explicit state passing

    Module-level mutable state is threaded through every operation that
    touches it. *)

Module Eff.

Definition St (S A : Type) : Type := S -> A * S.

Definition ret {S A : Type} (a : A) : St S A := fun st => (a, st).

Definition bind {S A B : Type} (m : St S A) (k : A -> St S B) : St S B :=
  fun st => let (a, st') := m st in k a st'.

(** [forEach xs body]: [for (const x of xs) body(x)]. *)
Fixpoint forEach {S A : Type} (xs : list A) (body : A -> St S unit) : St S unit :=
  match xs with
  | [] => ret tt
  | x :: rest => bind (body x) (fun _ => forEach rest body)
  end.

(** *** Awaits

    An [async] function runs from one [await] to the next without
    interruption: what the rest of the program can see of the tables while
    the function is under way is their state at its awaits.  [Tr] threads
    the state like [St] and also lists the state at every await, oldest
    first. *)
Definition Tr (S A : Type) : Type := S -> (A * S) * list S.

Definition retT {S A : Type} (a : A) : Tr S A := fun st => ((a, st), []).

Definition bindT {S A B : Type} (m : Tr S A) (k : A -> Tr S B) : Tr S B :=
  fun st =>
    let '((a, st1), seen1) := m st in
    let '((b, st2), seen2) := k a st1 in
    ((b, st2), seen1 ++ seen2).

(** [await m()]: the call runs, then the function yields. *)
Definition await {S A : Type} (m : St S A) : Tr S A :=
  fun st => let (a, st') := m st in ((a, st'), [st']).

Fixpoint forEachT {S A : Type} (xs : list A) (body : A -> Tr S unit) : Tr S unit :=
  match xs with
  | [] => retT tt
  | x :: rest => bindT (body x) (fun _ => forEachT rest body)
  end.

(** The function as a whole: its result and the state it leaves. *)
Definition run {S A : Type} (m : Tr S A) : St S A := fun st => fst (m st).

(** The states at its awaits. *)
Definition awaited {S A : Type} (m : Tr S A) (st : S) : list S := snd (m st).

End Eff.

Declare Scope eff_scope.
Delimit Scope eff_scope with eff.
Notation "'let*' x ':=' m 'in' k" := (Eff.bind m (fun x => k))
  (at level 10, x name, m at level 100, k at level 200) : eff_scope.
Notation "'do' m 'then' k" := (Eff.bind m (fun _ => k))
  (at level 10, m at level 100, k at level 200) : eff_scope.
Declare Scope tr_scope.
Delimit Scope tr_scope with tr.
Notation "'let*' x ':=' m 'in' k" := (Eff.bindT m (fun x => k))
  (at level 10, x name, m at level 100, k at level 200) : tr_scope.
Notation "'do' m 'then' k" := (Eff.bindT m (fun _ => k))
  (at level 10, m at level 100, k at level 200) : tr_scope.
Abbreviation ret := Eff.ret.
Open Scope eff_scope.

(** ** The in-memory queue ([src/lib/queue.ts]) *)

Module Queue.

(** [keyof typeof QUEUES] and the table [QUEUES] itself. *)
Inductive QueueName : Type := UPLOAD | PROCESS | RENDER | COMPLETED | FAILED.

Definition QUEUES (queueName : QueueName) : string :=
  match queueName with
  | UPLOAD => "queue:upload"
  | PROCESS => "queue:process"
  | RENDER => "queue:render"
  | COMPLETED => "queue:completed"
  | FAILED => "queue:failed"
  end.

#[global] Instance QueueName_eq_dec : EqDecision QueueName.
Proof. solve_decision. Defined.

Inductive JobType : Type := upload | process | render.

(** The scalar values the code stores in the free-form [data] of a job. *)
Inductive JsVal : Type :=
  | JNum (n : Z)
  | JStr (s : string)
  | JBool (b : bool)
  | JNull.

Record QueueJob : Type := {
  id : string;
  type : JobType;
  videoId : string;
  priority : Z;
  data : gmap string JsVal;
  createdAt : Z;
}.

(** [{ ...job, createdAt: now }] and [{ ...job, data: d }]. *)
Definition withCreatedAt (job : QueueJob) (now : Z) : QueueJob :=
  {| id := id job; type := type job; videoId := videoId job;
     priority := priority job; data := data job; createdAt := now |}.

Definition withData (job : QueueJob) (d : gmap string JsVal) : QueueJob :=
  {| id := id job; type := type job; videoId := videoId job;
     priority := priority job; data := d; createdAt := createdAt job |}.

(** The value type of [jobStatuses]. *)
Record JobStatus : Type := {
  progress : Z;
  currentStep : option string;
  timeRemaining : option Z;
  totalTime : option Z;
  error : option string;
}.

(** Arrays are mutable objects: a lane holds a reference into [heap], so
    that two names for one array are told apart from two arrays with the
    same contents.  [inMemoryQueues] has exactly the five keys of [QUEUES]
    and none is ever removed, hence the total map from [QueueName].
    [statusLog] is the sequence of [console.log('Job ... status:', status)]
    lines written by [setJobStatus], oldest first. *)
Definition loc : Type := nat.

Record Store : Type := {
  heap : gmap loc (list QueueJob);
  inMemoryQueues : QueueName -> loc;
  jobStatuses : gmap string JobStatus;
  statusLog : list (string * JobStatus);
}.

Definition withHeap (st : Store) (h : gmap loc (list QueueJob)) : Store :=
  {| heap := h; inMemoryQueues := inMemoryQueues st;
     jobStatuses := jobStatuses st; statusLog := statusLog st |}.

(** The contents of the array at [l]; every reference the code holds is live. *)
Definition deref (st : Store) (l : loc) : list QueueJob := default [] (heap st !! l).

(** In-place mutation of the array at [l]. *)
Definition mutate (st : Store) (l : loc) (v : list QueueJob) : Store :=
  withHeap st (<[l := v]> (heap st)).

(** A new array object. *)
Definition alloc (st : Store) (v : list QueueJob) : loc * Store :=
  let l := fresh (dom (heap st)) in (l, withHeap st (<[l := v]> (heap st))).

(** The contents of a lane. *)
Definition lane (st : Store) (queueName : QueueName) : list QueueJob :=
  deref st (inMemoryQueues st queueName).

(** The module's initial state: five distinct empty arrays. *)
Definition initial : Store :=
  {| heap := list_to_map [(0, []); (1, []); (2, []); (3, []); (4, [])]%nat;
     inMemoryQueues := fun q =>
       match q with
       | UPLOAD => 0 | PROCESS => 1 | RENDER => 2 | COMPLETED => 3 | FAILED => 4
       end%nat;
     jobStatuses := ∅;
     statusLog := [] |}.

(** Every lane refers to a live array and no two lanes share one. *)
Definition wf (st : Store) : Prop :=
  (forall q, is_Some (heap st !! inMemoryQueues st q)) /\
  (forall q q', inMemoryQueues st q = inMemoryQueues st q' -> q = q').

(** Effects on the store are threaded explicitly. *)
Definition M (A : Type) : Type := Eff.St Store A.

(** *** Queue operations.  [now] is the value [Date.now()] returns. *)

Definition enqueue (queueName : QueueName) (job : QueueJob) (now : Z) : M unit :=
  fun st =>
    let fullJob := withCreatedAt job now in
    let queue := inMemoryQueues st queueName in
    (tt, mutate st queue (deref st queue ++ [fullJob])).

Definition dequeue (queueName : QueueName) : M (option QueueJob) :=
  fun st =>
    let queue := inMemoryQueues st queueName in
    match deref st queue with
    | [] => (None, st)
    | job :: rest => (Some job, mutate st queue rest)
    end.

Definition getQueueSize (queueName : QueueName) : M nat :=
  fun st =>
    let queue := inMemoryQueues st queueName in
    (length (deref st queue), st).

Definition clearQueue (queueName : QueueName) : M unit :=
  fun st =>
    let (l, st') := alloc st [] in
    (tt, {| heap := heap st';
            inMemoryQueues := fun q =>
              if decide (q = queueName) then l else inMemoryQueues st' q;
            jobStatuses := jobStatuses st';
            statusLog := statusLog st' |}).

(** [[...inMemoryQueues[queue]]]: the result is a reference to a new array. *)
Definition peekQueue (queueName : QueueName) : M loc :=
  fun st =>
    let queue := inMemoryQueues st queueName in
    alloc st (deref st queue).

Definition setJobStatus (jobId : string) (status : JobStatus) : M unit :=
  fun st =>
    (tt, {| heap := heap st;
            inMemoryQueues := inMemoryQueues st;
            jobStatuses := <[jobId := status]> (jobStatuses st);
            statusLog := statusLog st ++ [(jobId, status)] |}).

Definition getJobStatus (jobId : string) : M (option JobStatus) :=
  fun st => (jobStatuses st !! jobId, st).

(** *** Priority insertion *)

(** [arr.findIndex(p)]; [None] stands for [-1]. *)
Fixpoint findIndex {A : Type} (p : A -> bool) (arr : list A) : option nat :=
  match arr with
  | [] => None
  | x :: rest => if p x then Some O else option_map S (findIndex p rest)
  end.

(** [arr.splice(i, 0, x)] for [0 <= i]. *)
Definition splice0 {A : Type} (arr : list A) (i : nat) (x : A) : list A :=
  firstn i arr ++ x :: skipn i arr.

Definition enqueuePriority (queueName : QueueName) (job : QueueJob) (now : Z) : M unit :=
  fun st =>
    let fullJob := withCreatedAt job now in
    let queue := inMemoryQueues st queueName in
    let jobs := deref st queue in
    let insertIndex := findIndex (fun j => priority j <? priority job) jobs in
    match insertIndex with
    | None => (tt, mutate st queue (jobs ++ [fullJob]))
    | Some i => (tt, mutate st queue (splice0 jobs i fullJob))
    end.

Definition dequeuePriority (queueName : QueueName) : M (option QueueJob) :=
  dequeue queueName.

(** *** The worker loop *)

Record Options : Type := {
  pollInterval : option Z;
  maxRetries : option Z;
}.

Definition noOptions : Options := {| pollInterval := None; maxRetries := None |}.

(** [(job.data.retryCount || 0) + 1] when the stored value is absent, falsy,
    a number or a boolean.  A non-empty string would be concatenated with
    ["1"] and then coerced by [<]; that case is left out of the model. *)
Definition nextRetryCount (d : gmap string JsVal) : option Z :=
  match d !! "retryCount" with
  | None => Some (0 + 1)
  | Some (JNum n) => Some (n + 1)
  | Some (JBool b) => Some ((if b then 1 else 0) + 1)
  | Some JNull => Some (0 + 1)
  | Some (JStr s) => if String.eqb s "" then Some (0 + 1) else None
  end.

(** What one turn of [while (true)] did before the next turn starts. *)
Inductive Turn : Type :=
  | Immediately            (* the loop goes round again at once *)
  | Slept (ms : Z)         (* [setTimeout(resolve, pollInterval)] was awaited *)
  | Unmodelled.            (* string-valued [retryCount], see [nextRetryCount] *)

(** The body of [while (true)].  [processor job] resolves ([None]) or
    rejects with a thrown value.  The outer [try/catch] only guards
    [dequeue] and [enqueue], which never throw. *)
Definition processQueueTurn (queueName : QueueName)
    (processor : QueueJob -> M (option Js.Thrown))
    (options : Options) (now : Z) : M Turn :=
  let pollInterval := default 1000 (pollInterval options) in
  let maxRetries := default 3 (maxRetries options) in
  let* job := dequeue queueName in
  match job with
  | Some job =>
      let* outcome := processor job in
      match outcome with
      | None =>
          do enqueue COMPLETED job now then
          ret Immediately
      | Some error =>
          match nextRetryCount (data job) with
          | Some retryCount =>
              if retryCount <? maxRetries then
                do enqueue queueName
                     (withData job (<["retryCount" := JNum retryCount]> (data job))) now
                then ret Immediately
              else
                do enqueue FAILED
                     (withData job
                        (<["error" := JStr (Js.messageOr "Unknown error" error)]> (data job)))
                     now
                then ret Immediately
          | None => ret Unmodelled
          end
      end
  | None => ret (Slept pollInterval)
  end.

(** The first [n] turns of [processQueue]; [clock k] is what [Date.now()]
    returns during turn [k].  The result lists what each turn did. *)
Fixpoint processQueue (queueName : QueueName)
    (processor : QueueJob -> M (option Js.Thrown))
    (options : Options) (clock : nat -> Z) (n : nat) : M (list Turn) :=
  match n with
  | O => ret []
  | S n' =>
      let* t := processQueueTurn queueName processor options (clock O) in
      let* ts := processQueue queueName processor options (fun k => clock (S k)) n' in
      ret (t :: ts)
  end.

(** [getQueueStats]. *)
Record Stats : Type := {
  st_upload : nat; st_process : nat; st_render : nat;
  st_completed : nat; st_failed : nat;
}.

Definition getQueueStats : M Stats :=
  let* u := getQueueSize UPLOAD in
  let* p := getQueueSize PROCESS in
  let* r := getQueueSize RENDER in
  let* c := getQueueSize COMPLETED in
  let* f := getQueueSize FAILED in
  ret {| st_upload := u; st_process := p; st_render := r;
         st_completed := c; st_failed := f |}.

(** A lane in non-increasing priority order. *)
Definition nonIncreasing (jobs : list QueueJob) : Prop :=
  StronglySorted (fun a b => priority b <= priority a) jobs.

(** The job as the worker loop puts it back after a failed attempt: its
    [data] with [retryCount] set, stamped with the time of the enqueue. *)
Definition retriedJob (job : QueueJob) (retryCount : Z) (now : Z) : QueueJob :=
  withCreatedAt (withData job (<["retryCount" := JNum retryCount]> (data job))) now.

(** The job after [k] failed attempts in a row, the [i]-th of which was
    re-enqueued at clock reading [i - 1]. *)
Definition attempted (job : QueueJob) (k : nat) (clock : nat -> Z) : QueueJob :=
  match k with
  | O => job
  | S k' => retriedJob job (Z.of_nat k) (clock k')
  end.

(** The job as it lands in the FAILED lane. *)
Definition failedJob (job : QueueJob) (e : Js.Thrown) (now : Z) : QueueJob :=
  withCreatedAt
    (withData job (<["error" := JStr (Js.messageOr "Unknown error" e)]> (data job))) now.

End Queue.

(** ** The mock video processor *)

Module Processor.

(** [STEP_DURATIONS], with its keys in declaration order. *)
Inductive StepKey : Type :=
  validation | extraction | analysis | effects | rendering | thumbnail | upload.

#[global] Instance StepKey_eq_dec : EqDecision StepKey.
Proof. solve_decision. Defined.

Definition STEP_DURATIONS (k : StepKey) : Z :=
  match k with
  | validation => 3
  | extraction => 8
  | analysis => 15
  | effects => 10
  | rendering => 50
  | thumbnail => 5
  | upload => 9
  end.

Inductive JobState : Type := running | completed | failed.

Record Metadata : Type := {
  md_styleConfig : Types.StyleConfig;
  md_startTime : Z;
}.

(** The value type of [processingJobs]. *)
Record ProcessingJob : Type := {
  id : string;
  video_id : string;
  status : JobState;
  progress : Z;
  currentStep : string;
  metadata : option Metadata;
}.

(** What [ai_analysis] can hold here: the object [mockAnalysis()] returns,
    or [{ error: message }]. *)
Inductive Analysis : Type :=
  | MockAnalysis
  | AnalysisError (message : string).

(** The fields of a [Video] this module reads or writes. *)
Record Video : Type := {
  v_status : Types.VideoStatus;
  v_processed_url : option string;
  v_thumbnail_url : option string;
  v_duration : option Z;
  v_ai_analysis : option Analysis;
  v_updated_at : string;
}.

(** [Partial<Video>] as passed to [updateVideoStatus]. *)
Record VideoUpdates : Type := {
  u_processed_url : option string;
  u_thumbnail_url : option string;
  u_duration : option Z;
  u_ai_analysis : option Analysis;
}.

Definition noUpdates : VideoUpdates :=
  {| u_processed_url := None; u_thumbnail_url := None;
     u_duration := None; u_ai_analysis := None |}.

(** The module state: its own two tables and the queue module's store. *)
Record State : Type := {
  processingJobs : gmap string ProcessingJob;
  videos : gmap string Video;
  queue : Queue.Store;
}.

Definition M (A : Type) : Type := Eff.St State A.

(** Calls into [./queue]. *)
Definition liftQueue {A : Type} (m : Queue.M A) : M A :=
  fun st =>
    let (a, q) := m (queue st) in
    (a, {| processingJobs := processingJobs st; videos := videos st; queue := q |}).

Definition stepMap (currentStep : string) : option StepKey :=
  if String.eqb currentStep "Validating video" then Some validation
  else if String.eqb currentStep "Extracting audio" then Some extraction
  else if String.eqb currentStep "Analyzing with AI" then Some analysis
  else if String.eqb currentStep "Generating visual effects" then Some effects
  else if String.eqb currentStep "Rendering video" then Some rendering
  else if String.eqb currentStep "Generating thumbnail" then Some thumbnail
  else if String.eqb currentStep "Uploading" then Some upload
  else None.

(** [Object.keys(STEP_DURATIONS)]. *)
Definition stepKeys : list StepKey :=
  [validation; extraction; analysis; effects; rendering; thumbnail; upload].

(** [steps.indexOf(k)]; every key occurs. *)
Fixpoint indexOf (ks : list StepKey) (k : StepKey) : nat :=
  match ks with
  | [] => O
  | k' :: rest => if decide (k' = k) then O else S (indexOf rest k)
  end.

Definition calculateTimeRemaining (currentStep : string) (stepProgress : Q)
    (videoDuration : Q) : Z :=
  let currentStepKey := default rendering (stepMap currentStep) in
  let steps := stepKeys in
  let currentStepIndex := indexOf steps currentStepKey in
  let currentStepDuration := STEP_DURATIONS currentStepKey in
  let currentStepRemaining :=
    Js.fmul (inject_Z currentStepDuration) (Js.fsub 1 (Js.fdiv stepProgress 100)) in
  let futureStepsTime :=
    fold_left (fun acc k => acc + STEP_DURATIONS k) (skipn (S currentStepIndex) steps) 0 in
  let durationMultiplier := Qmin (Js.fdiv videoDuration 60) 3 in
  let totalRemaining :=
    Js.fmul (Js.fadd currentStepRemaining (inject_Z futureStepsTime))
      durationMultiplier in
  Z.max 5 (Js.round totalRemaining).

(** Everything [processVideo] reads from the outside world during one run:
    clock readings and the random suffix of the job id. *)
Record Env : Type := {
  startTime : Z;          (* [Date.now()] at entry *)
  jobNow : Z;             (* [Date.now()] inside [createProcessingJob] *)
  jobRandom : string;     (* [Math.random().toString(36)] *)
  endNow : Z;             (* [Date.now()] when [totalTime] is computed *)
  isoNow : string;        (* [new Date().toISOString()] in [updateVideoStatus] *)
  enqueueNow : Z;         (* [Date.now()] inside the final [enqueue] *)
}.

Definition createProcessingJob (video_id : string) (status : JobState)
    (metadata : option Metadata) (env : Env) : M string :=
  fun st =>
    let jobId := "job_" +:+ Js.Z_to_string (jobNow env) +:+ "_"
                 +:+ substring 2 9 (jobRandom env) in
    (jobId,
     {| processingJobs :=
          <[jobId := {| id := jobId; video_id := video_id; status := status;
                        progress := 0; currentStep := "Validating video";
                        metadata := metadata |}]> (processingJobs st);
        videos := videos st;
        queue := queue st |}).

Definition updateJobProgress (jobId : string) (progress : Z) (currentStep : string)
    (status : JobState) : M unit :=
  fun st =>
    match processingJobs st !! jobId with
    | Some j =>
        (tt,
         {| processingJobs :=
              <[jobId := {| id := id j; video_id := video_id j; status := status;
                            progress := progress; currentStep := currentStep;
                            metadata := metadata j |}]> (processingJobs st);
            videos := videos st;
            queue := queue st |})
    | None => (tt, st)
    end.

Definition updateVideoStatus (videoId : string) (status : Types.VideoStatus)
    (updates : VideoUpdates) (iso : string) : M unit :=
  fun st =>
    match videos st !! videoId with
    | Some v =>
        let pick {A : Type} (upd old : option A) : option A :=
          match upd with Some x => Some x | None => old end in
        (tt,
         {| processingJobs := processingJobs st;
            videos :=
              <[videoId := {| v_status := status;
                              v_processed_url := pick (u_processed_url updates) (v_processed_url v);
                              v_thumbnail_url := pick (u_thumbnail_url updates) (v_thumbnail_url v);
                              v_duration := pick (u_duration updates) (v_duration v);
                              v_ai_analysis := pick (u_ai_analysis updates) (v_ai_analysis v);
                              v_updated_at := iso |}]> (videos st);
            queue := queue st |})
    | None => (tt, st)
    end.

Definition saveAIAnalysis (videoId : string) (a : Analysis) : M unit :=
  fun st =>
    match videos st !! videoId with
    | Some v =>
        (tt,
         {| processingJobs := processingJobs st;
            videos :=
              <[videoId := {| v_status := v_status v;
                              v_processed_url := v_processed_url v;
                              v_thumbnail_url := v_thumbnail_url v;
                              v_duration := v_duration v;
                              v_ai_analysis := Some a;
                              v_updated_at := v_updated_at v |}]> (videos st);
            queue := queue st |})
    | None => (tt, st)
    end.

(** One entry of the [steps] table of [processVideo]. *)
Record Step : Type := {
  s_progress : Z;
  s_step : string;
  s_delay : Z;
}.

Definition steps : list Step :=
  [ {| s_progress := 5;  s_step := "Validating video";          s_delay := 500 |};
    {| s_progress := 15; s_step := "Extracting audio";          s_delay := 1000 |};
    {| s_progress := 30; s_step := "Analyzing with AI";         s_delay := 1500 |};
    {| s_progress := 50; s_step := "Generating visual effects"; s_delay := 1000 |};
    {| s_progress := 70; s_step := "Rendering video";           s_delay := 2000 |};
    {| s_progress := 92; s_step := "Generating thumbnail";      s_delay := 500 |};
    {| s_progress := 95; s_step := "Uploading";                 s_delay := 1000 |};
    {| s_progress := 98; s_step := "Finalizing";                s_delay := 500 |} ].

Definition mockDuration : Z := 120.

(** The body of [for (const { progress, step, delay } of steps)]: three
    awaits, the first of them the [setTimeout(resolve, delay)], which
    changes no state. *)
Definition stepBodyT (jobId : string) (s : Step) : Eff.Tr State unit :=
  (do Eff.await (ret tt) then
   let timeRemaining :=
     calculateTimeRemaining (s_step s) (inject_Z (s_progress s)) (inject_Z mockDuration) in
   do Eff.await (updateJobProgress jobId (s_progress s) (s_step s) running) then
   Eff.await (liftQueue (Queue.setJobStatus jobId
     {| Queue.progress := s_progress s;
        Queue.currentStep := Some (s_step s);
        Queue.timeRemaining := Some timeRemaining;
        Queue.totalTime := None;
        Queue.error := None |})))%tr.

(** One turn of the loop as a whole. *)
Definition stepBody (jobId : string) (s : Step) : M unit := Eff.run (stepBodyT jobId s).

Definition processed_url_sample : string :=
  "https://commondatastorage.googleapis.com/gtv-videos-bucket/sample/BigBuckBunny.mp4".

Definition thumbnail_url_sample : string :=
  "https://images.unsplash.com/photo-1574717024653-61fd2cf4d44d?w=400&h=300&fit=crop".

(** [processVideo], await by await.  No call in the [try] block throws (the
    helpers are total and [enqueue] never fails), so the [catch] block is
    unreachable and the promise always resolves. *)
Definition processVideoT (videoId userId videoPath : string)
    (styleConfig : Types.StyleConfig) (env : Env) : Eff.Tr State unit :=
  (let* jobId :=
     Eff.await (createProcessingJob videoId running
       (Some {| md_styleConfig := styleConfig; md_startTime := startTime env |}) env) in
   do Eff.forEachT steps (stepBodyT jobId) then
   let analysis := MockAnalysis in
   do Eff.await (saveAIAnalysis videoId analysis) then
   let totalTime := Js.round (inject_Z (endNow env - startTime env) / 1000) in
   do Eff.await (updateJobProgress jobId 100 "Completed" completed) then
   do Eff.await (liftQueue (Queue.setJobStatus jobId
        {| Queue.progress := 100;
           Queue.currentStep := Some "Completed";
           Queue.timeRemaining := Some 0;
           Queue.totalTime := Some totalTime;
           Queue.error := None |})) then
   do Eff.await (updateVideoStatus videoId Types.completed
        {| u_processed_url := Some processed_url_sample;
           u_thumbnail_url := Some thumbnail_url_sample;
           u_duration := Some mockDuration;
           u_ai_analysis := Some analysis |} (isoNow env)) then
   Eff.await (liftQueue (Queue.enqueue Queue.COMPLETED
     {| Queue.id := jobId;
        Queue.type := Queue.process;
        Queue.videoId := videoId;
        Queue.priority := 0;
        Queue.data := <["status" := Queue.JStr "completed"]>
                        (<["totalTime" := Queue.JNum totalTime]> ∅);
        Queue.createdAt := 0 |} (enqueueNow env))))%tr.

(** The call as a whole. *)
Definition processVideo (videoId userId videoPath : string)
    (styleConfig : Types.StyleConfig) (env : Env) : M unit :=
  Eff.run (processVideoT videoId userId videoPath styleConfig env).

(** What the rest of the program sees of a job at some moment: the
    progress and the state in its record. *)
Definition jobView (jobId : string) (st : State) : option (Z * JobState) :=
  match processingJobs st !! jobId with
  | Some j => Some (progress j, status j)
  | None => None
  end.

(** What is seen at the awaits of the loop, three to a step, when the
    record shows [before] as the loop starts. *)
Fixpoint loopView (before : Z * JobState) (ss : list Step) : list (Z * JobState) :=
  match ss with
  | [] => []
  | s :: rest =>
      before :: (s_progress s, running) :: (s_progress s, running)
      :: loopView (s_progress s, running) rest
  end.

(** [queueVideoProcessing]; the [styleConfig] object stored in [data] is
    not a scalar and is left out of the model of [data]. *)
Definition queueVideoProcessing (videoId userId videoPath : string)
    (styleConfig : Types.StyleConfig) (now : Z) (iso : string) : M unit :=
  do liftQueue (Queue.enqueue Queue.PROCESS
       {| Queue.id := videoId;
          Queue.type := Queue.process;
          Queue.videoId := videoId;
          Queue.priority := 1;
          Queue.data := <["userId" := Queue.JStr userId]>
                          (<["videoPath" := Queue.JStr videoPath]> ∅);
          Queue.createdAt := 0 |} now) then
  updateVideoStatus videoId Types.queued noUpdates iso.

(** The status [stepBody] hands to [setJobStatus]. *)
Definition statusOf (s : Step) : Queue.JobStatus :=
  {| Queue.progress := s_progress s;
     Queue.currentStep := Some (s_step s);
     Queue.timeRemaining :=
       Some (calculateTimeRemaining (s_step s) (inject_Z (s_progress s))
               (inject_Z mockDuration));
     Queue.totalTime := None;
     Queue.error := None |}.

End Processor.

(** ** The command-string builders ([src/lib/ffmpeg-commands.ts]) *)

Module Ffmpeg.

(** The builders print numbers into the command and do a little arithmetic
    on them.  What a JavaScript number is, and how it prints, is the
    platform's business: the builders are written against this interface. *)
Class JsNumber (num : Type) : Type := {
  lit : Q -> num;               (* a numeric literal of the source *)
  sub : num -> num -> num;      (* [a - b] *)
  mul : num -> num -> num;      (* [a * b] *)
  round : num -> num;           (* [Math.round(a)] *)
  truthy : num -> bool;         (* [false] for [0] and [NaN] *)
  str : num -> string;          (* [`${a}`] *)
  str16 : num -> string;        (* [a.toString(16)] *)
}.

(** What a call produces: a value, or a thrown exception. *)
Inductive Outcome (A : Type) : Type :=
  | Returned (a : A)
  | Threw (e : Js.Thrown).
Arguments Returned {A} a.
Arguments Threw {A} e.

Inductive EffectType : Type :=
  | zoom | transition | color_grade | blur | shake | glow.

Inductive TransitionType : Type := t_fade | t_dissolve.
Inductive AspectRatio : Type := r9_16 | r16_9 | r1_1.
Inductive Quality : Type := low | q_medium | high.

Section Builders.

Context {num : Type} `{JsNumber num}.

(** [a || d] on numbers, and a parameter with a default value. *)
Definition numOr (a : option num) (d : Q) : num :=
  match a with
  | Some v => if truthy v then v else lit d
  | None => lit d
  end.

Definition param (a : option num) (d : Q) : num := default (lit d) a.

Record CaptionStyle : Type := {
  fontSize : num;
  fontColor : string;
  backgroundColor : string;
  opacity : num;
}.

(** The fields of a [Caption] the builders read. *)
Record Caption : Type := {
  text : string;
  start_time : num;
  end_time : num;
  is_highlighted : bool;
  captionStyle : option CaptionStyle;   (* the field [style] *)
}.

(** [parameters] of a zoom effect, as read through [params.scale] etc. *)
Record EffectParams : Type := {
  scale : option num;
  centerX : option num;
  centerY : option num;
}.

Record VisualEffect : Type := {
  effect_type : EffectType;
  e_start_time : num;
  e_end_time : num;
  parameters : EffectParams;
}.

Record PipelineOptions : Type := {
  o_removeNoise : option bool;
  o_normalizeAudio : option bool;
  o_colorGrade : option bool;
  o_videoWidth : option num;
  o_videoHeight : option num;
}.

Definition extractAudio (inputPath outputPath : string) : string :=
  "ffmpeg -i " +:+ Js.quoted inputPath +:+ " -vn -acodec pcm_s16le -ar 44100 -ac 2 "
  +:+ Js.quoted outputPath.

Definition getVideoMetadata (inputPath : string) : string :=
  "ffprobe -v quiet -print_format json -show_format -show_streams "
  +:+ Js.quoted inputPath.

Definition getVideoDuration (inputPath : string) : string :=
  "ffprobe -v error -show_entries format=duration -of default=noprint_wrappers=1:nokey=1 "
  +:+ Js.quoted inputPath.

(** The escaping chain of [generateCaptionFilter]: five global replacements,
    applied one after the other. *)
Definition escapeCaptionText (text : string) : string :=
  Js.replaceAll "]" "\]"
    (Js.replaceAll "[" "\["
       (Js.replaceAll ":" "\:"
          (Js.replaceAll "'" "\'"
             (Js.replaceAll "\" "\\" text)))).

Definition fontFile : string := "/usr/share/fonts/truetype/dejavu/DejaVuSans-Bold.ttf".

Definition generateCaptionFilter (caption : Caption) (videoWidth videoHeight : option num)
    (style : Types.StyleConfig) : string :=
  let videoWidth := param videoWidth 1080 in
  let videoHeight := param videoHeight 1920 in
  let captionStyle := captionStyle caption in
  let escapedText := escapeCaptionText (text caption) in
  let fontSize := numOr (fontSize <$> captionStyle) 60 in
  let fontColor :=
    if is_highlighted caption then Types.accent (Types.colors style)
    else Js.strOr (fontColor <$> captionStyle) "#FFFFFF" in
  let bgColor := Js.strOr (backgroundColor <$> captionStyle) "#000000" in
  let opacity := numOr (opacity <$> captionStyle) 0.8 in
  let yPosition := sub videoHeight (lit 200) in
  let bgOpacity := Js.padStart 2 "0" (str16 (round (mul opacity (lit 255)))) in
  let bgColorWithAlpha := bgColor +:+ bgOpacity in
  "drawtext=fontfile=" +:+ fontFile +:+ ":text='" +:+ escapedText
  +:+ "':fontcolor=" +:+ fontColor +:+ ":fontsize=" +:+ str fontSize
  +:+ ":box=1:boxcolor=" +:+ bgColorWithAlpha
  +:+ ":boxborderw=10:x=(w-text_w)/2:y=" +:+ str yPosition
  +:+ ":enable='between(t," +:+ str (start_time caption) +:+ ","
  +:+ str (end_time caption) +:+ ")'".

Definition applyCaptions (inputPath outputPath : string) (captions : list Caption)
    (style : Types.StyleConfig) (videoWidth videoHeight : option num) : string :=
  let videoWidth := param videoWidth 1080 in
  let videoHeight := param videoHeight 1920 in
  let captionFilters :=
    map (fun caption =>
           generateCaptionFilter caption (Some videoWidth) (Some videoHeight) style)
        captions in
  let filterComplex := Js.join "," captionFilters in
  "ffmpeg -i " +:+ Js.quoted inputPath +:+ " -vf " +:+ Js.quoted filterComplex
  +:+ " -c:a copy " +:+ Js.quoted outputPath.

Definition applyZoomEffect (startTime endTime : num) (scale centerX centerY : option num)
    : string :=
  let scale := param scale 1.2 in
  let centerX := param centerX 0.5 in
  let centerY := param centerY 0.5 in
  let duration := sub endTime startTime in
  "zoompan=z='if(between(t," +:+ str startTime +:+ "," +:+ str endTime +:+ "),"
  +:+ str scale +:+ ",1)':d=" +:+ str duration +:+ ":x='iw*" +:+ str centerX
  +:+ "':y='ih*" +:+ str centerY +:+ "':s=1080x1920".

Definition applyColorGrade (brightness contrast saturation : option num) : string :=
  let brightness := param brightness 0.06 in
  let contrast := param contrast 1.1 in
  let saturation := param saturation 1.2 in
  "eq=brightness=" +:+ str brightness +:+ ":contrast=" +:+ str contrast
  +:+ ":saturation=" +:+ str saturation.

Definition applyTransition (startTime : num) (duration : option num)
    (type : option TransitionType) : string :=
  let duration := param duration 0.5 in
  let type := default t_fade type in
  match type with
  | t_fade => "fade=t=in:st=" +:+ str startTime +:+ ":d=" +:+ str duration
  | t_dissolve =>
      "fade=t=in:st=" +:+ str startTime +:+ ":d=" +:+ str duration +:+ ":alpha=1"
  end.

Definition applyBlur (strength : option num) : string :=
  let strength := param strength 5 in
  "boxblur=" +:+ str strength +:+ ":1".

Definition applyShake (startTime endTime : num) (intensity : option num) : string :=
  let intensity := param intensity 10 in
  "crop=in_w-" +:+ str intensity +:+ ":in_h-" +:+ str intensity +:+ ":"
  +:+ str intensity +:+ "*sin(2*PI*t):" +:+ str intensity
  +:+ "*cos(2*PI*t):enable='between(t," +:+ str startTime +:+ ","
  +:+ str endTime +:+ ")'".

Definition reduceNoise (inputPath outputPath : string) : string :=
  "ffmpeg -i " +:+ Js.quoted inputPath +:+ " -af "
  +:+ Js.quoted "highpass=f=200,lowpass=f=3000,afftdn=nf=-25" +:+ " "
  +:+ Js.quoted outputPath.

Definition normalizeAudio (inputPath outputPath : string) : string :=
  "ffmpeg -i " +:+ Js.quoted inputPath +:+ " -af "
  +:+ Js.quoted "loudnorm=I=-16:TP=-1.5:LRA=11" +:+ " " +:+ Js.quoted outputPath.

Definition addBackgroundMusic (videoPath musicPath outputPath : string)
    (musicVolume : option num) : string :=
  let musicVolume := param musicVolume 0.3 in
  "ffmpeg -i " +:+ Js.quoted videoPath +:+ " -i " +:+ Js.quoted musicPath
  +:+ " -filter_complex "
  +:+ Js.quoted ("[1:a]volume=" +:+ str musicVolume
                 +:+ "[music];[0:a][music]amix=inputs=2:duration=first")
  +:+ " -c:v copy " +:+ Js.quoted outputPath.

Definition cutVideo (inputPath outputPath : string) (startTime endTime : num) : string :=
  let duration := sub endTime startTime in
  "ffmpeg -i " +:+ Js.quoted inputPath +:+ " -ss " +:+ str startTime +:+ " -t "
  +:+ str duration +:+ " -c copy " +:+ Js.quoted outputPath.

Definition removeSilences (inputPath outputPath : string)
    (silenceThreshold silenceDuration : option num) : string :=
  let silenceThreshold := param silenceThreshold (-30) in
  let silenceDuration := param silenceDuration 0.5 in
  let pass :=
    "silenceremove=start_periods=1:start_duration=" +:+ str silenceDuration
    +:+ ":start_threshold=" +:+ str silenceThreshold
    +:+ "dB:detection=peak,aformat=dblp,areverse" in
  "ffmpeg -i " +:+ Js.quoted inputPath +:+ " -af " +:+ Js.quoted (pass +:+ "," +:+ pass)
  +:+ " -c:v copy " +:+ Js.quoted outputPath.

Definition generateThumbnail (inputPath outputPath : string) (timestamp : num)
    (width height : option num) : string :=
  let width := param width 1280 in
  let height := param height 720 in
  "ffmpeg -i " +:+ Js.quoted inputPath +:+ " -ss " +:+ str timestamp
  +:+ " -vframes 1 -vf " +:+ Js.quoted ("scale=" +:+ str width +:+ ":" +:+ str height)
  +:+ " " +:+ Js.quoted outputPath.

(** The escaping chain of [generateViralThumbnail]: three replacements. *)
Definition escapeTitle (title : string) : string :=
  Js.replaceAll ":" "\:"
    (Js.replaceAll "'" "\'"
       (Js.replaceAll "\" "\\" title)).

Definition generateViralThumbnail (inputPath outputPath : string) (timestamp : num)
    (title : string) (width height : option num) : string :=
  let width := param width 1280 in
  let height := param height 720 in
  let escapedTitle := escapeTitle title in
  "ffmpeg -i " +:+ Js.quoted inputPath +:+ " -ss " +:+ str timestamp
  +:+ " -vframes 1 -vf "
  +:+ Js.quoted ("scale=" +:+ str width +:+ ":" +:+ str height
                 +:+ ",eq=brightness=0.1:contrast=1.2:saturation=1.3,drawtext=fontfile="
                 +:+ fontFile +:+ ":text='" +:+ escapedTitle
                 +:+ "':fontcolor=white:fontsize=80:box=1:boxcolor=black@0.7:boxborderw=20:x=(w-text_w)/2:y=h-150")
  +:+ " " +:+ Js.quoted outputPath.

(** The filter one [effect] contributes in [generateCompleteEditingPipeline];
    effects other than zoom and transition contribute nothing. *)
Definition effectFilter (effect : VisualEffect) : list string :=
  match effect_type effect with
  | zoom =>
      let params := parameters effect in
      [applyZoomEffect (e_start_time effect) (e_end_time effect)
         (Some (numOr (scale params) 1.2))
         (Some (numOr (centerX params) 0.5))
         (Some (numOr (centerY params) 0.5))]
  | transition => [applyTransition (e_start_time effect) (Some (lit 0.5)) None]
  | _ => []
  end.

(** [inputPath.replace(/\.[^.]+$/, suffix)]. *)
Definition withSuffix (inputPath suffix : string) : string :=
  Js.replaceExt (fun _ => false) suffix inputPath.

(** [generateCompleteEditingPipeline].  The destructured option
    [normalizeAudio] is a boolean constant of the function body and hides
    the module-level function of the same name: where the body calls
    [normalizeAudio(...)] it calls that boolean, which throws a [TypeError]. *)
Definition generateCompleteEditingPipeline (inputPath outputPath : string)
    (captions : list Caption) (effects : list VisualEffect)
    (style : Types.StyleConfig) (options : PipelineOptions)
    : Outcome (list string) :=
  let removeNoise := default true (o_removeNoise options) in
  let normalizeAudio := default true (o_normalizeAudio options) in
  let colorGrade := default true (o_colorGrade options) in
  let videoWidth := param (o_videoWidth options) 1080 in
  let videoHeight := param (o_videoHeight options) 1920 in
  let currentInput := inputPath in
  (* Steps 1 and 2: the audio commands and [stepOutput] *)
  let audio : Outcome (list string * string) :=
    if removeNoise || normalizeAudio then
      let audioPath := withSuffix inputPath "_audio.wav" in
      let commands := [extractAudio currentInput audioPath] in
      let '(commands, stepOutput) :=
        if removeNoise then
          let denoisedPath := withSuffix inputPath "_denoised.wav" in
          (commands ++ [reduceNoise audioPath denoisedPath], denoisedPath)
        else (commands, EmptyString) in
      if normalizeAudio then
        Threw (Js.ErrorObj "normalizeAudio is not a function")
      else Returned (commands, stepOutput)
    else Returned ([], EmptyString) in
  match audio with
  | Threw e => Threw e
  | Returned (commands, stepOutput) =>
      (* Step 3: the video filters *)
      let filters :=
        (if colorGrade
         then [applyColorGrade (Some (lit 0.06)) (Some (lit 1.1)) (Some (lit 1.2))]
         else [])
        ++ flat_map effectFilter effects
        ++ map (fun caption =>
                  generateCaptionFilter caption (Some videoWidth) (Some videoHeight) style)
               captions in
      (* Step 4 *)
      let filterComplex := Js.join "," filters in
      let videoWithEffects := withSuffix inputPath "_effects.mp4" in
      let commands :=
        if negb (String.eqb stepOutput EmptyString) then
          commands ++
          ["ffmpeg -i " +:+ Js.quoted currentInput +:+ " -i " +:+ Js.quoted stepOutput
           +:+ " -filter_complex " +:+ Js.quoted filterComplex
           +:+ " -map 0:v -map 1:a -c:v libx264 -preset medium -crf 23 -c:a aac -b:a 192k "
           +:+ Js.quoted videoWithEffects]
        else
          commands ++
          ["ffmpeg -i " +:+ Js.quoted currentInput +:+ " -vf " +:+ Js.quoted filterComplex
           +:+ " -c:v libx264 -preset medium -crf 23 -c:a copy "
           +:+ Js.quoted videoWithEffects] in
      (* Step 5 *)
      Returned (commands ++ ["mv " +:+ Js.quoted videoWithEffects +:+ " "
                             +:+ Js.quoted outputPath])
  end.

Definition convertAspectRatio (inputPath outputPath : string)
    (targetRatio : AspectRatio) : string :=
  let '(width, height) :=
    match targetRatio with
    | r9_16 => (lit 1080, lit 1920)
    | r16_9 => (lit 1920, lit 1080)
    | r1_1 => (lit 1080, lit 1080)
    end in
  "ffmpeg -i " +:+ Js.quoted inputPath +:+ " -vf "
  +:+ Js.quoted ("scale=" +:+ str width +:+ ":" +:+ str height
                 +:+ ":force_original_aspect_ratio=decrease,pad=" +:+ str width
                 +:+ ":" +:+ str height +:+ ":(ow-iw)/2:(oh-ih)/2:black")
  +:+ " -c:a copy " +:+ Js.quoted outputPath.

Definition optimizeForWeb (inputPath outputPath : string) : string :=
  "ffmpeg -i " +:+ Js.quoted inputPath
  +:+ " -c:v libx264 -preset slow -crf 22 -c:a aac -b:a 128k -movflags +faststart "
  +:+ Js.quoted outputPath.

Definition compressVideo (inputPath outputPath : string) (quality : option Quality)
    : string :=
  let quality := default q_medium quality in
  let crf := match quality with low => lit 28 | q_medium => lit 23 | high => lit 18 end in
  "ffmpeg -i " +:+ Js.quoted inputPath +:+ " -c:v libx264 -preset medium -crf "
  +:+ str crf +:+ " -c:a aac -b:a 128k " +:+ Js.quoted outputPath.

(** A call of any of the exported builders, and what it produces. *)
Inductive Call : Type :=
  | CallExtractAudio (inputPath outputPath : string)
  | CallGetVideoMetadata (inputPath : string)
  | CallGetVideoDuration (inputPath : string)
  | CallGenerateCaptionFilter (caption : Caption) (videoWidth videoHeight : option num)
      (style : Types.StyleConfig)
  | CallApplyCaptions (inputPath outputPath : string) (captions : list Caption)
      (style : Types.StyleConfig) (videoWidth videoHeight : option num)
  | CallApplyZoomEffect (startTime endTime : num) (scale centerX centerY : option num)
  | CallApplyColorGrade (brightness contrast saturation : option num)
  | CallApplyTransition (startTime : num) (duration : option num)
      (type : option TransitionType)
  | CallApplyBlur (strength : option num)
  | CallApplyShake (startTime endTime : num) (intensity : option num)
  | CallReduceNoise (inputPath outputPath : string)
  | CallNormalizeAudio (inputPath outputPath : string)
  | CallAddBackgroundMusic (videoPath musicPath outputPath : string)
      (musicVolume : option num)
  | CallCutVideo (inputPath outputPath : string) (startTime endTime : num)
  | CallRemoveSilences (inputPath outputPath : string)
      (silenceThreshold silenceDuration : option num)
  | CallGenerateThumbnail (inputPath outputPath : string) (timestamp : num)
      (width height : option num)
  | CallGenerateViralThumbnail (inputPath outputPath : string) (timestamp : num)
      (title : string) (width height : option num)
  | CallGenerateCompleteEditingPipeline (inputPath outputPath : string)
      (captions : list Caption) (effects : list VisualEffect)
      (style : Types.StyleConfig) (options : PipelineOptions)
  | CallConvertAspectRatio (inputPath outputPath : string) (targetRatio : AspectRatio)
  | CallOptimizeForWeb (inputPath outputPath : string)
  | CallCompressVideo (inputPath outputPath : string) (quality : option Quality).

Inductive Produced : Type :=
  | Command (s : string)
  | Commands (cs : list string)
  | Exception (e : Js.Thrown).

Definition invoke (c : Call) : Produced :=
  match c with
  | CallExtractAudio i o => Command (extractAudio i o)
  | CallGetVideoMetadata i => Command (getVideoMetadata i)
  | CallGetVideoDuration i => Command (getVideoDuration i)
  | CallGenerateCaptionFilter c w h s => Command (generateCaptionFilter c w h s)
  | CallApplyCaptions i o cs s w h => Command (applyCaptions i o cs s w h)
  | CallApplyZoomEffect a b s x y => Command (applyZoomEffect a b s x y)
  | CallApplyColorGrade b c s => Command (applyColorGrade b c s)
  | CallApplyTransition a d t => Command (applyTransition a d t)
  | CallApplyBlur s => Command (applyBlur s)
  | CallApplyShake a b i => Command (applyShake a b i)
  | CallReduceNoise i o => Command (reduceNoise i o)
  | CallNormalizeAudio i o => Command (normalizeAudio i o)
  | CallAddBackgroundMusic v m o vol => Command (addBackgroundMusic v m o vol)
  | CallCutVideo i o a b => Command (cutVideo i o a b)
  | CallRemoveSilences i o t d => Command (removeSilences i o t d)
  | CallGenerateThumbnail i o t w h => Command (generateThumbnail i o t w h)
  | CallGenerateViralThumbnail i o t ti w h =>
      Command (generateViralThumbnail i o t ti w h)
  | CallGenerateCompleteEditingPipeline i o cs es s opts =>
      match generateCompleteEditingPipeline i o cs es s opts with
      | Returned l => Commands l
      | Threw e => Exception e
      end
  | CallConvertAspectRatio i o r => Command (convertAspectRatio i o r)
  | CallOptimizeForWeb i o => Command (optimizeForWeb i o)
  | CallCompressVideo i o q => Command (compressVideo i o q)
  end.

End Builders.

(** Backslash-escaping as the specification words it: one pass over the
    text in which every character of the set [special], and no other, gets
    a backslash in front. *)
Fixpoint escapeEach (special : ascii -> bool) (s : string) : string :=
  match s with
  | EmptyString => EmptyString
  | String c s' =>
      if special c then String "\" (String c (escapeEach special s'))
      else String c (escapeEach special s')
  end.

(** Backslash, single quote, colon and the two square brackets. *)
Definition captionSpecial (c : ascii) : bool :=
  Ascii.eqb c "\" || Ascii.eqb c "'" || Ascii.eqb c ":"
  || Ascii.eqb c "[" || Ascii.eqb c "]".

(** Backslash, single quote and colon. *)
Definition titleSpecial (c : ascii) : bool :=
  Ascii.eqb c "\" || Ascii.eqb c "'" || Ascii.eqb c ":".

(** *** Doubles as numbers

    The implementation of [JsNumber] that JavaScript has: the rationals
    that are doubles, with rounded arithmetic, printed as
    [Number::toString] prints them. *)

Definition digitChar (d : Z) : ascii := ascii_of_nat (48 + Z.to_nat d).

Definition Q_to_string (q : Q) : string := Js.Number_toString q.

Definition hexChar (d : Z) : ascii :=
  if d <? 10 then digitChar d else ascii_of_nat (87 + Z.to_nat d).

Fixpoint hexDigits (fuel : nat) (n : Z) (acc : string) : string :=
  match fuel with
  | O => acc
  | S fuel' =>
      let acc' := String (hexChar (n mod 16)) acc in
      if n / 16 =? 0 then acc' else hexDigits fuel' (n / 16) acc'
  end.

(** [toString(16)] of an integer (a double is below [16^256]). *)
Definition Z_to_hex (n : Z) : string :=
  (if n <? 0 then "-" else EmptyString) +:+ hexDigits 256 (Z.abs n) EmptyString.

#[global] Instance QNum : JsNumber Q := {|
  lit := Js.double;
  sub := Js.fsub;
  mul := Js.fmul;
  round := fun q => inject_Z (Js.round q);
  truthy := fun q => negb (Qeq_bool q 0);
  str := Q_to_string;
  str16 := fun q => Z_to_hex (Qfloor q);
|}.

End Ffmpeg.

(** ** The route handlers *)

Module Api.

(** *** Upload: [POST] *)

(** A [File] of the multipart form. *)
Record File : Type := {
  name : string;
  size : Z;
  type : string;
}.

(** The form fields the handler reads; [None] is what [formData.get]
    returns for an absent field. *)
Record FormData : Type := {
  video : option File;
  style : option string;
  pace : option string;
  colors : option string;
}.

(** What the handler reads from the outside world. *)
Record UploadEnv : Type := {
  now : Z;                     (* [Date.now()] *)
  random36 : string;           (* [Math.random().toString(36)] *)
  createdIso : string;         (* the first [new Date().toISOString()] *)
  updatedIso : string;         (* the second one *)
  syntaxErrorMessage : string; (* the message of the engine's [SyntaxError] *)
}.

Record UploadStyleConfig : Type := {
  sc_style : option string;
  sc_pace : option string;
  sc_colors : Js.Json;
}.

(** The synthesized [mockVideo]. *)
Record Video : Type := {
  id : string;
  user_id : string;
  title : string;
  original_url : string;
  processed_url : string;
  thumbnail_url : string;
  status : Types.VideoStatus;
  duration : Z;
  format : option string;
  aspect_ratio : string;
  style_config : UploadStyleConfig;
  created_at : string;
  updated_at : string;
}.

(** A JSON response and its HTTP status. *)
Inductive UploadResponse : Type :=
  | Status400 (error : string)
  | Status500 (error : string)
  | Status200 (success : bool) (video : Video) (message : string).

Definition maxSize : Z := 500 * 1024 * 1024.

Definition validTypes : list string := ["video/mp4"; "video/quicktime"; "video/x-msvideo"].

(** [name.replace(/\.[^/.]+$/, '')]. *)
Definition stripExtension (name : string) : string :=
  Js.replaceExt (fun c => Ascii.eqb c "/") EmptyString name.

Definition POST (formData : FormData) (env : UploadEnv) : UploadResponse :=
  match video formData with
  | None => Status400 "Nenhum arquivo de vídeo fornecido"
  | Some videoFile =>
      if maxSize <? size videoFile then
        Status400 "Arquivo muito grande. Máximo: 500MB"
      else if negb (Js.includes validTypes (type videoFile)) then
        Status400 "Formato inválido. Use MP4 ou MOV"
      else
        let videoId :=
          "video_" +:+ Js.Z_to_string (now env) +:+ "_"
          +:+ substring 2 9 (random36 env) in
        match Js.JSON_parse (Js.strOr (colors formData) "{}") with
        | None => Status500 (syntaxErrorMessage env)   (* the [catch] block *)
        | Some parsedColors =>
            let mockVideo :=
              {| id := videoId;
                 user_id := "demo_user";
                 title := stripExtension (name videoFile);
                 original_url := EmptyString;
                 processed_url := EmptyString;
                 thumbnail_url := EmptyString;
                 status := Types.processing;
                 duration := 0;
                 format := Js.split "/" (type videoFile) !! 1%nat;
                 aspect_ratio := "16:9";
                 style_config :=
                   {| sc_style := style formData;
                      sc_pace := pace formData;
                      sc_colors := parsedColors |};
                 created_at := createdIso env;
                 updated_at := updatedIso env |} in
            Status200 true mockVideo
              "Vídeo enviado com sucesso! Iniciando processamento..."
        end
  end.

(** *** Status: [GET] *)

Record Analysis : Type := {
  virality_score : Q;
  suggested_title : string;
  suggested_description : string;
  suggested_hashtags : list string;
  audio_quality : Q;
  visual_quality : Q;
}.

(** The canned video of the completed payload. *)
Record ProcessedVideo : Type := {
  p_id : string;
  p_user_id : string;
  p_title : string;
  p_original_url : string;
  p_processed_url : string;
  p_thumbnail_url : string;
  p_status : Types.VideoStatus;
  p_duration : Z;
  p_format : string;
  p_aspect_ratio : string;
  p_ai_analysis : Analysis;
  p_style_config : Types.StyleConfig;
  p_created_at : string;
  p_updated_at : string;
}.

Inductive StatusResponse : Type :=
  | MissingId (error : string)                              (* status 400 *)
  | Completed (status : Types.VideoStatus) (progress : Z) (currentStep : string)
      (timeRemaining : Z) (video : ProcessedVideo)
  | Processing (status : Types.VideoStatus) (progress : Z) (currentStep : string)
      (timeRemaining : Z).

Record StatusEnv : Type := {
  random : Q;              (* [Math.random()]: a double in [0, 1) *)
  createdIso' : string;
  updatedIso' : string;
}.

Definition steps : list string :=
  [ "Validating video"; "Extracting audio"; "Analyzing with AI";
    "Generating visual effects"; "Rendering video"; "Generating thumbnail";
    "Finalizing" ].

(** [Math.min(100, Math.floor(Math.random() * 100) + 1)]: the product is
    the rounded one, the floor and the sum of two small integers are exact. *)
Definition mockProgressOf (r : Q) : Z := Z.min 100 (Qfloor (Js.fmul r 100) + 1).

Definition cannedVideo (videoId : string) (env : StatusEnv) : ProcessedVideo :=
  {| p_id := videoId;
     p_user_id := "demo_user";
     p_title := "Vídeo Processado";
     p_original_url := EmptyString;
     p_processed_url :=
       "https://commondatastorage.googleapis.com/gtv-videos-bucket/sample/BigBuckBunny.mp4";
     p_thumbnail_url :=
       "https://images.unsplash.com/photo-1574717024653-61fd2cf4d44d?w=400&h=300&fit=crop";
     p_status := Types.completed;
     p_duration := 120;
     p_format := "mp4";
     p_aspect_ratio := "16:9";
     p_ai_analysis :=
       {| virality_score := 0.85;
          suggested_title := "🔥 Vídeo Incrível que Vai Viralizar!";
          suggested_description :=
            "Este vídeo foi otimizado pela IA para máximo engajamento. Compartilhe agora!";
          suggested_hashtags := ["#viral"; "#trending"; "#ai"; "#videoediting"];
          audio_quality := 0.9;
          visual_quality := 0.95 |};
     p_style_config :=
       {| Types.style := Types.modern;
          Types.pace := Types.medium;
          Types.colors :=
            {| Types.primary := "#FF6B6B";
               Types.secondary := "#4ECDC4";
               Types.accent := "#FFE66D" |} |};
     p_created_at := createdIso' env;
     p_updated_at := updatedIso' env |}.

(** The handler keeps no state: its only inputs are the path parameter and
    the environment.  [mockProgress / 100], the two products and the
    literal [1.2] are rounded to doubles; [100 - mockProgress] is a
    difference of small integers and exact. *)
Definition GET (videoId : string) (env : StatusEnv) : StatusResponse :=
  if String.eqb videoId EmptyString then
    MissingId "ID do vídeo não fornecido"
  else
    let mockProgress := mockProgressOf (random env) in
    let currentStepIndex :=
      Qfloor (Js.fmul (Js.fdiv (inject_Z mockProgress) 100)
                (inject_Z (Z.of_nat (length steps)))) in
    let currentStep :=
      nth (Z.to_nat (Z.min currentStepIndex (Z.of_nat (length steps) - 1))) steps
        EmptyString in
    let timeRemaining :=
      Z.max 0 (Js.round (Js.fmul (inject_Z (100 - mockProgress)) (Js.double 1.2))) in
    if 100 <=? mockProgress then
      Completed Types.completed 100 "Completed" 0 (cannedVideo videoId env)
    else
      Processing Types.processing mockProgress currentStep timeRemaining.

End Api.

(** ** Sample inputs

    Concrete values on which the definitions above are run in the second
    half of the file. *)

Module Samples.

(** Five words; the gaps between them are 1.5, 1.0, 2.5 and 2.0 seconds. *)
Definition hello : Analyzer.TranscriptionWord :=
  {| Analyzer.word := "Hello"; Analyzer.start := 0; Analyzer.end_ := 0.5;
     Analyzer.confidence := 0.99 |}.
Definition world : Analyzer.TranscriptionWord :=
  {| Analyzer.word := "world"; Analyzer.start := 2; Analyzer.end_ := 2.5;
     Analyzer.confidence := 0.99 |}.
Definition again : Analyzer.TranscriptionWord :=
  {| Analyzer.word := "again"; Analyzer.start := 3.5; Analyzer.end_ := 4;
     Analyzer.confidence := 0.99 |}.
Definition later : Analyzer.TranscriptionWord :=
  {| Analyzer.word := "later"; Analyzer.start := 6.5; Analyzer.end_ := 7;
     Analyzer.confidence := 0.99 |}.
Definition finally : Analyzer.TranscriptionWord :=
  {| Analyzer.word := "finally"; Analyzer.start := 9; Analyzer.end_ := 9.5;
     Analyzer.confidence := 0.99 |}.

Definition talk : Analyzer.Transcription :=
  {| Analyzer.text := "Hello world again later finally";
     Analyzer.words := [hello; world; again; later; finally];
     Analyzer.language := "en";
     Analyzer.duration := 10 |}.

(** Twelve words, a second apart. *)
Definition tick (k : nat) : Analyzer.TranscriptionWord :=
  {| Analyzer.word := "w" +:+ Js.Z_to_string (Z.of_nat k);
     Analyzer.start := inject_Z (Z.of_nat k);
     Analyzer.end_ := inject_Z (Z.of_nat k) + 0.5;
     Analyzer.confidence := 1 |}.

Definition twelve : Analyzer.Transcription :=
  {| Analyzer.text := EmptyString;
     Analyzer.words := map tick (seq 0 12);
     Analyzer.language := "en";
     Analyzer.duration := 12 |}.

(** A job, a store whose PROCESS lane holds just that job, and processors
    that only signal an outcome. *)
Definition jobOf (name : string) (priority : Z) : Queue.QueueJob :=
  {| Queue.id := name; Queue.type := Queue.process; Queue.videoId := name;
     Queue.priority := priority; Queue.data := ∅; Queue.createdAt := 0 |}.

Definition oneJobStore : Queue.Store :=
  snd (Queue.enqueue Queue.PROCESS (jobOf "v1" 1) 100 Queue.initial).

Definition alwaysFails : Queue.QueueJob -> Queue.M (option Js.Thrown) :=
  fun _ st => (Some (Js.ErrorObj "boom"), st).

Definition alwaysSucceeds : Queue.QueueJob -> Queue.M (option Js.Thrown) :=
  fun _ st => (None, st).

Definition tickClock (k : nat) : Z := 1000 + Z.of_nat k.

(** A file of exactly 500 MB, and forms that carry it. *)
Definition limitFile : Api.File :=
  {| Api.name := "clip.final.mp4"; Api.size := 524288000; Api.type := "video/mp4" |}.

Definition goodForm : Api.FormData :=
  {| Api.video := Some limitFile; Api.style := Some "modern";
     Api.pace := Some "fast"; Api.colors := None |}.

Definition badColorsForm : Api.FormData :=
  {| Api.video := Some limitFile; Api.style := Some "modern";
     Api.pace := Some "fast"; Api.colors := Some "{" |}.

Definition uploadEnv : Api.UploadEnv :=
  {| Api.now := 1700000000000;
     Api.random36 := "0.4fzyo82mvyr";
     Api.createdIso := "2023-11-14T22:13:20.000Z";
     Api.updatedIso := "2023-11-14T22:13:20.000Z";
     Api.syntaxErrorMessage := "Unexpected end of JSON input" |}.

Definition pollEnv (r : Q) : Api.StatusEnv :=
  {| Api.random := r;
     Api.createdIso' := "2023-11-14T22:13:20.000Z";
     Api.updatedIso' := "2023-11-14T22:13:20.000Z" |}.

Definition plainStyle : Types.StyleConfig :=
  {| Types.style := Types.modern; Types.pace := Types.medium;
     Types.colors := {| Types.primary := "#FF6B6B"; Types.secondary := "#4ECDC4";
                        Types.accent := "#FFE66D" |} |}.

Definition defaultOptions : Ffmpeg.PipelineOptions (num := Q) :=
  {| Ffmpeg.o_removeNoise := None; Ffmpeg.o_normalizeAudio := None;
     Ffmpeg.o_colorGrade := None; Ffmpeg.o_videoWidth := None;
     Ffmpeg.o_videoHeight := None |}.

Definition quietOptions : Ffmpeg.PipelineOptions (num := Q) :=
  {| Ffmpeg.o_removeNoise := Some true; Ffmpeg.o_normalizeAudio := Some false;
     Ffmpeg.o_colorGrade := Some true; Ffmpeg.o_videoWidth := None;
     Ffmpeg.o_videoHeight := None |}.

Definition bracketCaption : Ffmpeg.Caption (num := Q) :=
  {| Ffmpeg.text := "it's [1]: go"; Ffmpeg.start_time := 1%Q; Ffmpeg.end_time := 2.5%Q;
     Ffmpeg.is_highlighted := false; Ffmpeg.captionStyle := None |}.

End Samples.

(** ** Plain objects used as tables

    [jobStatuses], [processingJobs], [videos] and the step tables are plain
    objects: a lookup under a name that every object inherits from
    [Object.prototype] finds the inherited member, and an assignment to
    [__proto__] replaces the prototype.  The finite maps that model these
    tables describe them for every other key. *)

Module JsObject.

Definition objectPrototypeNames : list string :=
  ["constructor"; "__proto__"; "hasOwnProperty"; "isPrototypeOf";
   "propertyIsEnumerable"; "toLocaleString"; "toString"; "valueOf";
   "__defineGetter__"; "__defineSetter__"; "__lookupGetter__"; "__lookupSetter__"].

(** A key that names no inherited member. *)
Definition ordinaryKey (k : string) : bool := negb (Js.includes objectPrototypeNames k).

End JsObject.

(** ** Compositions of the queue operations

    Small programs over the operations of [Queue], used to state how the
    operations work together. *)

Module QueueUse.
Import Queue.

(** [for (const [job, now] of arrivals) await enqueuePriority(queueName, job)],
    the enqueue of an arrival happening at time [now]. *)
Definition enqueueAllPriority (queueName : QueueName) (arrivals : list (QueueJob * Z))
    : M unit :=
  Eff.forEach arrivals (fun a => enqueuePriority queueName (fst a) (snd a)).

(** The number of jobs in all lanes: the sum of the five counts of
    [getQueueStats]. *)
Definition totalJobs (st : Store) : nat :=
  let s := fst (getQueueStats st) in
  (st_upload s + st_process s + st_render s + st_completed s + st_failed s)%nat.

End QueueUse.

(** ** The rest of the analyzer ([src/lib/ai-analyzer.ts]) *)

Module AnalyzerMore.
Import Analyzer.

Record VolumePeak : Type := {
  vp_timestamp : Q;
  vp_volume : Q;
}.

(** [s.includes(c)] for a one-character needle. *)
Fixpoint includesChar (c : ascii) (s : string) : bool :=
  match s with
  | EmptyString => false
  | String d s' => Ascii.eqb d c || includesChar c s'
  end.

Section WithUpperCase.

(** [String.prototype.toUpperCase], like [toLowerCase], is a parameter. *)
Variable toUpperCase : string -> string.

Definition hasEmphasis (w : TranscriptionWord) : bool :=
  String.eqb (word w) (toUpperCase (word w))
  || includesChar "!" (word w)
  || includesChar "?" (word w).

(** [for (const word of words)] of [detectVolumePeaks]; [random k] is what
    the call number [k] of [Math.random()] returns, and [k] counts the calls
    made so far. *)
Fixpoint peaksFrom (ws : list TranscriptionWord) (random : nat -> Q) (k : nat)
    : list VolumePeak :=
  match ws with
  | [] => []
  | w :: rest =>
      if hasEmphasis w then
        {| vp_timestamp := start w;
           vp_volume := Js.fadd (Js.double 0.8) (Js.fmul (random k) (Js.double 0.2)) |}
        :: peaksFrom rest random (S k)
      else peaksFrom rest random k
  end.

Definition detectVolumePeaks (transcription : Transcription) (random : nat -> Q)
    : list VolumePeak :=
  peaksFrom (words transcription) random 0.

End WithUpperCase.

(** The times of a list of words, and of a list of captions, in the order
    in which they are listed: start, end, start, end, and so on. *)
Definition wordTimes (ws : list TranscriptionWord) : list Q :=
  flat_map (fun w => [start w; end_ w]) ws.

Definition captionTimes (cs : list CaptionOut) : list Q :=
  flat_map (fun c => [start_time c; end_time c]) cs.

(** A list of times that never goes back. *)
Definition ascending (ts : list Q) : Prop := StronglySorted Qle ts.

End AnalyzerMore.

(** ** Measures on texts *)

Module TextUse.

(** How many characters of [s] satisfy [p]. *)
Fixpoint countChars (p : ascii -> bool) (s : string) : nat :=
  match s with
  | EmptyString => O
  | String c s' => ((if p c then 1 else 0) + countChars p s')%nat
  end.

(** No character of [s] is a dot. *)
Definition dotless (s : string) : bool :=
  Js.allChars (fun c => negb (Ascii.eqb c ".")) s.

End TextUse.

(** ** What a finished run of the mock pipeline leaves behind *)

Module ProcessorUse.
Import Processor.

(** The video record after [updateVideoStatus(videoId, 'completed', ...)]. *)
Definition completedVideo (iso : string) : Video :=
  {| v_status := Types.completed;
     v_processed_url := Some processed_url_sample;
     v_thumbnail_url := Some thumbnail_url_sample;
     v_duration := Some mockDuration;
     v_ai_analysis := Some MockAnalysis;
     v_updated_at := iso |}.

(** The job [processVideo] puts on the COMPLETED lane. *)
Definition completedJob (jobId videoId : string) (totalTime now : Z) : Queue.QueueJob :=
  {| Queue.id := jobId;
     Queue.type := Queue.process;
     Queue.videoId := videoId;
     Queue.priority := 0;
     Queue.data := <["status" := Queue.JStr "completed"]>
                     (<["totalTime" := Queue.JNum totalTime]> ∅);
     Queue.createdAt := now |}.

End ProcessorUse.

(** ** The upload form ([src/components/custom/upload-zone.tsx]) *)

Module Client.

(** *** [JSON.stringify] of an object whose properties are strings

    [QuoteJSONString] of ECMA-262: the quote and the backslash get a
    backslash, the control characters their short escape or
    [\u00XX] with lowercase digits, every other character stands for
    itself.  [quoteInto s tail] is the quoted body of [s] followed by
    [tail].  Strings are texts in UTF-8; a well-formed text has no lone
    surrogate, the only other thing [QuoteJSONString] escapes. *)
Definition hexDigit (n : nat) : ascii :=
  nth n ["0"; "1"; "2"; "3"; "4"; "5"; "6"; "7"; "8"; "9";
         "a"; "b"; "c"; "d"; "e"; "f"]%char "0"%char.

Definition quoteChar (c : ascii) (tail : string) : string :=
  if Ascii.eqb c (ascii_of_nat 34) then String "\" (String c tail)
  else if Ascii.eqb c "\" then String "\" (String c tail)
  else if (Js.code c =? 8)%nat then String "\" (String "b" tail)
  else if (Js.code c =? 12)%nat then String "\" (String "f" tail)
  else if (Js.code c =? 10)%nat then String "\" (String "n" tail)
  else if (Js.code c =? 13)%nat then String "\" (String "r" tail)
  else if (Js.code c =? 9)%nat then String "\" (String "t" tail)
  else if (Js.code c <? 32)%nat then
    String "\" (String "u" (String "0" (String "0"
      (String (hexDigit (Js.code c / 16)) (String (hexDigit (Js.code c mod 16)) tail)))))
  else String c tail.

Fixpoint quoteInto (s : string) (tail : string) : string :=
  match s with
  | EmptyString => tail
  | String c s' => quoteChar c (quoteInto s' tail)
  end.

(** [ "s" ] with [tail] after the closing quote. *)
Definition literalInto (s : string) (tail : string) : string :=
  String (ascii_of_nat 34) (quoteInto s (String (ascii_of_nat 34) tail)).

(** The members of an object, in property order, separated by commas. *)
Fixpoint membersInto (kvs : list (string * string)) (tail : string) : string :=
  match kvs with
  | [] => tail
  | [(k, v)] => literalInto k (String ":" (literalInto v tail))
  | (k, v) :: rest =>
      literalInto k (String ":" (literalInto v (String "," (membersInto rest tail))))
  end.

(** [JSON.stringify(o)] for an object [o] with the given own properties,
    all of them strings, and no indentation. *)
Definition JSON_stringify (properties : list (string * string)) : string :=
  String "{" (membersInto properties (String "}" EmptyString)).

(** A property whose value is a string, as a property of a parsed object. *)
Definition parsedMember (kv : string * string) : string * Js.Json :=
  (fst kv, Js.JsonString (snd kv)).

(** *** [uploadVideo] *)

(** The literal types [VideoStyle] and [VideoPace] as the strings they are. *)
Definition styleName (s : Types.VideoStyle) : string :=
  match s with
  | Types.modern => "modern"
  | Types.minimal => "minimal"
  | Types.energetic => "energetic"
  end.

Definition paceName (p : Types.VideoPace) : string :=
  match p with
  | Types.fast => "fast"
  | Types.medium => "medium"
  | Types.intense => "intense"
  end.

(** The own properties of [styleConfig.colors], in the order in which the
    object literal of [page.tsx] lists them. *)
Definition colorProperties (c : Types.Colors) : list (string * string) :=
  [("primary", Types.primary c); ("secondary", Types.secondary c);
   ("accent", Types.accent c)].

(** The [FormData] that [uploadVideo] builds. *)
Definition formDataOf (file : Api.File) (styleConfig : Types.StyleConfig) : Api.FormData :=
  {| Api.video := Some file;
     Api.style := Some (styleName (Types.style styleConfig));
     Api.pace := Some (paceName (Types.pace styleConfig));
     Api.colors := Some (JSON_stringify (colorProperties (Types.colors styleConfig))) |}.

(** How an upload attempt ends for the user: one of the two toasts; a
    success also hands the video to [onVideoUploaded]. *)
Inductive Outcome : Type :=
  | ToastError (message : string)
  | ToastSuccess (message : string) (video : Api.Video).

(** [uploadVideo], with the [fetch] reaching the upload handler: [env] is
    what the handler reads from the outside world. *)
Definition uploadVideo (file : Api.File) (styleConfig : Types.StyleConfig)
    (env : Api.UploadEnv) : Outcome :=
  let maxSize := 500 * 1024 * 1024 in
  if maxSize <? Api.size file then
    ToastError "Arquivo muito grande. Máximo: 500MB"
  else
    let validTypes := ["video/mp4"; "video/quicktime"; "video/x-msvideo"] in
    if negb (Js.includes validTypes (Api.type file)) then
      ToastError "Formato inválido. Use MP4 ou MOV"
    else
      match Api.POST (formDataOf file styleConfig) env with
      | Api.Status200 _ video _ => ToastSuccess "Vídeo enviado com sucesso!" video
      | Api.Status400 error | Api.Status500 error =>
          (* [throw new Error(error.error || 'Falha no upload')], caught below *)
          ToastError (Js.strOr (Some error) "Falha no upload")
      end.

End Client.

(** ** The progress display ([src/components/custom/processing-status.tsx]) *)

Module StatusUi.

(** The component's [status] state. *)
Record Status : Type := {
  progress : Z;
  currentStep : string;
  timeRemaining : option Z;
  error : option string;
}.

(** The [setStatus] of [checkStatus], from the JSON the status route sent:
    [data.progress || 0], [data.currentStep || 'processing'],
    [data.timeRemaining], [data.error]. *)
Definition statusFrom (data : Api.StatusResponse) : Status :=
  match data with
  | Api.MissingId e =>
      {| progress := 0; currentStep := "processing";
         timeRemaining := None; error := Some e |}
  | Api.Completed _ p step t _
  | Api.Processing _ p step t =>
      {| progress := if p =? 0 then 0 else p;
         currentStep := Js.strOr (Some step) "processing";
         timeRemaining := Some t; error := None |}
  end.

(** [stepMap[status.currentStep] ?? 0]; [None] when the lookup finds an
    inherited member, which is not a number. *)
Definition getCurrentStepIndex (currentStep : string) : option nat :=
  let stepMap : list (string * nat) :=
    [("uploading", 0); ("Validating video", 1); ("Extracting audio", 2);
     ("Analyzing with AI", 3); ("Generating visual effects", 4);
     ("Rendering video", 5); ("Generating thumbnail", 6); ("Finalizing", 7)]%nat in
  match find (fun kv => String.eqb (fst kv) currentStep) stepMap with
  | Some kv => Some (snd kv)
  | None => if JsObject.ordinaryKey currentStep then Some O else None
  end.

(** [formatTime] on a whole number of seconds that is not negative. *)
Definition formatTime (seconds : Z) : string :=
  if seconds <? 60 then Js.Z_to_string seconds +:+ "s"
  else
    let minutes := seconds / 60 in
    let remainingSeconds := seconds mod 60 in
    Js.Z_to_string minutes +:+ "m " +:+ Js.Z_to_string remainingSeconds +:+ "s".

(** [status.timeRemaining !== undefined && status.timeRemaining > 0]: the
    clock line is rendered. *)
Definition showsClock (st : Status) : bool :=
  match timeRemaining st with
  | Some t => 0 <? t
  | None => false
  end.

(** One row of the table of processing answers: for the progress [p], the
    step index, the label, the position the display gives the label and
    the time remaining. *)
Definition rowOk (p : Z) : bool :=
  let idx := Qfloor (Js.fmul (Js.fdiv (inject_Z p) 100)
                       (inject_Z (Z.of_nat (length Api.steps)))) in
  let step := nth (Z.to_nat (Z.min idx (Z.of_nat (length Api.steps) - 1))) Api.steps EmptyString in
  let t := Z.max 0 (Js.round (Js.fmul (inject_Z (100 - p)) (Js.double 1.2))) in
  (idx =? 7 * p / 100) && (idx <? 7)
  && negb (String.eqb step EmptyString)
  && match getCurrentStepIndex step with
     | Some n => Nat.eqb n (S (Z.to_nat idx))
     | None => false
     end
  && (t =? (12 * (100 - p) + 5) / 10) && (1 <=? t) && (t <=? 119).

End StatusUi.

(** ** More sample inputs *)

Module MoreSamples.
Import Samples.

(** Two arrivals for a priority lane: a routine job, then an urgent one. *)
Definition arrivals : list (Queue.QueueJob * Z) :=
  [(jobOf "routine" 1, 300); (jobOf "urgent" 5, 400)].

(** Upper case for the letters a to z. *)
Fixpoint upperAscii (s : string) : string :=
  match s with
  | EmptyString => EmptyString
  | String c s' =>
      String (if (97 <=? nat_of_ascii c)%nat && (nat_of_ascii c <=? 122)%nat
              then ascii_of_nat (nat_of_ascii c - 32) else c)
             (upperAscii s')
  end.

(** Three words, the first shouted and the last a question. *)
Definition shouted : Analyzer.Transcription :=
  {| Analyzer.text := "WOW that works?";
     Analyzer.words :=
       [ {| Analyzer.word := "WOW"; Analyzer.start := 0; Analyzer.end_ := 0.5;
            Analyzer.confidence := 0.9 |};
         {| Analyzer.word := "that"; Analyzer.start := 1; Analyzer.end_ := 1.5;
            Analyzer.confidence := 0.9 |};
         {| Analyzer.word := "works?"; Analyzer.start := 2; Analyzer.end_ := 2.5;
            Analyzer.confidence := 0.9 |} ];
     Analyzer.language := "en";
     Analyzer.duration := 3 |}.

(** Two words whose times are the doubles written 0.1 and 1.1, and two
    whose times are the doubles written 0.02 and 2.02. *)
Definition spoken (w : string) (s e : Q) : Analyzer.TranscriptionWord :=
  {| Analyzer.word := w; Analyzer.start := Js.double s; Analyzer.end_ := Js.double e;
     Analyzer.confidence := 1 |}.

Definition tenths : Analyzer.Transcription :=
  {| Analyzer.text := "one two";
     Analyzer.words := [spoken "one" 0 0.1; spoken "two" 1.1 1.5];
     Analyzer.language := "en";
     Analyzer.duration := 2 |}.

Definition hundredths : Analyzer.Transcription :=
  {| Analyzer.text := "one two";
     Analyzer.words := [spoken "one" 0 0.02; spoken "two" 2.02 2.5];
     Analyzer.language := "en";
     Analyzer.duration := 3 |}.

(** The first entry of a table of steps. *)
Definition hd_step (ss : list Processor.Step) : Processor.Step :=
  hd {| Processor.s_progress := 0; Processor.s_step := EmptyString;
        Processor.s_delay := 0 |} ss.

(** Draws that are all one half. *)
Definition halves : nat -> Q := fun _ => 0.5%Q.

(** The processor module right after loading, and the clock readings of a
    run that takes eight seconds. *)
Definition freshProcessor : Processor.State :=
  {| Processor.processingJobs := ∅; Processor.videos := ∅;
     Processor.queue := Queue.initial |}.

Definition runEnv : Processor.Env :=
  {| Processor.startTime := 1700000000000;
     Processor.jobNow := 1700000000001;
     Processor.jobRandom := "0.4fzyo82mvyr";
     Processor.endNow := 1700000008000;
     Processor.isoNow := "2023-11-14T22:13:28.000Z";
     Processor.enqueueNow := 1700000008001 |}.

End MoreSamples.

(* ===================================================================== *)
(** * Part II: theorems                                                   *)
(* ===================================================================== *)

(** ** Rounding to the nearest double *)

Module DoubleFacts.
Import Js.

#[local] Open Scope Q_scope.

(** *** Rounding to an integer *)

Lemma rne_bounds (x : Q) : (Qfloor x <= rne x <= Qfloor x + 1)%Z.
Proof.
  unfold rne. cbv zeta. destruct (x - inject_Z (Qfloor x) ?= 1 # 2); [|lia|lia].
  destruct (Z.even (Qfloor x)); lia.
Qed.

Lemma rne_Z (z : Z) : rne (inject_Z z) = z.
Proof.
  unfold rne. cbv zeta. rewrite Qfloor_Z.
  destruct (Qcompare_spec (inject_Z z - inject_Z z) (1 # 2)) as [H|H|H].
  - exfalso. assert (inject_Z z - inject_Z z == 0) by ring. rewrite H0 in H. discriminate H.
  - reflexivity.
  - exfalso. assert (E : inject_Z z - inject_Z z == 0) by ring. rewrite E in H.
    discriminate H.
Qed.

Lemma rne_ext (x y : Q) : x == y -> rne x = rne y.
Proof.
  intros E. unfold rne. cbv zeta.
  assert (Ef : Qfloor x = Qfloor y) by (rewrite E; reflexivity).
  rewrite Ef.
  destruct (Qcompare_spec (x - inject_Z (Qfloor y)) (1 # 2)) as [Hx|Hx|Hx];
    destruct (Qcompare_spec (y - inject_Z (Qfloor y)) (1 # 2)) as [Hy|Hy|Hy];
    try reflexivity; exfalso; lra.
Qed.

Lemma rne_monotone (x y : Q) : x <= y -> (rne x <= rne y)%Z.
Proof.
  intros Hxy. pose proof (Qfloor_resp_le x y Hxy) as Hf.
  pose proof (rne_bounds x) as Bx. pose proof (rne_bounds y) as By.
  destruct (Z.eq_dec (Qfloor x) (Qfloor y)) as [E|NE]; [|lia].
  unfold rne in *. cbv zeta in *. rewrite <- E in *.
  destruct (Qcompare_spec (x - inject_Z (Qfloor x)) (1 # 2)) as [Hx|Hx|Hx];
    destruct (Qcompare_spec (y - inject_Z (Qfloor x)) (1 # 2)) as [Hy|Hy|Hy];
    try lia; try (destruct (Z.even (Qfloor x)); lia); exfalso; lra.
Qed.

Lemma rne_le_Z (x : Q) (k : Z) : x <= inject_Z k -> (rne x <= k)%Z.
Proof. intros H. rewrite <- (rne_Z k). apply rne_monotone, H. Qed.

Lemma rne_ge_Z (x : Q) (k : Z) : inject_Z k <= x -> (k <= rne x)%Z.
Proof. intros H. rewrite <- (rne_Z k). apply rne_monotone, H. Qed.

(** *** Powers of two *)

Lemma pow2_pos (e : Z) : 0 < 2 ^ e.
Proof. apply Qpower_0_lt. reflexivity. Qed.

Lemma pow2_le (a b : Z) : (a <= b)%Z -> 2 ^ a <= 2 ^ b.
Proof. intros H. apply Qpower_le_compat_l; [exact H|discriminate]. Qed.

Lemma pow2_lt (a b : Z) : (a < b)%Z -> 2 ^ a < 2 ^ b.
Proof. intros H. apply Qpower_lt_compat_l; [exact H|reflexivity]. Qed.

Lemma pow2_plus (a b : Z) : 2 ^ (a + b) == 2 ^ a * 2 ^ b.
Proof. apply Qpower_plus. discriminate. Qed.

Lemma pow2_Z (a : Z) : (0 <= a)%Z -> inject_Z (2 ^ a) == 2 ^ a.
Proof. intros H. rewrite Zpower_Qpower by exact H. reflexivity. Qed.

(** *** The binary logarithm *)

Lemma ilog2_spec (x : Q) : 0 < x -> 2 ^ ilog2 x <= x /\ x < 2 ^ (ilog2 x + 1).
Proof.
  intros Hx. destruct x as [n d].
  assert (Hn : (0 < n)%Z).
  { unfold Qlt in Hx. cbn in Hx. lia. }
  unfold ilog2. cbn [Qnum Qden].
  set (a := Z.log2 n). set (b := Z.log2 (Zpos d)).
  assert (Ha : (0 <= a)%Z) by apply Z.log2_nonneg.
  assert (Hb : (0 <= b)%Z) by apply Z.log2_nonneg.
  destruct (Z.log2_spec n Hn) as [Ha1 Ha2]. fold a in Ha1, Ha2.
  destruct (Z.log2_spec (Zpos d) ltac:(lia)) as [Hb1 Hb2]. fold b in Hb1, Hb2.
  assert (Hqa1 : 2 ^ a <= inject_Z n).
  { rewrite <- pow2_Z by exact Ha. rewrite <- Zle_Qle. exact Ha1. }
  assert (Hqa2 : inject_Z n < 2 ^ (a + 1)).
  { rewrite <- pow2_Z by lia. rewrite <- Zlt_Qlt. replace (a + 1)%Z with (Z.succ a) by lia.
    exact Ha2. }
  assert (Hqb1 : 2 ^ b <= inject_Z (Zpos d)).
  { rewrite <- pow2_Z by exact Hb. rewrite <- Zle_Qle. exact Hb1. }
  assert (Hqb2 : inject_Z (Zpos d) < 2 ^ (b + 1)).
  { rewrite <- pow2_Z by lia. rewrite <- Zlt_Qlt. replace (b + 1)%Z with (Z.succ b) by lia.
    exact Hb2. }
  assert (Hd : 0 < inject_Z (Zpos d)) by reflexivity.
  assert (Ex : n # d == inject_Z n / inject_Z (Zpos d)) by apply Qmake_Qdiv.
  set (l := (a - b)%Z).
  assert (Hupper : n # d < 2 ^ (l + 1)).
  { rewrite Ex. apply Qlt_shift_div_r; [exact Hd|].
    eapply Qlt_le_trans; [exact Hqa2|].
    replace (a + 1)%Z with ((l + 1) + b)%Z by (unfold l; lia).
    rewrite (pow2_plus (l + 1) b). apply Qmult_le_l; [apply pow2_pos|exact Hqb1]. }
  assert (Hlower : 2 ^ (l - 1) < n # d).
  { rewrite Ex. apply Qlt_shift_div_l; [exact Hd|].
    eapply Qlt_le_trans; [|exact Hqa1].
    replace (2 ^ a) with (2 ^ ((l - 1) + (b + 1))) by (f_equal; unfold l; lia).
    rewrite (pow2_plus (l - 1) (b + 1)). apply Qmult_lt_l; [apply pow2_pos|exact Hqb2]. }
  destruct (Qle_bool (2 ^ l) (n # d)) eqn:Hle.
  - apply Qle_bool_iff in Hle. split; [exact Hle|exact Hupper].
  - assert (Hlt : n # d < 2 ^ l).
    { apply Qnot_le_lt. intros H. apply Qle_bool_iff in H. congruence. }
    split; [apply Qlt_le_weak, Hlower|].
    replace (l - 1 + 1)%Z with l by lia. exact Hlt.
Qed.

Lemma ilog2_monotone (x y : Q) : 0 < x -> x <= y -> (ilog2 x <= ilog2 y)%Z.
Proof.
  intros Hx Hxy.
  destruct (ilog2_spec x Hx) as [Hx1 _].
  destruct (ilog2_spec y ltac:(lra)) as [_ Hy2].
  assert (H : 2 ^ ilog2 x < 2 ^ (ilog2 y + 1)) by lra.
  apply Qpower_lt_compat_l_inv in H; [lia|reflexivity].
Qed.

(** *** Rounding to binary64 *)

Lemma flPos_value (x : Q) :
  flPos x == inject_Z (rne (x / 2 ^ exponent x)) * 2 ^ exponent x.
Proof. unfold flPos. cbv zeta. apply Qred_correct. Qed.

Lemma scaled_upper (x : Q) : 0 < x -> x / 2 ^ exponent x <= inject_Z (2 ^ 53).
Proof.
  intros Hx. destruct (ilog2_spec x Hx) as [_ Hup].
  apply Qle_shift_div_r; [apply pow2_pos|].
  rewrite pow2_Z by lia. rewrite <- (pow2_plus 53 (exponent x)).
  apply Qlt_le_weak. eapply Qlt_le_trans; [exact Hup|].
  apply pow2_le. unfold exponent. lia.
Qed.

Lemma scaled_lower (x : Q) :
  0 < x -> (-1074 < exponent x)%Z -> inject_Z (2 ^ 52) <= x / 2 ^ exponent x.
Proof.
  intros Hx He. destruct (ilog2_spec x Hx) as [Hlo _].
  apply Qle_shift_div_l; [apply pow2_pos|].
  rewrite pow2_Z by lia. rewrite <- (pow2_plus 52 (exponent x)).
  eapply Qle_trans; [|exact Hlo].
  apply pow2_le. unfold exponent in *. lia.
Qed.

Lemma exponent_monotone (x y : Q) : 0 < x -> x <= y -> (exponent x <= exponent y)%Z.
Proof.
  intros Hx Hxy. pose proof (ilog2_monotone x y Hx Hxy). unfold exponent. lia.
Qed.

Lemma flPos_nonneg (x : Q) : 0 < x -> 0 <= flPos x.
Proof.
  intros Hx. rewrite flPos_value. apply Qmult_le_0_compat; [|apply Qlt_le_weak, pow2_pos].
  change 0 with (inject_Z 0). rewrite <- Zle_Qle. apply rne_ge_Z.
  change (inject_Z 0) with 0. apply Qle_shift_div_l; [apply pow2_pos|]. lra.
Qed.

Lemma flPos_monotone (x y : Q) : 0 < x -> x <= y -> flPos x <= flPos y.
Proof.
  intros Hx Hxy. assert (Hy : 0 < y) by lra.
  rewrite !flPos_value.
  pose proof (exponent_monotone x y Hx Hxy) as He.
  destruct (Z.eq_dec (exponent x) (exponent y)) as [E|NE].
  - rewrite E. apply Qmult_le_compat_r; [|apply Qlt_le_weak, pow2_pos].
    rewrite <- Zle_Qle. apply rne_monotone.
    apply Qmult_le_compat_r; [exact Hxy|].
    apply Qlt_le_weak, Qinv_lt_0_compat, pow2_pos.
  - assert (Hlt : (exponent x + 1 <= exponent y)%Z) by lia.
    assert (Hmx : (rne (x / 2 ^ exponent x) <= 2 ^ 53)%Z).
    { apply rne_le_Z, scaled_upper, Hx. }
    assert (Hmy : (2 ^ 52 <= rne (y / 2 ^ exponent y))%Z).
    { apply rne_ge_Z, scaled_lower; [exact Hy|]. unfold exponent in *. lia. }
    apply Qle_trans with (inject_Z (2 ^ 53) * 2 ^ exponent x).
    { apply Qmult_le_compat_r; [|apply Qlt_le_weak, pow2_pos].
      rewrite <- Zle_Qle. exact Hmx. }
    apply Qle_trans with (inject_Z (2 ^ 52) * 2 ^ exponent y).
    2:{ apply Qmult_le_compat_r; [|apply Qlt_le_weak, pow2_pos].
        rewrite <- Zle_Qle. exact Hmy. }
    rewrite !pow2_Z by lia.
    rewrite <- (pow2_plus 53 (exponent x)), <- (pow2_plus 52 (exponent y)).
    apply pow2_le. lia.
Qed.

Lemma fl_zero (x : Q) : x == 0 -> fl x = 0.
Proof.
  intros E. unfold fl. destruct (Qcompare_spec 0 x) as [H|H|H]; [reflexivity|lra|lra].
Qed.

Lemma fl_pos (x : Q) : 0 < x -> fl x = flPos x.
Proof.
  intros Hx. unfold fl. destruct (Qcompare_spec 0 x) as [H|H|H]; [lra|reflexivity|lra].
Qed.

Lemma fl_neg (x : Q) : x < 0 -> fl x = - flPos (- x).
Proof.
  intros Hx. unfold fl. destruct (Qcompare_spec 0 x) as [H|H|H]; [lra|lra|reflexivity].
Qed.

(** Rounding keeps the sign. *)
Lemma fl_nonneg (x : Q) : 0 <= x -> 0 <= fl x.
Proof.
  intros Hx. destruct (Qlt_le_dec 0 x) as [Hpos|Hle].
  - rewrite fl_pos by exact Hpos. apply flPos_nonneg, Hpos.
  - rewrite fl_zero by lra. lra.
Qed.

Lemma fl_nonpos (x : Q) : x <= 0 -> fl x <= 0.
Proof.
  intros Hx. destruct (Qlt_le_dec x 0) as [Hneg|Hge].
  - rewrite fl_neg by exact Hneg.
    pose proof (flPos_nonneg (- x) ltac:(lra)). lra.
  - rewrite fl_zero by lra. lra.
Qed.

(** Rounding keeps the order. *)
Theorem fl_monotone (x y : Q) : x <= y -> fl x <= fl y.
Proof.
  intros Hxy.
  destruct (Qlt_le_dec 0 x) as [Hx|Hx].
  - rewrite (fl_pos x Hx), (fl_pos y) by lra. apply flPos_monotone; assumption.
  - destruct (Qlt_le_dec 0 y) as [Hy|Hy].
    + apply Qle_trans with 0; [apply fl_nonpos, Hx|apply fl_nonneg; lra].
    + destruct (Qlt_le_dec y 0) as [Hy'|Hy'].
      * rewrite (fl_neg x), (fl_neg y) by lra.
        pose proof (flPos_monotone (- y) (- x) ltac:(lra) ltac:(lra)). lra.
      * rewrite (fl_zero y) by lra. apply fl_nonpos, Hx.
Qed.

Lemma fl_le_double (x c : Q) : isDouble c -> x <= c -> fl x <= c.
Proof.
  intros Hc Hx. unfold isDouble in Hc.
  apply Qle_trans with (fl c); [apply fl_monotone, Hx|rewrite Hc; apply Qle_refl].
Qed.

Lemma fl_ge_double (x c : Q) : isDouble c -> c <= x -> c <= fl x.
Proof.
  intros Hc Hx. unfold isDouble in Hc.
  apply Qle_trans with (fl c); [rewrite Hc; apply Qle_refl|apply fl_monotone, Hx].
Qed.

(** A rounded result above a double comes from an exact result above it. *)
Lemma fl_gt_double (x c : Q) : isDouble c -> c < fl x -> c < x.
Proof.
  intros Hc Hgt. apply Qnot_le_lt. intros Hle.
  pose proof (fl_le_double x c Hc Hle). lra.
Qed.

Lemma fl_lt_double (x c : Q) : isDouble c -> fl x < c -> x < c.
Proof.
  intros Hc Hlt. apply Qnot_le_lt. intros Hle.
  pose proof (fl_ge_double x c Hc Hle). lra.
Qed.

Ltac double_constant := unfold isDouble; vm_compute; reflexivity.

Lemma isDouble_0 : isDouble 0. Proof. double_constant. Qed.
Lemma isDouble_1 : isDouble 1. Proof. double_constant. Qed.
Lemma isDouble_2 : isDouble 2. Proof. double_constant. Qed.

Lemma ilog2_pow2 (k : Z) : ilog2 (2 ^ k) = k.
Proof.
  destruct (ilog2_spec (2 ^ k) (pow2_pos k)) as [Hlo Hhi].
  apply Qpower_le_compat_l_inv in Hlo; [|reflexivity].
  apply Qpower_lt_compat_l_inv in Hhi; [|reflexivity]. lia.
Qed.

(** The powers of two from the smallest subnormal number on are doubles. *)
Lemma isDouble_pow2 (k : Z) : (-1074 <= k)%Z -> isDouble (2 ^ k).
Proof.
  intros Hk. unfold isDouble. rewrite (fl_pos _ (pow2_pos k)), flPos_value.
  unfold exponent. rewrite ilog2_pow2.
  set (e := Z.max (k - 52) (-1074)).
  assert (He : (0 <= k - e)%Z) by (unfold e; lia).
  assert (E : 2 ^ k / 2 ^ e == inject_Z (2 ^ (k - e))).
  { rewrite pow2_Z by exact He.
    replace k with (k - e + e)%Z at 1 by lia. rewrite (pow2_plus (k - e) e).
    apply Qdiv_mult_l. intros H. pose proof (pow2_pos e). lra. }
  assert (Em : rne (2 ^ k / 2 ^ e) = (2 ^ (k - e))%Z).
  { rewrite <- (rne_Z (2 ^ (k - e))). apply rne_ext, E. }
  rewrite Em, pow2_Z by exact He. rewrite <- (pow2_plus (k - e) e).
  replace (k - e + e)%Z with k by lia. reflexivity.
Qed.

(** Rounding at most doubles a positive number, and half the rounded
    number, rounded again, is still at most the number. *)
Lemma fl_half_le (x : Q) : 1 <= x -> fl (fl x / 2) <= x.
Proof.
  intros Hx. assert (Hpos : 0 < x) by lra.
  destruct (ilog2_spec x Hpos) as [Hlo Hhi].
  set (l := ilog2 x) in *.
  assert (Hl : (0 <= l)%Z).
  { assert (H : 2 ^ 0 < 2 ^ (l + 1)) by (change (2 ^ 0) with 1; lra).
    apply (Qpower_lt_compat_l_inv 2 0 (l + 1)) in H; [lia|reflexivity]. }
  assert (Hfl : fl x <= 2 ^ (l + 1)).
  { apply fl_le_double; [apply isDouble_pow2; lia|lra]. }
  apply Qle_trans with (2 ^ l); [|exact Hlo].
  apply fl_le_double; [apply isDouble_pow2; lia|].
  rewrite (pow2_plus l 1) in Hfl. change (2 ^ 1) with 2 in Hfl.
  unfold Qdiv. change (/ 2) with (1 # 2). lra.
Qed.

(** Between a half and 1 the doubles are [2 ^ -53] apart: a double below 1
    is at most the one before 1. *)
Lemma double_below_1 (x : Q) : isDouble x -> x < 1 -> x <= 1 - 2 ^ (-53).
Proof.
  intros Hd Hlt.
  destruct (Qlt_le_dec (1 # 2) x) as [Hhalf|Hsmall].
  2:{ assert (E : 1 - 2 ^ (-53) == 9007199254740991 # 9007199254740992)
        by (vm_compute; reflexivity).
      rewrite E. eapply Qle_trans; [exact Hsmall|]. vm_compute. discriminate. }
  assert (Hx : 0 < x) by lra.
  unfold isDouble in Hd. rewrite (fl_pos x Hx), flPos_value in Hd.
  assert (Hl : ilog2 x = (-1)%Z).
  { destruct (ilog2_spec x Hx) as [Hlo Hhi].
    assert (H1 : 2 ^ ilog2 x < 2 ^ 0) by (change (2 ^ 0) with 1; lra).
    assert (H2 : 2 ^ (-1) < 2 ^ (ilog2 x + 1)) by (change (2 ^ (-1)) with (1 # 2); lra).
    apply (Qpower_lt_compat_l_inv 2 (ilog2 x) 0) in H1; [|reflexivity].
    apply (Qpower_lt_compat_l_inv 2 (-1) (ilog2 x + 1)) in H2; [|reflexivity]. lia. }
  unfold exponent in Hd. rewrite Hl in Hd. change (Z.max (-1 - 52) (-1074)) with (-53)%Z in Hd.
  set (m := rne (x / 2 ^ (-53))) in *.
  assert (E1 : 1 == inject_Z (2 ^ 53) * 2 ^ (-53)) by (vm_compute; reflexivity).
  assert (Hm : (m < 2 ^ 53)%Z).
  { rewrite Zlt_Qlt. apply Qmult_lt_r with (2 ^ (-53)); [apply pow2_pos|].
    rewrite <- E1, Hd. exact Hlt. }
  assert (Hm' : inject_Z m <= inject_Z (2 ^ 53 - 1)) by (rewrite <- Zle_Qle; lia).
  assert (E2 : 1 - 2 ^ (-53) == inject_Z (2 ^ 53 - 1) * 2 ^ (-53)) by (vm_compute; reflexivity).
  rewrite E2, <- Hd. apply Qmult_le_compat_r; [exact Hm'|apply Qlt_le_weak, pow2_pos].
Qed.

(** A hundred times a double below 1 rounds to less than 100. *)
Lemma fl_times_100 (x : Q) : isDouble x -> 0 <= x -> x < 1 -> 0 <= fl (x * 100) < 100.
Proof.
  intros Hd Hlo Hhi. split; [apply fl_nonneg; lra|].
  pose proof (double_below_1 x Hd Hhi) as Hpred.
  assert (E : fl ((1 - 2 ^ (-53)) * 100) < 100) by (vm_compute; reflexivity).
  eapply Qle_lt_trans; [|exact E]. apply fl_monotone.
  apply Qmult_le_compat_r; [exact Hpred|discriminate].
Qed.

(** Between 2 and 4 the doubles are [2 ^ -51] apart: a rounded result above
    2 is at least the next double. *)
Lemma fl_above_2 (x : Q) : 2 < fl x -> 2 + 2 ^ (-51) <= fl x.
Proof.
  intros Hgt.
  assert (Hx : 0 < x).
  { apply Qnot_le_lt. intros Hle. pose proof (fl_nonpos x Hle). lra. }
  rewrite (fl_pos x Hx) in *. rewrite flPos_value in *.
  set (e := exponent x) in *. set (m := rne (x / 2 ^ e)) in *.
  assert (Hm : (m <= 2 ^ 53)%Z) by (apply rne_le_Z, scaled_upper, Hx).
  assert (Hm0 : (0 <= m)%Z).
  { apply rne_ge_Z. change (inject_Z 0) with 0.
    apply Qle_shift_div_l; [apply pow2_pos|]. lra. }
  destruct (Z_lt_le_dec e (-51)) as [Hsmall|Hbig].
  - exfalso.
    assert (H : inject_Z m * 2 ^ e <= inject_Z (2 ^ 53) * 2 ^ (-52)).
    { apply Qmult_le_compat_nonneg.
      - split; [change 0 with (inject_Z 0); rewrite <- Zle_Qle; exact Hm0|].
        rewrite <- Zle_Qle. exact Hm.
      - split; [apply Qlt_le_weak, pow2_pos|apply pow2_le; lia]. }
    assert (E : inject_Z (2 ^ 53) * 2 ^ (-52) == 2) by (vm_compute; reflexivity).
    lra.
  - assert (E : 2 ^ e == inject_Z (2 ^ (e + 51)) * 2 ^ (-51)).
    { rewrite pow2_Z by lia. rewrite <- (pow2_plus (e + 51) (-51)).
      replace (e + 51 + -51)%Z with e by lia. reflexivity. }
    rewrite E in *. rewrite Qmult_assoc in *. rewrite <- inject_Z_mult in *.
    set (k := (m * 2 ^ (e + 51))%Z) in *.
    assert (E2 : 2 == inject_Z (2 ^ 52) * 2 ^ (-51)) by (vm_compute; reflexivity).
    assert (Hk : (2 ^ 52 < k)%Z).
    { rewrite Zlt_Qlt. apply Qmult_lt_r with (2 ^ (-51)); [apply pow2_pos|].
      rewrite <- E2. exact Hgt. }
    assert (Hk' : inject_Z (2 ^ 52 + 1) <= inject_Z k) by (rewrite <- Zle_Qle; lia).
    assert (E3 : 2 + 2 ^ (-51) == inject_Z (2 ^ 52 + 1) * 2 ^ (-51)) by (vm_compute; reflexivity).
    rewrite E3. apply Qmult_le_compat_r; [exact Hk'|apply Qlt_le_weak, pow2_pos].
Qed.

End DoubleFacts.

(** ** Caption grouping and gap detection *)

Module AnalyzerFacts.
Import Analyzer.

(** The last element of a non-empty array, in its two spellings. *)
Lemma last_cons_default {A : Type} (x d : A) (l : list A) :
  last (x :: l) = Some (List.last (x :: l) d).
Proof.
  revert x. induction l as [|y l IH]; intros x; [reflexivity|].
  change (last (x :: y :: l)) with (last (y :: l)).
  change (List.last (x :: y :: l) d) with (List.last (y :: l) d).
  apply IH.
Qed.

(** What one loop body does with a non-empty slice. *)
Lemma captionOf_nonempty toLowerCase kws (c : list TranscriptionWord) :
  c <> [] ->
  exists cap w0 wl,
    captionOf toLowerCase kws c = Some cap /\
    head c = Some w0 /\ last c = Some wl /\
    cap_text cap = Js.join " " (map word c) /\
    start_time cap = start w0 /\ end_time cap = end_ wl.
Proof.
  destruct c as [|w0 rest]; [congruence|]. intros _.
  eexists _, w0, (List.last (w0 :: rest) w0). split; [reflexivity|].
  split; [reflexivity|]. split; [apply last_cons_default|].
  repeat split.
Qed.

(** The loop from index [i], given enough iterations, cuts [drop i ws]
    into chunks and emits one caption per chunk. *)
Lemma captionsFrom_chunks toLowerCase kws ws :
  forall fuel i, (length ws - i <= fuel)%nat ->
  exists chunks : list (list TranscriptionWord),
    concat chunks = drop i ws /\
    Forall (fun c => (1 <= length c <= wordsPerCaption)%nat) chunks /\
    (forall k c, chunks !! k = Some c -> (S k < length chunks)%nat ->
                 length c = wordsPerCaption) /\
    Forall2 captionFor chunks (captionsFrom toLowerCase kws ws fuel i).
Proof.
  induction fuel as [|fuel IH]; intros i Hfuel.
  - exists []. rewrite drop_ge by lia. repeat split; try constructor.
    intros k c Hk. rewrite lookup_nil in Hk. discriminate.
  - cbn [captionsFrom]. destruct (Nat.ltb_spec i (length ws)) as [Hlt|Hge].
    + set (c := Js.slice ws i (i + wordsPerCaption)).
      assert (Hc : c = take wordsPerCaption (drop i ws)).
      { unfold c, Js.slice. f_equal. lia. }
      assert (Hlen : length c = Nat.min wordsPerCaption (length ws - i)).
      { rewrite Hc, length_take, length_drop. reflexivity. }
      assert (Hne : c <> []).
      { intros E. rewrite E in Hlen. unfold wordsPerCaption in Hlen.
        change (length (@nil TranscriptionWord)) with 0%nat in Hlen. lia. }
      destruct (captionOf_nonempty toLowerCase kws c Hne)
        as (cap & w0 & wl & Hcap & Hhd & Hlast & Htxt & Hst & Hen).
      rewrite Hcap.
      destruct (IH (i + wordsPerCaption)%nat ltac:(unfold wordsPerCaption; lia))
        as (chunks & Hcat & Hall & Hfull & Hcaps).
      exists (c :: chunks). split; [|split; [|split]].
      * cbn [concat]. rewrite Hcat, Hc.
        transitivity (take wordsPerCaption (drop i ws)
                      ++ drop wordsPerCaption (drop i ws)); [|apply take_drop].
        f_equal. rewrite drop_drop. reflexivity.
      * constructor; [|exact Hall]. rewrite Hlen. unfold wordsPerCaption. lia.
      * intros k d Hk Hnotlast. destruct k as [|k].
        -- cbn in Hk. injection Hk as <-.
           destruct chunks as [|c' chunks']; [cbn in Hnotlast; lia|].
           assert (Hrest : (1 <= length (drop (i + wordsPerCaption) ws))%nat).
           { rewrite <- Hcat. cbn [concat]. rewrite length_app.
             inversion Hall as [|? ? Hc' _]; subst. lia. }
           rewrite length_drop in Hrest. rewrite Hlen. lia.
        -- cbn in Hk. apply (Hfull k d Hk). cbn in Hnotlast. lia.
      * constructor; [|exact Hcaps]. exists w0, wl. repeat split; assumption.
    + exists []. rewrite drop_ge by lia. repeat split; try constructor.
      intros k c Hk. rewrite lookup_nil in Hk. discriminate.
Qed.

(** C3. [generateCaptions] cuts the word list, in order, into consecutive
    chunks: the chunks concatenate to the word list, each holds between one
    and five words, every chunk but the last holds exactly five, and the
    k-th caption has the start time of the first word of the k-th chunk,
    the end time of its last word, and its words joined by single spaces. *)
Theorem generateCaptions_chunks_of_five toLowerCase (t : Transcription) (kws : list string) :
  exists chunks : list (list TranscriptionWord),
    concat chunks = words t /\
    Forall (fun c => (1 <= length c <= 5)%nat) chunks /\
    (forall k c, chunks !! k = Some c -> (S k < length chunks)%nat -> length c = 5%nat) /\
    Forall2
      (fun c cap =>
         exists w0 wl,
           head c = Some w0 /\ last c = Some wl /\
           cap_text cap = Js.join " " (map word c) /\
           start_time cap = start w0 /\ end_time cap = end_ wl)
      chunks (generateCaptions toLowerCase t kws).
Proof.
  unfold generateCaptions.
  destruct (captionsFrom_chunks toLowerCase kws (words t) (length (words t)) 0)
    as (chunks & Hcat & Hall & Hfull & Hcaps); [lia|].
  exists chunks. rewrite drop_0 in Hcat. repeat split; assumption.
Qed.

End AnalyzerFacts.

Module GapFacts.
Import Analyzer.

Lemma silencesFrom_gapsFrom ws n : forall i,
  silencesFrom ws n i = gapsFrom 1 silenceOf ws n i.
Proof.
  induction n as [|n IH]; intros i; [reflexivity|].
  cbn [silencesFrom gapsFrom]. rewrite IH. reflexivity.
Qed.

Lemma scenesFrom_gapsFrom ws n : forall i,
  scenesFrom ws n i = gapsFrom 2 sceneOf ws n i.
Proof.
  induction n as [|n IH]; intros i; [reflexivity|].
  cbn [scenesFrom gapsFrom]. rewrite IH. reflexivity.
Qed.

(** What the loop reports: exactly the records of the adjacent pairs whose
    gap is above the threshold. *)
Lemma In_gapsFrom {A : Type} (threshold : Q) (mk : _ -> _ -> A) ws (x : A) :
  forall n i, (1 <= i)%nat -> (i + n <= length ws)%nat ->
  In x (gapsFrom threshold mk ws n i) <->
  exists p w, adjacentIn ws i (i + n) p w /\
              (threshold < Js.fsub (start w) (end_ p))%Q /\ x = mk p w.
Proof.
  induction n as [|n IH]; intros i Hi Hn.
  - cbn. split; [tauto|]. intros (p & w & (j & Hj & _) & _). lia.
  - cbn [gapsFrom].
    destruct (lookup_lt_is_Some_2 ws (i - 1)) as [p Hp]; [lia|].
    destruct (lookup_lt_is_Some_2 ws i) as [w Hw]; [lia|].
    rewrite Hp, Hw.
    assert (Hsplit :
      (exists p' w', adjacentIn ws i (i + S n) p' w' /\
                     (threshold < Js.fsub (start w') (end_ p'))%Q /\ x = mk p' w') <->
      ((threshold < Js.fsub (start w) (end_ p))%Q /\ x = mk p w) \/
      In x (gapsFrom threshold mk ws n (S i))).
    { rewrite (IH (S i)) by lia. split.
      - intros (p' & w' & (j & Hj & Hp' & Hw') & Hgap & ->).
        destruct (decide (j = i)) as [->|Hne].
        + left. rewrite Hp in Hp'. rewrite Hw in Hw'.
          injection Hp' as <-. injection Hw' as <-. auto.
        + right. exists p', w'. split; [|auto]. exists j. split; [lia|auto].
      - intros [[Hgap ->]|(p' & w' & (j & Hj & Hp' & Hw') & Hgap & ->)].
        + exists p, w. split; [|auto]. exists i. split; [lia|auto].
        + exists p', w'. split; [|auto]. exists j. split; [lia|auto]. }
    rewrite Hsplit.
    destruct (Qlt_le_dec threshold (Js.fsub (start w) (end_ p))) as [Hgt|Hle].
    + cbn [In]. split.
      * intros [<-|Hin]; [left; auto|right; exact Hin].
      * intros [[_ ->]|Hin]; [left; reflexivity|right; exact Hin].
    + split; [intros Hin; right; exact Hin|].
      intros [[Hgt _]|Hin]; [|exact Hin].
      exfalso. apply (Qlt_not_le _ _ Hgt Hle).
Qed.

(** A silence record determines the gap it was made from. *)
Lemma silenceOf_gap p w p' w' :
  silenceOf p' w' = silenceOf p w ->
  Js.fsub (start w') (end_ p') = Js.fsub (start w) (end_ p).
Proof.
  intros E.
  change (sp_duration (silenceOf p' w') = sp_duration (silenceOf p w)).
  rewrite E. reflexivity.
Qed.

(** A scene record of a gap above two seconds cannot be the record of a
    gap of at most two seconds: the confidences differ, because a fifth of
    the next double after 2 rounds to more than a fifth of 2 does. *)
Lemma sceneOf_gap p w p' w' :
  sceneOf p' w' = sceneOf p w ->
  (2 < Js.fsub (start w') (end_ p'))%Q -> (2 < Js.fsub (start w) (end_ p))%Q.
Proof.
  intros E Hgap.
  assert (Econf : sc_confidence (sceneOf p' w') = sc_confidence (sceneOf p w))
    by (rewrite E; reflexivity).
  cbn [sceneOf sc_confidence] in Econf.
  set (g' := Js.fsub (start w') (end_ p')) in *.
  set (g := Js.fsub (start w) (end_ p)) in *.
  destruct (Qlt_le_dec 2 g) as [Hgt|Hle]; [exact Hgt|exfalso].
  assert (Hnext : (2 + 2 ^ (-51) <= g')%Q) by (apply DoubleFacts.fl_above_2, Hgap).
  assert (Hlow : (Js.fdiv g 5 <= Js.fl (2 / 5))%Q).
  { apply DoubleFacts.fl_monotone. unfold Qdiv. change (/ 5)%Q with (1 # 5)%Q. lra. }
  assert (Hhigh : (Js.fl ((2 + 2 ^ (-51)) / 5) <= Js.fdiv g' 5)%Q).
  { apply DoubleFacts.fl_monotone. unfold Qdiv. change (/ 5)%Q with (1 # 5)%Q.
    apply Qmult_le_compat_r; [exact Hnext|discriminate]. }
  assert (Hstep : (Js.fl (2 / 5) < Js.fl ((2 + 2 ^ (-51)) / 5))%Q) by (vm_compute; reflexivity).
  assert (Hone : (Js.fl (2 / 5) < 1)%Q) by (vm_compute; reflexivity).
  assert (Heq : (Qmin (Js.fdiv g' 5) 1 == Qmin (Js.fdiv g 5) 1)%Q)
    by (rewrite Econf; reflexivity).
  destruct (Q.min_spec (Js.fdiv g' 5) 1) as [[_ E1]|[_ E1]];
  destruct (Q.min_spec (Js.fdiv g 5) 1) as [[_ E2]|[H2 E2]];
  rewrite E1, E2 in Heq; lra.
Qed.

(** C4. For two consecutive words [p], [w] of a transcription, with [gap]
    the difference the code computes from the start of [w] and the end of
    [p]: [detectSilences] reports the silence between them exactly when
    [gap] is strictly above 1.0, and [detectScenes] reports the scene
    change exactly when [gap] is strictly above 2.0; a gap equal to the
    threshold is not reported.  The computed difference is the exact one
    rounded to a double; whatever the rounding, a reported pair has an
    exact difference strictly above the threshold, and a pair whose exact
    difference is the threshold or less is not reported. *)
Theorem gap_detection_thresholds (t : Transcription) (j : nat) (p w : TranscriptionWord) :
  words t !! j = Some p ->
  words t !! S j = Some w ->
  let gap := Js.fsub (start w) (end_ p) in
  (In (silenceOf p w) (detectSilences t) <-> (1 < gap)%Q) /\
  (In (sceneOf p w) (detectScenes t) <-> (2 < gap)%Q) /\
  ((gap == 1)%Q -> ~ In (silenceOf p w) (detectSilences t)) /\
  ((gap == 2)%Q -> ~ In (sceneOf p w) (detectScenes t)) /\
  (In (silenceOf p w) (detectSilences t) -> (1 < start w - end_ p)%Q) /\
  (In (sceneOf p w) (detectScenes t) -> (2 < start w - end_ p)%Q) /\
  ((start w - end_ p <= 1)%Q -> ~ In (silenceOf p w) (detectSilences t)) /\
  ((start w - end_ p <= 2)%Q -> ~ In (sceneOf p w) (detectScenes t)).
Proof.
  intros Hp Hw gap.
  assert (Hlen : (S j < length (words t))%nat) by (eapply lookup_lt_Some; eassumption).
  assert (Hadj : adjacentIn (words t) 1 (1 + (length (words t) - 1)) p w).
  { exists (S j). split; [lia|]. split; [|exact Hw].
    replace (S j - 1)%nat with j by lia. exact Hp. }
  assert (Hsil : In (silenceOf p w) (detectSilences t) <-> (1 < gap)%Q).
  { unfold detectSilences. rewrite silencesFrom_gapsFrom, In_gapsFrom by lia. split.
    - intros (p' & w' & _ & Hgap & E). unfold gap.
      rewrite <- (silenceOf_gap p w p' w') by (symmetry; exact E). exact Hgap.
    - intros Hgap. exists p, w. auto. }
  assert (Hsc : In (sceneOf p w) (detectScenes t) <-> (2 < gap)%Q).
  { unfold detectScenes. rewrite scenesFrom_gapsFrom, In_gapsFrom by lia. split.
    - intros (p' & w' & _ & Hgap & E).
      apply (sceneOf_gap p w p' w'); [symmetry; exact E|exact Hgap].
    - intros Hgap. exists p, w. auto. }
  assert (Hsil' : In (silenceOf p w) (detectSilences t) -> (1 < start w - end_ p)%Q).
  { intros Hin. apply Hsil in Hin. apply (DoubleFacts.fl_gt_double _ 1 DoubleFacts.isDouble_1 Hin). }
  assert (Hsc' : In (sceneOf p w) (detectScenes t) -> (2 < start w - end_ p)%Q).
  { intros Hin. apply Hsc in Hin. apply (DoubleFacts.fl_gt_double _ 2 DoubleFacts.isDouble_2 Hin). }
  split; [exact Hsil|]. split; [exact Hsc|].
  split; [|split; [|split; [|split; [|split]]]].
  - intros E Hin. apply Hsil in Hin. rewrite E in Hin. apply (Qlt_irrefl 1), Hin.
  - intros E Hin. apply Hsc in Hin. rewrite E in Hin. apply (Qlt_irrefl 2), Hin.
  - exact Hsil'.
  - exact Hsc'.
  - intros Hle Hin. apply Hsil' in Hin. lra.
  - intros Hle Hin. apply Hsc' in Hin. lra.
Qed.

(** The gap the code compares is the rounded difference.  Between the
    doubles written 0.1 and 1.1 the exact difference is above one second
    and the computed one is one second: no silence is reported.  Likewise
    between 0.02 and 2.02: a silence, and no scene change. *)
Example gaps_rounded_to_the_threshold :
  let one := MoreSamples.spoken "one" 0 0.1 in
  let two := MoreSamples.spoken "two" 1.1 1.5 in
  (1 < start two - end_ one)%Q /\
  (Js.fsub (start two) (end_ one) == 1)%Q /\
  detectSilences MoreSamples.tenths = [] /\
  detectScenes MoreSamples.tenths = [] /\
  let one' := MoreSamples.spoken "one" 0 0.02 in
  let two' := MoreSamples.spoken "two" 2.02 2.5 in
  (2 < start two' - end_ one')%Q /\
  (Js.fsub (start two') (end_ one') == 2)%Q /\
  detectSilences MoreSamples.hundredths = [silenceOf one' two'] /\
  detectScenes MoreSamples.hundredths = [].
Proof. repeat split; vm_compute; reflexivity. Qed.

End GapFacts.

(** ** The queue *)

Module QueueFacts.
Import Queue.

(** *** The store: lanes, references and the frame *)

Lemma wf_initial : wf initial.
Proof.
  split.
  - intros []; vm_compute; eauto.
  - intros [] []; vm_compute; congruence.
Qed.

Lemma lane_mutate_same st q v :
  lane (mutate st (inMemoryQueues st q) v) q = v.
Proof. unfold lane, deref, mutate. cbn. rewrite lookup_insert_eq. reflexivity. Qed.

Lemma lane_mutate_other st q q' v :
  wf st -> q' <> q ->
  lane (mutate st (inMemoryQueues st q) v) q' = lane st q'.
Proof.
  intros [_ Hinj] Hne. unfold lane, deref, mutate. cbn.
  rewrite lookup_insert_ne; [reflexivity|].
  intros E. apply Hne. symmetry. apply Hinj. exact E.
Qed.

Lemma wf_mutate st q v : wf st -> wf (mutate st (inMemoryQueues st q) v).
Proof.
  intros [Hlive Hinj]. split; [|exact Hinj].
  intros q'. unfold mutate. cbn.
  destruct (decide (inMemoryQueues st q = inMemoryQueues st q')) as [E|Hne].
  - rewrite E, lookup_insert_eq. eauto.
  - rewrite lookup_insert_ne by exact Hne. apply Hlive.
Qed.

(** A newly made array is no lane's array, and making it changes no lane. *)
Lemma alloc_fresh st v l st' :
  wf st -> alloc st v = (l, st') ->
  (forall q, inMemoryQueues st' q = inMemoryQueues st q) /\
  (forall q, l <> inMemoryQueues st q) /\
  deref st' l = v /\
  (forall q, lane st' q = lane st q) /\
  wf st'.
Proof.
  intros [Hlive Hinj] E. unfold alloc in E. injection E as <- <-.
  set (l := fresh (dom (heap st))).
  assert (Hfresh : heap st !! l = None).
  { apply not_elem_of_dom. apply is_fresh. }
  assert (Hne : forall q, l <> inMemoryQueues st q).
  { intros q E. destruct (Hlive q) as [x Hx]. rewrite <- E in Hx. congruence. }
  split; [reflexivity|]. split; [exact Hne|]. split; [|split].
  - unfold deref, withHeap. cbn. rewrite lookup_insert_eq. reflexivity.
  - intros q. unfold lane, deref, withHeap. cbn.
    rewrite lookup_insert_ne by apply Hne. reflexivity.
  - split; [|exact Hinj]. intros q. unfold withHeap. cbn.
    rewrite lookup_insert_ne by apply Hne. apply Hlive.
Qed.

(** *** [enqueue] and [dequeue] on lanes *)

Lemma enqueue_lane q job now st :
  wf st ->
  let st' := snd (enqueue q job now st) in
  lane st' q = lane st q ++ [withCreatedAt job now] /\
  (forall q', q' <> q -> lane st' q' = lane st q') /\
  wf st'.
Proof.
  intros Hwf. cbn. split; [apply lane_mutate_same|]. split.
  - intros q' Hne. apply lane_mutate_other; assumption.
  - apply wf_mutate, Hwf.
Qed.

Lemma dequeue_cons q job rest st :
  wf st -> lane st q = job :: rest ->
  exists st', dequeue q st = (Some job, st') /\
    lane st' q = rest /\
    (forall q', q' <> q -> lane st' q' = lane st q') /\
    wf st'.
Proof.
  intros Hwf Hl. unfold dequeue. unfold lane in Hl. rewrite Hl.
  eexists. split; [reflexivity|]. split; [apply lane_mutate_same|]. split.
  - intros q' Hne. apply lane_mutate_other; assumption.
  - apply wf_mutate, Hwf.
Qed.

Lemma dequeue_nil q st :
  lane st q = [] -> dequeue q st = (None, st).
Proof. intros Hl. unfold dequeue. unfold lane in Hl. rewrite Hl. reflexivity. Qed.

(** *** Priority insertion *)

Lemma findIndex_Some {A : Type} (p : A -> bool) (l : list A) (i : nat) :
  findIndex p l = Some i ->
  exists x, drop i l = x :: drop (S i) l /\ p x = true /\
            Forall (fun y => p y = false) (take i l).
Proof.
  revert i. induction l as [|y l IH]; intros i; cbn [findIndex]; [discriminate|].
  destruct (p y) eqn:Hy.
  - intros [= <-]. exists y. cbn. rewrite drop_0. auto.
  - destruct (findIndex p l) as [k|] eqn:Hk; [|discriminate].
    intros [= <-]. destruct (IH k eq_refl) as (x & Hd & Hx & Hall).
    exists x. cbn. auto.
Qed.

Lemma findIndex_None {A : Type} (p : A -> bool) (l : list A) :
  findIndex p l = None -> Forall (fun y => p y = false) l.
Proof.
  induction l as [|y l IH]; cbn [findIndex]; [constructor|].
  destruct (p y) eqn:Hy; [discriminate|].
  destruct (findIndex p l); [discriminate|]. intros _. constructor; auto.
Qed.

(** Where [enqueuePriority] puts the job, as a fact about the array alone. *)
Lemma priority_insertion_point (jobs : list QueueJob) (job fullJob : QueueJob) :
  exists before after,
    jobs = before ++ after /\
    match findIndex (fun j => priority j <? priority job) jobs with
    | None => jobs ++ [fullJob]
    | Some i => splice0 jobs i fullJob
    end = before ++ fullJob :: after /\
    Forall (fun j => priority job <= priority j) before /\
    match after with
    | [] => True
    | j :: _ => priority j < priority job
    end.
Proof.
  destruct (findIndex _ jobs) as [i|] eqn:Hfind.
  - destruct (findIndex_Some _ _ _ Hfind) as (x & Hd & Hx & Hall).
    exists (take i jobs), (drop i jobs). split; [symmetry; apply take_drop|].
    split; [reflexivity|]. split.
    + eapply Forall_impl; [exact Hall|]. cbn. intros j Hj. lia.
    + rewrite Hd. lia.
  - exists jobs, []. split; [symmetry; apply app_nil_r|]. split; [reflexivity|].
    split; [|exact I].
    eapply Forall_impl; [apply findIndex_None, Hfind|]. cbn. intros j Hj. lia.
Qed.

(** Inserting at that point keeps a sorted lane sorted. *)
Lemma nonIncreasing_insert (before after : list QueueJob) (x : QueueJob) (p : Z) :
  priority x = p ->
  Forall (fun j => p <= priority j) before ->
  match after with [] => True | j :: _ => priority j < p end ->
  nonIncreasing (before ++ after) ->
  nonIncreasing (before ++ x :: after).
Proof.
  unfold nonIncreasing. intros Hx Hbefore Hafter Hsorted.
  apply StronglySorted_app in Hsorted as (Hcross & Hb & Ha).
  assert (Hafter' : Forall (fun j => priority j <= p) after).
  { destruct after as [|j after]; [constructor|].
    apply StronglySorted_cons in Ha as [Hj _].
    constructor; [lia|]. eapply Forall_impl; [exact Hj|]. cbn. intros; lia. }
  apply StronglySorted_app. split; [|split; [exact Hb|]].
  - intros a b Ha' Hb'. apply elem_of_cons in Hb' as [->|Hb'].
    + rewrite Hx. rewrite Forall_forall in Hbefore. apply Hbefore, Ha'.
    + apply Hcross; assumption.
  - apply StronglySorted_cons. split; [|exact Ha].
    rewrite Hx. exact Hafter'.
Qed.

(** C5. [enqueuePriority] splits the lane into the jobs [before] and
    [after] the insertion point, keeping both parts and their order, and
    puts the new job (stamped with the current time) between them: no job
    before it has a lower priority than the new job, and the job right
    after it, if there is one, has a strictly lower priority (so the new
    job goes behind the jobs of equal priority and to the end when no job
    is lower).  No other lane changes, and a lane in non-increasing
    priority order stays in non-increasing priority order. *)
Theorem enqueuePriority_inserts_before_first_lower
    (st : Store) (q : QueueName) (job : QueueJob) (now : Z) :
  wf st ->
  let st' := snd (enqueuePriority q job now st) in
  (exists before after,
     lane st q = before ++ after /\
     lane st' q = before ++ withCreatedAt job now :: after /\
     Forall (fun j => priority job <= priority j) before /\
     match after with
     | [] => True
     | j :: _ => priority j < priority job
     end) /\
  (forall q', q' <> q -> lane st' q' = lane st q') /\
  (nonIncreasing (lane st q) -> nonIncreasing (lane st' q)) /\
  wf st'.
Proof.
  intros Hwf st'.
  destruct (priority_insertion_point (lane st q) job (withCreatedAt job now))
    as (before & after & Hsplit & Hins & Hbefore & Hafter).
  assert (Hlane : lane st' q = before ++ withCreatedAt job now :: after).
  { rewrite <- Hins. unfold st', enqueuePriority. fold (lane st q).
    destruct (findIndex _ (lane st q)); cbn [snd]; apply lane_mutate_same. }
  split; [|split; [|split]].
  - exists before, after. auto.
  - intros q' Hne. unfold st', enqueuePriority.
    destruct (findIndex _ _); cbn [snd]; apply lane_mutate_other; assumption.
  - rewrite Hlane, Hsplit.
    apply (nonIncreasing_insert before after _ (priority job)); auto.
  - unfold st', enqueuePriority.
    destruct (findIndex _ _); cbn [snd]; apply wf_mutate, Hwf.
Qed.

(** *** Reading a lane *)

(** C10. [getQueueSize] returns the length of the lane and hands back the
    store it was given.  [peekQueue] returns a reference to a new array
    holding the lane's jobs: every lane still refers to the array it
    referred to and has the contents it had, the new array is no lane's
    array, and whatever is later written into the new array, every lane
    keeps its contents. *)
Theorem peekQueue_getQueueSize_leave_lanes (st : Store) (q : QueueName) :
  wf st ->
  getQueueSize q st = (length (lane st q), st) /\
  exists l st',
    peekQueue q st = (l, st') /\
    deref st' l = lane st q /\
    (forall q', inMemoryQueues st' q' = inMemoryQueues st q') /\
    (forall q', lane st' q' = lane st q') /\
    (forall q', l <> inMemoryQueues st' q') /\
    (forall v q', lane (mutate st' l v) q' = lane st q').
Proof.
  intros Hwf. split; [reflexivity|].
  destruct (peekQueue q st) as [l st'] eqn:Hpeek. exists l, st'.
  unfold peekQueue in Hpeek.
  destruct (alloc_fresh _ _ _ _ Hwf Hpeek) as (Hsame & Hfresh & Hcopy & Hlanes & _).
  split; [reflexivity|]. split; [exact Hcopy|]. split; [exact Hsame|].
  split; [exact Hlanes|]. split.
  - intros q'. rewrite Hsame. apply Hfresh.
  - intros v q'. rewrite <- Hlanes. unfold lane, deref, mutate. cbn.
    rewrite lookup_insert_ne; [reflexivity|]. rewrite Hsame. apply Hfresh.
Qed.

(** *** The worker loop *)

(** One turn on a lane whose head is [job], with a processor that only
    signals its outcome: the job leaves the lane, and one job is appended
    to the [target] lane.  The turn ends without any delay. *)
Lemma processQueueTurn_head q processor options now st job rest outcome :
  wf st ->
  lane st q = job :: rest ->
  (forall s, processor job s = (outcome, s)) ->
  forall target x,
    match outcome with
    | None => target = COMPLETED /\ x = job
    | Some e =>
        exists rc, nextRetryCount (data job) = Some rc /\
          if rc <? default 3 (maxRetries options)
          then target = q /\ x = withData job (<["retryCount" := JNum rc]> (data job))
          else target = FAILED /\
               x = withData job
                     (<["error" := JStr (Js.messageOr "Unknown error" e)]> (data job))
    end ->
  exists st',
    processQueueTurn q processor options now st = (Immediately, st') /\
    wf st' /\
    forall q', lane st' q' =
      (if decide (q' = q) then rest else lane st q')
      ++ (if decide (q' = target) then [withCreatedAt x now] else []).
Proof.
  intros Hwf Hlane Hproc target x Hcase.
  destruct (dequeue_cons q job rest st Hwf Hlane) as (st1 & Hdq & Hq1 & Hother1 & Hwf1).
  assert (Hbase : forall q', lane st1 q' = if decide (q' = q) then rest else lane st q').
  { intros q'. destruct (decide (q' = q)) as [->|Hne]; [exact Hq1|apply Hother1, Hne]. }
  assert (Hfinish : forall st2,
    st2 = snd (enqueue target x now st1) ->
    wf st2 /\
    forall q', lane st2 q' =
      (if decide (q' = q) then rest else lane st q')
      ++ (if decide (q' = target) then [withCreatedAt x now] else [])).
  { intros st2 ->.
    destruct (enqueue_lane target x now st1 Hwf1) as (Ht & Ho & Hwf2).
    split; [exact Hwf2|]. intros q'. rewrite <- Hbase.
    destruct (decide (q' = target)) as [->|Hne]; [exact Ht|].
    rewrite app_nil_r. apply Ho, Hne. }
  exists (snd (enqueue target x now st1)).
  split; [|apply Hfinish; reflexivity].
  unfold processQueueTurn, Eff.bind. rewrite Hdq, Hproc.
  destruct outcome as [e|].
  - destruct Hcase as (rc & Hrc & Hcase). rewrite Hrc.
    destruct (rc <? default 3 (maxRetries options));
      destruct Hcase as [-> ->]; reflexivity.
  - destruct Hcase as [-> ->]. reflexivity.
Qed.

(** A turn on an empty lane sleeps for the poll interval and changes nothing. *)
Lemma processQueueTurn_empty q processor options now st :
  lane st q = [] ->
  processQueueTurn q processor options now st
  = (Slept (default 1000 (pollInterval options)), st).
Proof.
  intros Hl. unfold processQueueTurn, Eff.bind. rewrite (dequeue_nil q st Hl).
  reflexivity.
Qed.

Lemma nextRetryCount_attempted job k clock :
  data job !! "retryCount" = None ->
  nextRetryCount (data (attempted job k clock)) = Some (Z.of_nat k + 1).
Proof.
  intros Hnone. destruct k as [|k]; unfold nextRetryCount.
  - cbn [attempted]. rewrite Hnone. reflexivity.
  - cbn [attempted retriedJob withCreatedAt withData data].
    rewrite lookup_insert_eq. reflexivity.
Qed.

Lemma attempted_S job k clock :
  withCreatedAt
    (withData (attempted job k clock)
       (<["retryCount" := JNum (Z.of_nat k + 1)]> (data (attempted job k clock))))
    (clock k)
  = attempted job (S k) clock.
Proof.
  replace (Z.of_nat k + 1) with (Z.of_nat (S k)) by lia.
  destruct k as [|k]; [reflexivity|].
  cbn [attempted retriedJob withCreatedAt withData data id type videoId priority
       createdAt].
  rewrite insert_insert_eq. reflexivity.
Qed.

(** [k] failed attempts in a row, starting from the job after [j0] attempts. *)
Lemma processQueue_failing q processor options (m : Z) e job clock :
  default 3 (maxRetries options) = m ->
  data job !! "retryCount" = None ->
  (forall j s, processor j s = (Some e, s)) ->
  forall k j0 clock' st,
    (Z.of_nat (j0 + k) < m) ->
    (forall i, clock' i = clock (j0 + i)%nat) ->
    wf st ->
    lane st q = [attempted job j0 clock] ->
    exists st',
      processQueue q processor options clock' k st = (repeat Immediately k, st') /\
      wf st' /\
      lane st' q = [attempted job (j0 + k) clock] /\
      (forall q', q' <> q -> lane st' q' = lane st q').
Proof.
  intros Hm Hnone Hproc. induction k as [|k IH]; intros j0 clock' st Hlt Hclock Hwf Hlane.
  - exists st. cbn. rewrite Nat.add_0_r. auto.
  - destruct (processQueueTurn_head q processor options (clock' O) st
                (attempted job j0 clock) [] (Some e) Hwf Hlane
                (fun s => Hproc _ s) q
                (withData (attempted job j0 clock)
                   (<["retryCount" := JNum (Z.of_nat j0 + 1)]>
                      (data (attempted job j0 clock)))))
      as (st1 & Hturn & Hwf1 & Hlanes1).
    { exists (Z.of_nat j0 + 1). split; [apply nextRetryCount_attempted, Hnone|].
      rewrite Hm. destruct (Z.ltb_spec (Z.of_nat j0 + 1) m); [auto|lia]. }
    assert (Hq1 : lane st1 q = [attempted job (S j0) clock]).
    { rewrite Hlanes1. rewrite !decide_True by reflexivity. cbn [app].
      rewrite Hclock, Nat.add_0_r, attempted_S. reflexivity. }
    destruct (IH (S j0) (fun i => clock' (S i)) st1) as (st' & Hrun & Hwf' & Hq' & Hother');
      [lia| |exact Hwf1|exact Hq1|].
    { intros i. rewrite Hclock. f_equal. lia. }
    exists st'. split; [|split; [exact Hwf'|split]].
    + cbn [processQueue]. unfold Eff.bind at 1. rewrite Hturn.
      unfold Eff.bind at 1. rewrite Hrun. reflexivity.
    + rewrite Hq'. do 2 f_equal. lia.
    + intros q' Hne. rewrite (Hother' q' Hne), Hlanes1.
      rewrite !decide_False by exact Hne. apply app_nil_r.
Qed.

(** Turns compose: [a + b] turns are [a] turns followed by [b] turns. *)
Lemma processQueue_add q processor options :
  forall a b clock st,
    processQueue q processor options clock (a + b) st
    = let (t1, st1) := processQueue q processor options clock a st in
      let (t2, st2) :=
        processQueue q processor options (fun i => clock (a + i)%nat) b st1 in
      (t1 ++ t2, st2).
Proof.
  induction a as [|a IH]; intros b clock st.
  - cbn. destruct (processQueue _ _ _ _ b st). reflexivity.
  - cbn [Nat.add processQueue]. unfold Eff.bind, Eff.ret.
    destruct (processQueueTurn _ _ _ _ st) as [t st1].
    rewrite IH.
    destruct (processQueue _ _ _ _ a st1) as [t1 st2].
    change (fun i => clock (S a + i)%nat) with (fun i => clock (S (a + i))).
    destruct (processQueue _ _ _ _ b st2) as [t2 st3]. reflexivity.
Qed.

(** C6. One turn of [processQueue] on a lane whose head is [job], with
    [maxRetries = m] (3 when the option is absent) and a processor that
    only signals its outcome.  The job leaves the lane.  If the processor
    resolves, the job is appended to the COMPLETED lane.  If it rejects
    with [e] and [retryCount], read as 0 when absent, plus one is [rc]: for
    [rc < m] the job is appended to the same lane with [retryCount = rc],
    and otherwise it is appended to the FAILED lane with the message of
    [e] attached.  In every case the turn ends without sleeping.
    Consequently, for a lane other than FAILED that holds just one job not
    tried before and a processor that always rejects: after [k < m] turns
    the job is back in the lane with [retryCount = k] and the FAILED lane
    is as it was; the [m]-th turn moves it to the FAILED lane and leaves
    the lane empty, so the next turn finds nothing and sleeps for the poll
    interval.  The job put back for a retry is the job with only
    [retryCount] set in its data and the time of the enqueue; the job put
    on the FAILED lane is the job with only [error] set in its data, to the
    message of the thrown [Error] or to "Unknown error" when something else
    was thrown, and the time of the enqueue. *)
Theorem processQueue_retries_then_fails
    (q : QueueName) (options : Options) (st : Store)
    (job : QueueJob) (rest : list QueueJob) (m : Z) :
  wf st ->
  lane st q = job :: rest ->
  default 3 (maxRetries options) = m ->
  let dequeued q' := if decide (q' = q) then rest else lane st q' in
  (forall processor now,
     (forall s, processor job s = (None, s)) ->
     exists st',
       processQueueTurn q processor options now st = (Immediately, st') /\
       forall q', lane st' q'
                  = dequeued q'
                    ++ (if decide (q' = COMPLETED) then [withCreatedAt job now] else [])) /\
  (forall processor now e rc,
     (forall s, processor job s = (Some e, s)) ->
     nextRetryCount (data job) = Some rc ->
     exists st',
       processQueueTurn q processor options now st = (Immediately, st') /\
       forall q', lane st' q'
                  = dequeued q'
                    ++ (if rc <? m
                        then if decide (q' = q) then [retriedJob job rc now] else []
                        else if decide (q' = FAILED) then [failedJob job e now] else [])) /\
  (rest = [] -> data job !! "retryCount" = None -> q <> FAILED -> 1 <= m ->
   forall processor clock e,
     (forall j s, processor j s = (Some e, s)) ->
     let n := Z.to_nat m in
     (forall k, (k < n)%nat ->
        exists st_k,
          processQueue q processor options clock k st = (repeat Immediately k, st_k) /\
          lane st_k q = [attempted job k clock] /\
          lane st_k FAILED = lane st FAILED) /\
     (exists st',
        processQueue q processor options clock n st = (repeat Immediately n, st') /\
        lane st' q = [] /\
        lane st' FAILED
        = lane st FAILED
          ++ [failedJob (attempted job (n - 1) clock) e (clock (n - 1)%nat)] /\
        processQueueTurn q processor options (clock n) st'
        = (Slept (default 1000 (pollInterval options)), st'))) /\
  (forall (j : QueueJob) (rc now : Z),
     retriedJob j rc now
     = {| id := id j; type := type j; videoId := videoId j; priority := priority j;
          data := <["retryCount" := JNum rc]> (data j); createdAt := now |}) /\
  (forall (j : QueueJob) (message : string) (now : Z),
     failedJob j (Js.ErrorObj message) now
     = {| id := id j; type := type j; videoId := videoId j; priority := priority j;
          data := <["error" := JStr message]> (data j); createdAt := now |} /\
     failedJob j Js.NonError now
     = {| id := id j; type := type j; videoId := videoId j; priority := priority j;
          data := <["error" := JStr "Unknown error"]> (data j); createdAt := now |}).
Proof.
  intros Hwf Hlane Hm dequeued.
  split; [|split; [|split; [|split; [reflexivity|split; reflexivity]]]].
  - intros processor now Hproc.
    destruct (processQueueTurn_head q processor options now st job rest None
                Hwf Hlane Hproc COMPLETED job (conj eq_refl eq_refl))
      as (st' & Hturn & _ & Hlanes).
    exists st'. split; [exact Hturn|exact Hlanes].
  - intros processor now e rc Hproc Hrc.
    destruct (Z.ltb_spec rc m) as [Hlt|Hge].
    + destruct (processQueueTurn_head q processor options now st job rest (Some e)
                  Hwf Hlane Hproc q
                  (withData job (<["retryCount" := JNum rc]> (data job))))
        as (st' & Hturn & _ & Hlanes).
      { exists rc. split; [exact Hrc|]. rewrite Hm.
        destruct (Z.ltb_spec rc m); [auto|lia]. }
      exists st'. split; [exact Hturn|exact Hlanes].
    + destruct (processQueueTurn_head q processor options now st job rest (Some e)
                  Hwf Hlane Hproc FAILED
                  (withData job
                     (<["error" := JStr (Js.messageOr "Unknown error" e)]> (data job))))
        as (st' & Hturn & _ & Hlanes).
      { exists rc. split; [exact Hrc|]. rewrite Hm.
        destruct (Z.ltb_spec rc m); [lia|auto]. }
      exists st'. split; [exact Hturn|exact Hlanes].
  - intros -> Hnone HqF Hpos processor clock e Hproc n.
    assert (Hrun : forall k, (k < n)%nat ->
      exists st_k,
        processQueue q processor options clock k st = (repeat Immediately k, st_k) /\
        wf st_k /\
        lane st_k q = [attempted job k clock] /\
        lane st_k FAILED = lane st FAILED).
    { intros k Hk.
      destruct (processQueue_failing q processor options m e job clock Hm Hnone Hproc
                  k O clock st) as (st_k & Hr & Hwfk & Hqk & Hother);
        [lia|reflexivity|exact Hwf|exact Hlane|].
      exists st_k. split; [exact Hr|]. split; [exact Hwfk|]. split; [exact Hqk|].
      apply Hother. auto. }
    split.
    + intros k Hk. destruct (Hrun k Hk) as (st_k & Hr & _ & Hqk & Hfk). eauto.
    + destruct (Hrun (n - 1)%nat ltac:(lia)) as (st1 & Hr & Hwf1 & Hq1 & Hf1).
      set (cur := attempted job (n - 1) clock) in *.
      destruct (processQueueTurn_head q processor options (clock (n - 1)%nat) st1 cur []
                  (Some e) Hwf1 Hq1 (fun s => Hproc cur s) FAILED
                  (withData cur
                     (<["error" := JStr (Js.messageOr "Unknown error" e)]> (data cur))))
        as (st' & Hturn & Hwf' & Hlanes).
      { exists (Z.of_nat (n - 1) + 1). split; [apply nextRetryCount_attempted, Hnone|].
        rewrite Hm. destruct (Z.ltb_spec (Z.of_nat (n - 1) + 1) m); [lia|auto]. }
      assert (Hempty : lane st' q = []).
      { rewrite Hlanes, decide_True, decide_False by auto. reflexivity. }
      exists st'. split; [|split; [exact Hempty|split]].
      * replace n with (n - 1 + 1)%nat at 1 2 by lia.
        rewrite processQueue_add, Hr. cbn [processQueue]. unfold Eff.bind at 1.
        replace (n - 1 + 0)%nat with (n - 1)%nat by lia. rewrite Hturn.
        cbn. rewrite repeat_app. reflexivity.
      * rewrite Hlanes, decide_False, decide_True by auto. rewrite Hf1. reflexivity.
      * apply processQueueTurn_empty, Hempty.
Qed.

End QueueFacts.

(** ** The mock pipeline *)

Module ProcessorFacts.
Import Processor.

(** The time estimates the loop records, one per step. *)
Example timeRemaining_values :
  map (fun s => Queue.timeRemaining (statusOf s)) steps
  = map Some [200; 192; 169; 138; 58; 19; 5; 30].
Proof. vm_compute. reflexivity. Qed.

(** What one turn of the loop changes. *)
Lemma stepBody_effect jobId s st j :
  processingJobs st !! jobId = Some j ->
  exists st',
    stepBody jobId s st = (tt, st') /\
    processingJobs st' !! jobId
    = Some {| id := id j; video_id := video_id j; status := running;
              progress := s_progress s; currentStep := s_step s;
              metadata := metadata j |} /\
    Queue.statusLog (queue st') = Queue.statusLog (queue st) ++ [(jobId, statusOf s)] /\
    Queue.jobStatuses (queue st') !! jobId = Some (statusOf s) /\
    videos st' = videos st /\
    Queue.heap (queue st') = Queue.heap (queue st) /\
    Queue.inMemoryQueues (queue st') = Queue.inMemoryQueues (queue st).
Proof.
  intros Hj. unfold stepBody, Eff.run, stepBodyT, Eff.bindT, Eff.await, Eff.ret,
    updateJobProgress. rewrite Hj.
  unfold liftQueue, Queue.setJobStatus. eexists. split; [reflexivity|].
  cbn [processingJobs queue videos Queue.statusLog Queue.jobStatuses Queue.heap
       Queue.inMemoryQueues].
  rewrite !lookup_insert_eq. repeat split.
Qed.

Lemma last_cons_shift {A : Type} (x d : A) (l : list A) :
  List.last (x :: l) d = List.last l x.
Proof.
  revert x d. induction l as [|y l IH]; intros x d; [reflexivity|].
  change (List.last (x :: y :: l) d) with (List.last (y :: l) d).
  rewrite (IH y d), (IH y x). reflexivity.
Qed.

(** The whole loop over a list of steps. *)
Lemma forEach_steps jobId (ss : list Step) :
  forall st j,
    processingJobs st !! jobId = Some j ->
    exists st' j',
      Eff.forEach ss (stepBody jobId) st = (tt, st') /\
      processingJobs st' !! jobId = Some j' /\
      id j' = id j /\ video_id j' = video_id j /\ metadata j' = metadata j /\
      progress j' = List.last (map s_progress ss) (progress j) /\
      status j' = List.last (map (fun _ => running) ss) (status j) /\
      Queue.statusLog (queue st')
      = Queue.statusLog (queue st) ++ map (fun s => (jobId, statusOf s)) ss /\
      videos st' = videos st /\
      Queue.heap (queue st') = Queue.heap (queue st) /\
      Queue.inMemoryQueues (queue st') = Queue.inMemoryQueues (queue st).
Proof.
  induction ss as [|s ss IH]; intros st j Hj.
  - exists st, j. cbn. rewrite app_nil_r. repeat split; auto.
  - destruct (stepBody_effect jobId s st j Hj)
      as (st1 & Hstep & Hj1 & Hlog1 & _ & Hv1 & Hh1 & Hl1).
    destruct (IH st1 _ Hj1)
      as (st' & j' & Hrun & Hj' & Hid & Hvid & Hmd & Hprog & Hstat & Hlog & Hv & Hh & Hl).
    exists st', j'. split.
    { cbn [Eff.forEach]. unfold Eff.bind at 1. rewrite Hstep. exact Hrun. }
    split; [exact Hj'|]. cbn [id video_id metadata progress status] in *.
    split; [exact Hid|]. split; [exact Hvid|]. split; [exact Hmd|].
    split; [rewrite Hprog; cbn [map]; rewrite last_cons_shift; reflexivity|].
    split; [rewrite Hstat; cbn [map]; rewrite last_cons_shift; reflexivity|].
    split; [rewrite Hlog, Hlog1; cbn [map]; rewrite <- app_assoc; reflexivity|].
    split; [congruence|]. split; congruence.
Qed.

(** What is seen at the three awaits of one turn. *)
Lemma stepBodyT_awaits jobId s st j :
  processingJobs st !! jobId = Some j ->
  map (jobView jobId) (Eff.awaited (stepBodyT jobId s) st)
  = map Some [(progress j, status j); (s_progress s, running); (s_progress s, running)].
Proof.
  intros Hj. unfold Eff.awaited, stepBodyT, Eff.bindT, Eff.await, Eff.ret,
    updateJobProgress. rewrite Hj. unfold liftQueue, Queue.setJobStatus.
  cbn [snd app map]. unfold jobView. cbn [processingJobs].
  rewrite Hj, !lookup_insert_eq. reflexivity.
Qed.

(** The loop with its awaits forgotten is the loop of the turns. *)
Lemma forEachT_run {S A : Type} (xs : list A) (body : A -> Eff.Tr S unit) :
  forall st, fst (Eff.forEachT xs body st) = Eff.forEach xs (fun x => Eff.run (body x)) st.
Proof.
  induction xs as [|x xs IH]; intros st; [reflexivity|].
  cbn [Eff.forEachT Eff.forEach]. unfold Eff.bindT, Eff.bind, Eff.run.
  destruct (body x st) as [[[] st1] seen1]. cbn [fst].
  rewrite <- IH. destruct (Eff.forEachT xs body st1) as [[[] st2] seen2]. reflexivity.
Qed.

(** What is seen at the awaits of the whole loop. *)
Lemma forEachT_awaits jobId (ss : list Step) :
  forall st j,
    processingJobs st !! jobId = Some j ->
    map (jobView jobId) (Eff.awaited (Eff.forEachT ss (stepBodyT jobId)) st)
    = map Some (loopView (progress j, status j) ss).
Proof.
  induction ss as [|s ss IH]; intros st j Hj; [reflexivity|].
  pose proof (stepBodyT_awaits jobId s st j Hj) as Hseen.
  destruct (stepBody_effect jobId s st j Hj) as (st1 & Hstep & Hj1 & _).
  specialize (IH st1 _ Hj1). cbn [progress status] in IH.
  unfold Eff.awaited in *. unfold stepBody, Eff.run in Hstep.
  cbn [Eff.forEachT]. unfold Eff.bindT.
  destruct (stepBodyT jobId s st) as [[[] st1'] seen1]. cbn [fst snd] in Hstep, Hseen.
  injection Hstep as ->.
  destruct (Eff.forEachT ss (stepBodyT jobId) st1) as [[[] st2] seen2].
  cbn [snd] in IH |- *. rewrite map_app, Hseen, IH. reflexivity.
Qed.

Lemma saveAIAnalysis_frame videoId a st :
  exists st',
    saveAIAnalysis videoId a st = (tt, st') /\
    processingJobs st' = processingJobs st /\ queue st' = queue st.
Proof.
  unfold saveAIAnalysis. destruct (videos st !! videoId); eexists; repeat split.
Qed.

Lemma updateVideoStatus_frame videoId status updates iso st :
  exists st',
    updateVideoStatus videoId status updates iso st = (tt, st') /\
    processingJobs st' = processingJobs st /\ queue st' = queue st.
Proof.
  unfold updateVideoStatus. destruct (videos st !! videoId); eexists; repeat split.
Qed.

Lemma createProcessingJob_effect video_id status metadata env st :
  let jobId := "job_" +:+ Js.Z_to_string (jobNow env) +:+ "_"
               +:+ substring 2 9 (jobRandom env) in
  exists st0,
    createProcessingJob video_id status metadata env st = (jobId, st0) /\
    processingJobs st0 !! jobId
    = Some {| id := jobId; video_id := video_id; status := status; progress := 0;
              currentStep := "Validating video"; metadata := metadata |} /\
    queue st0 = queue st.
Proof.
  intros jobId. unfold createProcessingJob. fold jobId. eexists.
  split; [reflexivity|]. cbn [processingJobs queue].
  rewrite lookup_insert_eq. split; reflexivity.
Qed.

(** [processVideo] as a whole is the sequence of its calls. *)
Lemma processVideo_sequential videoId userId videoPath styleConfig env st :
  processVideo videoId userId videoPath styleConfig env st
  = (let* jobId :=
       createProcessingJob videoId running
         (Some {| md_styleConfig := styleConfig; md_startTime := startTime env |}) env in
     do Eff.forEach steps (stepBody jobId) then
     do saveAIAnalysis videoId MockAnalysis then
     let totalTime := Js.round (inject_Z (endNow env - startTime env) / 1000) in
     do updateJobProgress jobId 100 "Completed" completed then
     do liftQueue (Queue.setJobStatus jobId
          {| Queue.progress := 100;
             Queue.currentStep := Some "Completed";
             Queue.timeRemaining := Some 0;
             Queue.totalTime := Some totalTime;
             Queue.error := None |}) then
     do updateVideoStatus videoId Types.completed
          {| u_processed_url := Some processed_url_sample;
             u_thumbnail_url := Some thumbnail_url_sample;
             u_duration := Some mockDuration;
             u_ai_analysis := Some MockAnalysis |} (isoNow env) then
     liftQueue (Queue.enqueue Queue.COMPLETED
       {| Queue.id := jobId;
          Queue.type := Queue.process;
          Queue.videoId := videoId;
          Queue.priority := 0;
          Queue.data := <["status" := Queue.JStr "completed"]>
                          (<["totalTime" := Queue.JNum totalTime]> ∅);
          Queue.createdAt := 0 |} (enqueueNow env))) st.
Proof.
  unfold processVideo, Eff.run, processVideoT, Eff.bindT, Eff.bind, Eff.await.
  destruct (createProcessingJob _ _ _ _ st) as [jobId st0].
  pose proof (forEachT_run steps (stepBodyT jobId) st0) as Hloop.
  fold (stepBody jobId) in Hloop.
  change (fun x => Eff.run (stepBodyT jobId x)) with (stepBody jobId) in Hloop.
  rewrite <- Hloop.
  destruct (Eff.forEachT steps (stepBodyT jobId) st0) as [[[] st1] seen1]. cbn [fst].
  destruct (saveAIAnalysis videoId MockAnalysis st1) as [[] st2].
  destruct (updateJobProgress jobId 100 "Completed" completed st2) as [[] st3].
  destruct (liftQueue _ st3) as [[] st4].
  destruct (updateVideoStatus _ _ _ _ st4) as [[] st5].
  destruct (liftQueue _ st5) as [[] st6]. reflexivity.
Qed.

(** What is seen of the job after the loop: the record as the loop left
    it, then, from the last [updateJobProgress] on, the completed record. *)
Lemma processVideoT_awaits videoId userId videoPath styleConfig env st :
  let jobId := "job_" +:+ Js.Z_to_string (jobNow env) +:+ "_"
               +:+ substring 2 9 (jobRandom env) in
  map (jobView jobId)
      (Eff.awaited (processVideoT videoId userId videoPath styleConfig env) st)
  = map Some ((0, running) :: loopView (0, running) steps
              ++ [(98, running); (100, completed); (100, completed);
                  (100, completed); (100, completed)]).
Proof.
  intros jobId.
  destruct (createProcessingJob_effect videoId running
              (Some {| md_styleConfig := styleConfig; md_startTime := startTime env |})
              env st) as (st0 & Hcreate & Hj0 & Hq0).
  fold jobId in Hcreate, Hj0.
  destruct (forEach_steps jobId steps st0 _ Hj0)
    as (st1 & j1 & Hloop & Hj1 & _ & _ & _ & Hprog & Hstat & _).
  cbn [progress status] in Hprog, Hstat.
  pose proof (forEachT_awaits jobId steps st0 _ Hj0) as Hseen.
  cbn [progress status] in Hseen.
  pose proof (forEachT_run steps (stepBodyT jobId) st0) as Hrun.
  change (fun x => Eff.run (stepBodyT jobId x)) with (stepBody jobId) in Hrun.
  rewrite Hloop in Hrun.
  unfold Eff.awaited in *. unfold processVideoT, Eff.bindT, Eff.await.
  rewrite Hcreate.
  destruct (Eff.forEachT steps (stepBodyT jobId) st0) as [[[] st1'] seen1].
  cbn [fst snd] in Hrun, Hseen. injection Hrun as ->.
  destruct (saveAIAnalysis_frame videoId MockAnalysis st1) as (st2 & Hsave & Hpj2 & _).
  rewrite Hsave.
  assert (Hj2 : processingJobs st2 !! jobId = Some j1) by (rewrite Hpj2; exact Hj1).
  unfold updateJobProgress. rewrite Hj2. unfold liftQueue at 1.
  unfold Queue.setJobStatus at 1. cbv beta iota.
  match goal with
  | |- context [updateVideoStatus ?a ?b ?c ?d ?s] =>
      destruct (updateVideoStatus_frame a b c d s) as (st5 & Hupd & Hpj5 & _);
      rewrite Hupd
  end.
  unfold liftQueue, Queue.enqueue. cbn [snd].
  cbn [processingJobs] in Hpj5.
  rewrite !map_app. cbn [map app]. rewrite Hseen.
  unfold jobView at 1. rewrite Hj0. cbn [progress status].
  unfold jobView. cbn [processingJobs]. rewrite Hj2, Hpj5, !lookup_insert_eq.
  cbn [progress status]. rewrite Hprog, Hstat. reflexivity.
Qed.

(** C9. One run of [processVideo], from any state.  The statuses it hands
    to [setJobStatus], in order, carry the progress values 5, 15, 30, 50,
    70, 92, 95, 98 and 100, a strictly increasing sequence; the last one,
    which is also the status stored for the job at the end, has progress
    100, step "Completed" and no time remaining.  The progress that
    [updateJobProgress] writes into the job record, as the record shows it
    at each await of the run (after the job is created, three times in
    each turn of the loop, and five times after it), is 0, then each of
    the same values from the [updateJobProgress] of its turn on, with the
    job running, and 100 with the job completed from the last
    [updateJobProgress] on: it never goes down.  At the end the record has
    progress 100, step "Completed" and the job completed. *)
Theorem processVideo_progress_increases
    (videoId userId videoPath : string) (styleConfig : Types.StyleConfig)
    (env : Env) (st : State) :
  let jobId := "job_" +:+ Js.Z_to_string (jobNow env) +:+ "_"
               +:+ substring 2 9 (jobRandom env) in
  let st' := snd (processVideo videoId userId videoPath styleConfig env st) in
  let seen :=
    map (jobView jobId)
        (Eff.awaited (processVideoT videoId userId videoPath styleConfig env) st) in
  let final :=
    {| Queue.progress := 100;
       Queue.currentStep := Some "Completed";
       Queue.timeRemaining := Some 0;
       Queue.totalTime := Some (Js.round (inject_Z (endNow env - startTime env) / 1000));
       Queue.error := None |} in
  (exists recorded : list Queue.JobStatus,
     Queue.statusLog (queue st')
     = Queue.statusLog (queue st) ++ map (fun r => (jobId, r)) recorded /\
     map Queue.progress recorded = [5; 15; 30; 50; 70; 92; 95; 98; 100] /\
     StronglySorted Z.lt (map Queue.progress recorded) /\
     last recorded = Some final) /\
  Queue.jobStatuses (queue st') !! jobId = Some final /\
  (seen
   = map Some
       [ (0, running);
         (0, running); (5, running); (5, running);
         (5, running); (15, running); (15, running);
         (15, running); (30, running); (30, running);
         (30, running); (50, running); (50, running);
         (50, running); (70, running); (70, running);
         (70, running); (92, running); (92, running);
         (92, running); (95, running); (95, running);
         (95, running); (98, running); (98, running);
         (98, running);
         (100, completed); (100, completed); (100, completed); (100, completed) ] /\
   StronglySorted Z.le (map fst (omap (fun v => v) seen)) /\
   last (Eff.awaited (processVideoT videoId userId videoPath styleConfig env) st)
   = Some st') /\
  (exists j,
     processingJobs st' !! jobId = Some j /\
     progress j = 100 /\ currentStep j = "Completed" /\ status j = completed).
Proof.
  intros jobId st' seen final.
  destruct (createProcessingJob_effect videoId running
              (Some {| md_styleConfig := styleConfig; md_startTime := startTime env |})
              env st) as (st0 & Hcreate & Hj0 & Hq0).
  fold jobId in Hcreate, Hj0.
  (* the loop *)
  destruct (forEach_steps jobId steps st0 _ Hj0)
    as (st1 & j1 & Hloop & Hj1 & _ & _ & _ & _ & _ & Hlog1 & _).
  destruct (saveAIAnalysis_frame videoId MockAnalysis st1) as (st2 & Hsave & Hpj2 & Hq2).
  assert (Hj2 : processingJobs st2 !! jobId = Some j1) by (rewrite Hpj2; exact Hj1).
  (* the tail of the run, from [st2] *)
  assert (Hrun : exists st4 qfinal,
    st' = {| processingJobs := processingJobs st4; videos := videos st4; queue := qfinal |} /\
    Queue.statusLog qfinal = Queue.statusLog (queue st2) ++ [(jobId, final)] /\
    Queue.jobStatuses qfinal = <[jobId := final]> (Queue.jobStatuses (queue st2)) /\
    processingJobs st4
    = <[jobId := {| id := id j1; video_id := video_id j1; status := completed;
                    progress := 100; currentStep := "Completed";
                    metadata := metadata j1 |}]> (processingJobs st2)).
  { unfold st'. rewrite processVideo_sequential. unfold Eff.bind.
    rewrite Hcreate, Hloop, Hsave.
    unfold updateJobProgress. rewrite Hj2. unfold liftQueue at 1.
    unfold Queue.setJobStatus at 1. cbv beta iota.
    match goal with
    | |- context [updateVideoStatus ?a ?b ?c ?d ?s] =>
        destruct (updateVideoStatus_frame a b c d s) as (st4 & Hupd & Hpj4 & Hq4);
        rewrite Hupd
    end.
    unfold liftQueue, Queue.enqueue. cbn [snd].
    eexists st4, _. split; [reflexivity|].
    cbn [Queue.statusLog Queue.jobStatuses Queue.mutate Queue.withHeap].
    rewrite Hq4, Hpj4. repeat split. }
  destruct Hrun as (st4 & qfinal & Hst' & Hlogf & Hstatf & Hpj4).
  assert (Hlog : Queue.statusLog (queue st')
                 = Queue.statusLog (queue st)
                   ++ map (fun r => (jobId, r)) (map statusOf steps ++ [final])).
  { rewrite Hst'. cbn [queue]. rewrite Hlogf, Hq2, Hlog1, Hq0, map_app, map_map, <- app_assoc.
    reflexivity. }
  assert (Hseen : seen
                  = map Some ((0, running) :: loopView (0, running) steps
                              ++ [(98, running); (100, completed); (100, completed);
                                  (100, completed); (100, completed)])).
  { apply processVideoT_awaits. }
  split; [|split; [|split]].
  - exists (map statusOf steps ++ [final]). split; [exact Hlog|].
    split; [reflexivity|]. split.
    + cbn. repeat (constructor; [|repeat (constructor; [lia|]); constructor]).
      constructor.
    + reflexivity.
  - rewrite Hst'. cbn [queue]. rewrite Hstatf. apply lookup_insert_eq.
  - split; [rewrite Hseen; reflexivity|]. split.
    + rewrite Hseen. cbn.
      repeat (constructor; [|repeat (constructor; [lia|]); constructor]).
      constructor.
    + unfold st', processVideo, Eff.run, Eff.awaited, processVideoT, Eff.bindT, Eff.await.
      destruct (createProcessingJob _ _ _ _ st) as [jobId' st0'].
      destruct (Eff.forEachT steps (stepBodyT jobId') st0') as [[[] st1'] seen1].
      destruct (saveAIAnalysis videoId MockAnalysis st1') as [[] st2'].
      destruct (updateJobProgress jobId' 100 "Completed" completed st2') as [[] st3'].
      destruct (liftQueue _ st3') as [[] st4'].
      destruct (updateVideoStatus _ _ _ _ st4') as [[] st5'].
      destruct (liftQueue _ st5') as [[] st6']. cbn [fst snd].
      rewrite !app_assoc. apply last_snoc.
  - eexists. split.
    + rewrite Hst'. cbn [processingJobs]. rewrite Hpj4. apply lookup_insert_eq.
    + repeat split.
Qed.

End ProcessorFacts.

(** ** The route handlers *)

Module ApiFacts.
Import Api.

Lemma includes_In (xs : list string) (x : string) :
  Js.includes xs x = true <-> In x xs.
Proof.
  unfold Js.includes. rewrite existsb_exists. split.
  - intros (y & Hy & E). apply String.eqb_eq in E. subst. exact Hy.
  - intros Hx. exists x. split; [exact Hx|apply String.eqb_refl].
Qed.

(** C1, as the code has it.  For a request that carries a video file, the
    handler answers 400 exactly when the file is larger than 500 MB or its
    MIME type is not one of the three allowed types.  A file that passes
    both checks (a file of exactly 500 MB does) gets the synthesized video
    record when the colors field is absent, empty or valid JSON; when the
    colors field does not parse, the answer is a 500. *)
Theorem upload_validation (formData : FormData) (env : UploadEnv) (videoFile : File) :
  video formData = Some videoFile ->
  ((exists msg, POST formData env = Status400 msg) <->
   (500 * 1024 * 1024 < size videoFile \/ ~ In (type videoFile) validTypes)) /\
  (size videoFile <= 500 * 1024 * 1024 ->
   In (type videoFile) validTypes ->
   match Js.JSON_parse (Js.strOr (colors formData) "{}") with
   | Some parsedColors =>
       exists mockVideo message,
         POST formData env = Status200 true mockVideo message /\
         id mockVideo
         = "video_" +:+ Js.Z_to_string (now env) +:+ "_" +:+ substring 2 9 (random36 env) /\
         title mockVideo = stripExtension (name videoFile) /\
         status mockVideo = Types.processing /\
         format mockVideo = Js.split "/" (type videoFile) !! 1%nat /\
         sc_colors (style_config mockVideo) = parsedColors
   | None => POST formData env = Status500 (syntaxErrorMessage env)
   end).
Proof.
  intros Hvideo. unfold POST. rewrite Hvideo. change maxSize with (500 * 1024 * 1024).
  destruct (Z.ltb_spec (500 * 1024 * 1024) (size videoFile)) as [Hbig|Hfits].
  - split; [|lia]. split; [auto|eauto].
  - destruct (Js.includes validTypes (type videoFile)) eqn:Hinc; cbn [negb].
    + apply includes_In in Hinc. split.
      * split; [|intros [?|?]; [lia|contradiction]].
        intros [msg E]. destruct (Js.JSON_parse _); discriminate.
      * intros _ _. destruct (Js.JSON_parse _); [|reflexivity].
        eexists _, _. split; [reflexivity|]. repeat split.
    + assert (Hnot : ~ In (type videoFile) validTypes).
      { intros Hin. apply includes_In in Hin. congruence. }
      split; [|intros _ Hin; contradiction].
      split; [auto|eauto].
Qed.

(** C2. A poll with a non-empty id and a draw [r], a double in [0, 1): the
    progress is the floor of the product [r * 100] as the doubles give it,
    plus one; it lies between 1 and 100 and is a function of the draw
    alone.  The answer is the canned completed payload (progress 100, the
    requested id, the sample URLs the mock processor also uses) exactly
    when the progress is 100, and otherwise a processing payload with that
    progress, one of the seven step labels and a time remaining that is
    not negative.  Two draws can give a higher progress first and a lower
    one second. *)
Theorem status_poll_random_progress (videoId : string) (env : StatusEnv) :
  videoId <> EmptyString ->
  Js.isDouble (random env) ->
  (0 <= random env)%Q -> (random env < 1)%Q ->
  let p := mockProgressOf (random env) in
  p = Qfloor (Js.fmul (random env) 100) + 1 /\
  1 <= p <= 100 /\
  (p = 100 <->
   GET videoId env
   = Completed Types.completed 100 "Completed" 0 (cannedVideo videoId env)) /\
  (p_id (cannedVideo videoId env) = videoId /\
   p_processed_url (cannedVideo videoId env) = Processor.processed_url_sample /\
   p_thumbnail_url (cannedVideo videoId env) = Processor.thumbnail_url_sample) /\
  (p < 100 ->
   exists step remaining,
     GET videoId env = Processing Types.processing p step remaining /\
     In step steps /\ 0 <= remaining) /\
  (exists env1 env2 p1 s1 t1 p2 s2 t2,
     GET videoId env1 = Processing Types.processing p1 s1 t1 /\
     GET videoId env2 = Processing Types.processing p2 s2 t2 /\
     p2 < p1).
Proof.
  intros Hid Hdouble Hlo Hhi p.
  assert (Hfloor : 0 <= Qfloor (Js.fmul (random env) 100) <= 99).
  { destruct (DoubleFacts.fl_times_100 (random env) Hdouble Hlo Hhi) as [H0 H100].
    fold (Js.fmul (random env) 100) in H0, H100. split.
    - change 0 with (Qfloor 0). apply Qfloor_resp_le. exact H0.
    - assert (H : (inject_Z (Qfloor (Js.fmul (random env) 100)) < inject_Z 100)%Q).
      { eapply Qle_lt_trans; [apply Qfloor_le|]. change (inject_Z 100) with 100%Q. exact H100. }
      rewrite <- Zlt_Qlt in H. lia. }
  assert (Hp : p = Qfloor (Js.fmul (random env) 100) + 1).
  { unfold p, mockProgressOf. lia. }
  assert (Hnonempty : String.eqb videoId EmptyString = false).
  { apply String.eqb_neq, Hid. }
  split; [exact Hp|]. split; [lia|]. split; [|split; [repeat split|split]].
  - unfold GET. rewrite Hnonempty. fold p. cbv zeta.
    destruct (Z.leb_spec 100 p) as [Hge|Hlt].
    + split; [reflexivity|lia].
    + split; [lia|discriminate].
  - intros Hlt. unfold GET. rewrite Hnonempty. fold p. cbv zeta.
    destruct (Z.leb_spec 100 p) as [Hge|_]; [lia|].
    eexists _, _. split; [reflexivity|]. split; [|lia].
    apply nth_In.
    change (length steps) with 7%nat. change (Z.of_nat 7 - 1) with 6.
    assert (Hidx : 0 <= Qfloor (Js.fmul (Js.fdiv (inject_Z p) 100) (inject_Z (Z.of_nat 7)))).
    { change 0 with (Qfloor 0). apply Qfloor_resp_le.
      assert (Hq : (0 <= inject_Z p)%Q) by (change 0%Q with (inject_Z 0); rewrite <- Zle_Qle; lia).
      apply DoubleFacts.fl_nonneg. apply Qmult_le_0_compat; [|discriminate].
      apply DoubleFacts.fl_nonneg. unfold Qdiv. change (/ 100)%Q with (1 # 100)%Q. lra. }
    lia.
  - exists {| random := 0.5; createdIso' := EmptyString; updatedIso' := EmptyString |},
           {| random := 0.25; createdIso' := EmptyString; updatedIso' := EmptyString |}.
    unfold GET. rewrite Hnonempty. cbn [random].
    eexists _, _, _, _, _, _. split; [reflexivity|]. split; [reflexivity|].
    vm_compute. reflexivity.
Qed.

(** A draw whose product with 100 rounds up to a whole number: the double
    written 0.99 gives the progress 100 and the completed payload. *)
Example poll_at_the_largest_draws :
  (Js.double 0.99 < 1)%Q /\
  Qfloor (Js.double 0.99 * 100) = 98 /\
  mockProgressOf (Js.double 0.99) = 100 /\
  GET "v1" (Samples.pollEnv (Js.double 0.99))
  = Completed Types.completed 100 "Completed" 0
      (cannedVideo "v1" (Samples.pollEnv (Js.double 0.99))).
Proof. repeat split; vm_compute; reflexivity. Qed.

End ApiFacts.

(** ** The command-string builders *)

Module FfmpegFacts.
Import Ffmpeg.

Example Q_to_string_examples :
  map Q_to_string [0; 5; 1080; -30; 0.5; 1.2; 0.06; 12.25]%Q
  = ["0"; "5"; "1080"; "-30"; "0.5"; "1.2"; "0.06"; "12.25"].
Proof. vm_compute. reflexivity. Qed.

Example Z_to_hex_examples : map Z_to_hex [0; 10; 204; 255] = ["0"; "a"; "cc"; "ff"].
Proof. vm_compute. reflexivity. Qed.

(** The five replacements of [generateCaptionFilter], applied in the
    source's order, amount to one pass that puts a backslash before each
    backslash, single quote, colon and square bracket. *)
Lemma escapeCaptionText_escapeEach (s : string) :
  escapeCaptionText s = escapeEach captionSpecial s.
Proof.
  unfold escapeCaptionText. induction s as [|a s IH]; [reflexivity|].
  destruct a as [[] [] [] [] [] [] [] []];
    repeat (cbn; cbv [String.append]); cbn; rewrite IH; reflexivity.
Qed.

(** The three replacements of [generateViralThumbnail] amount to one pass
    that puts a backslash before each backslash, single quote and colon. *)
Lemma escapeTitle_escapeEach (s : string) :
  escapeTitle s = escapeEach titleSpecial s.
Proof.
  unfold escapeTitle. induction s as [|a s IH]; [reflexivity|].
  destruct a as [[] [] [] [] [] [] [] []];
    repeat (cbn; cbv [String.append]); cbn; rewrite IH; reflexivity.
Qed.

(** The caption filter embeds the escaped text between single quotes. *)
Lemma generateCaptionFilter_text {num : Type} `{JsNumber num}
    (caption : Caption) (w h : option num) (style : Types.StyleConfig) :
  exists before after,
    generateCaptionFilter caption w h style
    = before +:+ ":text='" +:+ escapeEach captionSpecial (text caption) +:+ "'" +:+ after.
Proof.
  unfold generateCaptionFilter. rewrite escapeCaptionText_escapeEach.
  eexists ("drawtext=fontfile=" +:+ fontFile), _.
  cbv [String.append fontFile]. reflexivity.
Qed.

(** C7, at the input where the code departs from it.  For the title
    [a[b]] the escaping of [generateViralThumbnail] returns the title
    unchanged, where the escaping of [generateCaptionFilter] returns
    [a\[b\]]; the thumbnail command carries [text='a[b]']. *)
Theorem generateViralThumbnail_leaves_brackets :
  escapeTitle "a[b]" = "a[b]" /\
  escapeCaptionText "a[b]" = "a\[b\]" /\
  generateViralThumbnail (num := Q) "in.mp4" "out.jpg" 5%Q "a[b]" None None
  = "ffmpeg -i " +:+ Js.quoted "in.mp4" +:+ " -ss 5 -vframes 1 -vf "
    +:+ Js.quoted
          ("scale=1280:720,eq=brightness=0.1:contrast=1.2:saturation=1.3,"
           +:+ "drawtext=fontfile=/usr/share/fonts/truetype/dejavu/DejaVuSans-Bold.ttf"
           +:+ ":text='a[b]':fontcolor=white:fontsize=80:box=1:boxcolor=black@0.7"
           +:+ ":boxborderw=20:x=(w-text_w)/2:y=h-150")
    +:+ " " +:+ Js.quoted "out.jpg".
Proof. repeat split; vm_compute; reflexivity. Qed.

(** With the default options the pipeline builder does not return: the
    call of the shadowed [normalizeAudio] throws.  With audio normalisation
    switched off it returns its list of commands. *)
Example pipeline_default_options_throw :
  generateCompleteEditingPipeline "in.mp4" "out.mp4" [Samples.bracketCaption] []
    Samples.plainStyle Samples.defaultOptions
  = Threw (Js.ErrorObj "normalizeAudio is not a function").
Proof. reflexivity. Qed.

Example pipeline_without_normalisation :
  exists c1 c2 c3 c4,
    generateCompleteEditingPipeline "in.mp4" "out.mp4" [Samples.bracketCaption] []
      Samples.plainStyle Samples.quietOptions
    = Returned [c1; c2; c3; c4] /\
    c4 = "mv " +:+ Js.quoted "in_effects.mp4" +:+ " " +:+ Js.quoted "out.mp4".
Proof. eexists _, _, _, _. split; vm_compute; reflexivity. Qed.

(** The numbers the builders print are the doubles: a duration is the
    rounded difference. *)
Example cutVideo_prints_the_rounded_difference :
  cutVideo "in.mp4" "out.mp4" (Js.double 0.1) (Js.double 0.3)
  = "ffmpeg -i " +:+ Js.quoted "in.mp4" +:+ " -ss 0.1 -t 0.19999999999999998 -c copy "
    +:+ Js.quoted "out.mp4".
Proof. vm_compute. reflexivity. Qed.

(** C8, at the input where the code departs from it, and what a call of
    a builder produces in general.  Called with one caption, no effects
    and the default options, [generateCompleteEditingPipeline] returns no
    list of commands: it throws a [TypeError], because the destructured
    option [normalizeAudio] hides the builder of that name which the body
    calls.  For every implementation of numbers: every builder but the
    pipeline returns one command string for all arguments; the pipeline
    returns a list of commands when [options.normalizeAudio] is [false],
    and throws that error for all other options.  No builder takes a
    clock, a random source or a store: each is a function of its
    arguments. *)
Theorem builders_return_or_throw :
  generateCompleteEditingPipeline "in.mp4" "out.mp4" [Samples.bracketCaption] []
    Samples.plainStyle Samples.defaultOptions
  = Threw (Js.ErrorObj "normalizeAudio is not a function") /\
  forall (num : Type) (N : JsNumber num) (c : Call),
    match c with
    | CallGenerateCompleteEditingPipeline i o cs es s opts =>
        (o_normalizeAudio opts <> Some false ->
         invoke c = Exception (Js.ErrorObj "normalizeAudio is not a function")) /\
        (o_normalizeAudio opts = Some false ->
         exists l, invoke c = Commands l /\ (2 <= length l)%nat)
    | _ => exists s, invoke c = Command s
    end.
Proof.
  split; [reflexivity|]. intros num N c.
  destruct c; try (eexists; reflexivity).
  cbn [invoke]. unfold generateCompleteEditingPipeline. split.
  - intros Hon.
    assert (Hdef : default true (o_normalizeAudio options) = true).
    { destruct (o_normalizeAudio options) as [[]|]; [reflexivity|congruence|reflexivity]. }
    rewrite Hdef, orb_true_r.
    destruct (default true (o_removeNoise options)); reflexivity.
  - intros Hoff. rewrite Hoff.
    destruct (default true (o_removeNoise options));
      cbv beta iota zeta delta [from_option id orb].
    + destruct (negb (String.eqb _ EmptyString));
        eexists; (split; [reflexivity|rewrite !length_app; cbn; lia]).
    + eexists. split; [reflexivity|cbn; lia].
Qed.

End FfmpegFacts.

(** ** The theorems at the sample inputs *)

Module Witnesses.
Import Samples.

(** *** Captions and gaps *)

Example captions_of_twelve_words :
  map (fun c => (Analyzer.cap_text c, Analyzer.start_time c, Analyzer.end_time c))
      (Analyzer.generateCaptions (fun s => s) twelve [])
  = [ ("w0 w1 w2 w3 w4", Analyzer.start (tick 0), Analyzer.end_ (tick 4));
      ("w5 w6 w7 w8 w9", Analyzer.start (tick 5), Analyzer.end_ (tick 9));
      ("w10 w11", Analyzer.start (tick 10), Analyzer.end_ (tick 11)) ].
Proof. vm_compute. reflexivity. Qed.

(** Gaps of 1.5, 1.0, 2.5 and 2.0 seconds: the gap of exactly one second
    is no silence, the gap of exactly two seconds is a silence and no scene
    change. *)
Example silences_of_talk :
  Analyzer.detectSilences talk
  = [ Analyzer.silenceOf hello world;
      Analyzer.silenceOf again later;
      Analyzer.silenceOf later finally ].
Proof. vm_compute. reflexivity. Qed.

Example scenes_of_talk :
  Analyzer.detectScenes talk = [Analyzer.sceneOf again later].
Proof. vm_compute. reflexivity. Qed.

Lemma gap_detection_thresholds_witness :
  (In (Analyzer.silenceOf hello world) (Analyzer.detectSilences talk)
   <-> (1 < Analyzer.start world - Analyzer.end_ hello)%Q) /\
  (In (Analyzer.sceneOf hello world) (Analyzer.detectScenes talk)
   <-> (2 < Analyzer.start world - Analyzer.end_ hello)%Q).
Proof.
  destruct (GapFacts.gap_detection_thresholds talk 0 hello world eq_refl eq_refl)
    as (Hsilence & Hscene & _).
  split; [exact Hsilence|exact Hscene].
Defined.

(** *** The queue *)

Lemma wf_oneJobStore : Queue.wf oneJobStore.
Proof. apply (QueueFacts.enqueue_lane _ _ _ _ QueueFacts.wf_initial). Qed.

(** A job of priority 5 goes in front of the waiting job of priority 1; a
    second job of priority 1 goes behind it. *)
Example priority_insertion_order :
  let st1 := snd (Queue.enqueuePriority Queue.PROCESS (jobOf "urgent" 5) 200 oneJobStore) in
  let st2 := snd (Queue.enqueuePriority Queue.PROCESS (jobOf "v2" 1) 300 st1) in
  map Queue.id (Queue.lane st2 Queue.PROCESS) = ["urgent"; "v1"; "v2"].
Proof. vm_compute. reflexivity. Qed.

Lemma enqueuePriority_witness :
  Queue.wf oneJobStore /\
  (Queue.nonIncreasing (Queue.lane oneJobStore Queue.PROCESS) ->
   Queue.nonIncreasing
     (Queue.lane
        (snd (Queue.enqueuePriority Queue.PROCESS (jobOf "urgent" 5) 200 oneJobStore))
        Queue.PROCESS)).
Proof.
  split; [exact wf_oneJobStore|].
  destruct (QueueFacts.enqueuePriority_inserts_before_first_lower
              oneJobStore Queue.PROCESS (jobOf "urgent" 5) 200 wf_oneJobStore)
    as (_ & _ & Hsorted & _).
  exact Hsorted.
Defined.

(** Emptying the array that [peekQueue] returned leaves the lane alone. *)
Example peek_then_clear_the_copy :
  let '(l, st') := Queue.peekQueue Queue.PROCESS oneJobStore in
  let st'' := Queue.mutate st' l [] in
  Queue.deref st' l = Queue.lane oneJobStore Queue.PROCESS /\
  Queue.deref st'' l = [] /\
  Queue.lane st'' Queue.PROCESS = Queue.lane oneJobStore Queue.PROCESS.
Proof. vm_compute. repeat split. Qed.

Lemma peekQueue_getQueueSize_witness :
  Queue.wf oneJobStore /\
  Queue.getQueueSize Queue.PROCESS oneJobStore
  = (length (Queue.lane oneJobStore Queue.PROCESS), oneJobStore).
Proof.
  split; [exact wf_oneJobStore|].
  destruct (QueueFacts.peekQueue_getQueueSize_leave_lanes
              oneJobStore Queue.PROCESS wf_oneJobStore) as [Hsize _].
  exact Hsize.
Defined.

(** Three attempts with the default options, then the FAILED lane; the
    fourth turn sleeps. *)
Example four_turns_of_a_failing_job :
  let '(turns, st') :=
    Queue.processQueue Queue.PROCESS alwaysFails Queue.noOptions tickClock 4 oneJobStore in
  turns = [Queue.Immediately; Queue.Immediately; Queue.Immediately; Queue.Slept 1000] /\
  Queue.lane st' Queue.PROCESS = [] /\
  map (fun j => (Queue.id j, Queue.data j !! "retryCount", Queue.data j !! "error"))
      (Queue.lane st' Queue.FAILED)
  = [("v1", Some (Queue.JNum 2), Some (Queue.JStr "boom"))].
Proof. vm_compute. repeat split. Qed.

Lemma processQueue_retries_witness :
  exists st',
    Queue.processQueue Queue.PROCESS alwaysFails Queue.noOptions tickClock 3 oneJobStore
    = (repeat Queue.Immediately 3, st') /\
    Queue.lane st' Queue.PROCESS = [] /\
    Queue.lane st' Queue.FAILED
    = [Queue.failedJob
         (Queue.attempted (Queue.withCreatedAt (jobOf "v1" 1) 100) 2 tickClock)
         (Js.ErrorObj "boom") (tickClock 2)] /\
    map (fun j => (Queue.data j !! "retryCount", Queue.data j !! "error"))
        (Queue.lane st' Queue.FAILED)
    = [(Some (Queue.JNum 2), Some (Queue.JStr "boom"))].
Proof.
  destruct (QueueFacts.processQueue_retries_then_fails
              Queue.PROCESS Queue.noOptions oneJobStore
              (Queue.withCreatedAt (jobOf "v1" 1) 100) [] 3)
    as (_ & _ & Hfails & _).
  - exact wf_oneJobStore.
  - vm_compute. reflexivity.
  - reflexivity.
  - destruct (Hfails eq_refl eq_refl ltac:(discriminate) ltac:(lia)
                alwaysFails tickClock (Js.ErrorObj "boom") (fun _ _ => eq_refl))
      as [_ (st' & Hrun & Hempty & Hfailed & _)].
    exists st'. split; [exact Hrun|]. split; [exact Hempty|]. split; [exact Hfailed|].
    rewrite Hfailed. reflexivity.
Defined.

(** *** The handlers *)

(** C1 as stated fails here: a file of exactly 500 MB with an allowed MIME
    type, sent with a colors field that is not JSON, is answered with a 500
    and no video record. *)
Lemma upload_at_limit_with_bad_colors :
  Api.video badColorsForm = Some limitFile /\
  Api.size limitFile = 500 * 1024 * 1024 /\
  In (Api.type limitFile) Api.validTypes /\
  Api.POST badColorsForm uploadEnv = Api.Status500 "Unexpected end of JSON input" /\
  ~ (exists mockVideo message,
       Api.POST badColorsForm uploadEnv = Api.Status200 true mockVideo message).
Proof.
  split; [reflexivity|]. split; [reflexivity|]. split; [left; reflexivity|].
  split; [reflexivity|]. intros (v & m & E). discriminate E.
Qed.

Lemma upload_validation_witness :
  Api.video goodForm = Some limitFile /\
  exists mockVideo message,
    Api.POST goodForm uploadEnv = Api.Status200 true mockVideo message /\
    Api.title mockVideo = "clip.final" /\
    Api.format mockVideo = Some "mp4".
Proof.
  split; [reflexivity|].
  destruct (ApiFacts.upload_validation goodForm uploadEnv limitFile eq_refl) as [_ Hok].
  assert (Hsize : Api.size limitFile <= 500 * 1024 * 1024) by (vm_compute; discriminate).
  assert (Htype : In (Api.type limitFile) Api.validTypes) by (left; reflexivity).
  specialize (Hok Hsize Htype).
  change (Js.JSON_parse (Js.strOr (Api.colors goodForm) "{}"))
    with (Some (Js.JsonObject [])) in Hok.
  destruct Hok as (v & m & Hpost & _ & Htitle & _ & Hformat & _).
  exists v, m. split; [exact Hpost|]. split.
  - rewrite Htitle. reflexivity.
  - rewrite Hformat. reflexivity.
Defined.

Example upload_too_large :
  Api.POST
    {| Api.video := Some {| Api.name := "big.mp4"; Api.size := 524288001;
                            Api.type := "video/mp4" |};
       Api.style := None; Api.pace := None; Api.colors := None |} uploadEnv
  = Api.Status400 "Arquivo muito grande. Máximo: 500MB".
Proof. reflexivity. Qed.

Example upload_wrong_type :
  Api.POST
    {| Api.video := Some {| Api.name := "clip.webm"; Api.size := 1024;
                            Api.type := "video/webm" |};
       Api.style := None; Api.pace := None; Api.colors := None |} uploadEnv
  = Api.Status400 "Formato inválido. Use MP4 ou MOV".
Proof. reflexivity. Qed.

Lemma status_poll_witness :
  Api.mockProgressOf (Api.random (pollEnv 0.5)) = 51 /\
  exists step remaining,
    Api.GET "v1" (pollEnv 0.5)
    = Api.Processing Types.processing (Api.mockProgressOf (Api.random (pollEnv 0.5)))
        step remaining /\
    In step Api.steps /\ 0 <= remaining.
Proof.
  split; [reflexivity|].
  destruct (ApiFacts.status_poll_random_progress "v1" (pollEnv 0.5))
    as (_ & _ & _ & _ & Hprocessing & _).
  - discriminate.
  - unfold Js.isDouble. vm_compute. reflexivity.
  - vm_compute. discriminate.
  - vm_compute. reflexivity.
  - apply Hprocessing. vm_compute. reflexivity.
Defined.

End Witnesses.

(** ** More on the queue *)

Module QueueMore.
Import Queue QueueUse QueueFacts.

(** X1. First in, first out.  A [dequeue] on an empty lane returns [null]
    and changes nothing, and only an empty lane gives [null].  After an
    [enqueue], the next [dequeue] on that lane returns the job that was at
    the head before (the new job, stamped with the current time, when the
    lane was empty) and leaves the remaining jobs followed by the new
    one; no other lane changes. *)
Theorem enqueue_dequeue_fifo (st : Store) (q : QueueName) (job : QueueJob) (now : Z) :
  wf st ->
  (fst (dequeue q st) = None <-> lane st q = []) /\
  (lane st q = [] -> dequeue q st = (None, st)) /\
  exists st',
    dequeue q (snd (enqueue q job now st))
    = (Some (hd (withCreatedAt job now) (lane st q)), st') /\
    lane st' q = tl (lane st q ++ [withCreatedAt job now]) /\
    (forall q', q' <> q -> lane st' q' = lane st q') /\
    wf st'.
Proof.
  intros Hwf. split; [|split].
  - unfold dequeue. fold (lane st q). destruct (lane st q); cbn; split; congruence.
  - apply dequeue_nil.
  - destruct (enqueue_lane q job now st Hwf) as (Hq & Hother & Hwf1).
    set (st1 := snd (enqueue q job now st)) in *.
    destruct (lane st q) as [|j rest] eqn:Hlane.
    + destruct (dequeue_cons q (withCreatedAt job now) [] st1 Hwf1 Hq)
        as (st' & Hdq & Hq' & Hother' & Hwf').
      exists st'. split; [exact Hdq|]. split; [exact Hq'|]. split; [|exact Hwf'].
      intros q' Hne. rewrite (Hother' q' Hne). apply Hother, Hne.
    + destruct (dequeue_cons q j (rest ++ [withCreatedAt job now]) st1 Hwf1 Hq)
        as (st' & Hdq & Hq' & Hother' & Hwf').
      exists st'. split; [exact Hdq|]. split; [exact Hq'|]. split; [|exact Hwf'].
      intros q' Hne. rewrite (Hother' q' Hne). apply Hother, Hne.
Qed.

(** X2. [clearQueue] makes the lane refer to a new, empty array: the lane
    is empty afterwards and every other lane is as before, but the array
    the lane referred to is not emptied, so a reference taken before the
    call still sees the old jobs. *)
Theorem clearQueue_replaces_the_array (st : Store) (q : QueueName) :
  wf st ->
  let st' := snd (clearQueue q st) in
  lane st' q = [] /\
  (forall q', q' <> q -> lane st' q' = lane st q') /\
  inMemoryQueues st' q <> inMemoryQueues st q /\
  deref st' (inMemoryQueues st q) = lane st q /\
  wf st'.
Proof.
  intros Hwf st'. unfold st', clearQueue.
  destruct (alloc st []) as [l st1] eqn:Halloc.
  destruct (alloc_fresh st [] l st1 Hwf Halloc) as (Hsame & Hfresh & Hnew & Hlanes & Hwf1).
  cbn [snd]. unfold lane, deref in *. cbn [heap inMemoryQueues].
  assert (Hheap : forall q', heap st1 !! inMemoryQueues st q' = heap st !! inMemoryQueues st q').
  { intros q'. unfold alloc in Halloc. injection Halloc as <- <-. cbn [heap withHeap].
    rewrite lookup_insert_ne; [reflexivity|]. apply Hfresh. }
  split; [|split; [|split; [|split]]].
  - rewrite decide_True by reflexivity. exact Hnew.
  - intros q' Hne. rewrite decide_False by exact Hne. rewrite Hsame, Hheap. reflexivity.
  - rewrite decide_True by reflexivity. apply Hfresh.
  - rewrite Hheap. reflexivity.
  - destruct Hwf as [Hlive Hinj]. destruct Hwf1 as [Hlive1 _]. split; cbn [heap inMemoryQueues].
    + intros q'. destruct (decide (q' = q)) as [->|Hne].
      * specialize (Hnew). unfold alloc in Halloc. injection Halloc as <- <-.
        cbn [heap withHeap]. rewrite lookup_insert_eq. eauto.
      * rewrite Hsame, Hheap. apply Hlive.
    + intros q1 q2. destruct (decide (q1 = q)) as [->|H1], (decide (q2 = q)) as [->|H2].
      * reflexivity.
      * rewrite Hsame. intros E. exfalso. apply (Hfresh q2 E).
      * rewrite Hsame. intros E. exfalso. apply (Hfresh q1). symmetry. exact E.
      * rewrite !Hsame. apply Hinj.
Qed.

(** X3. The status table.  For a job id that names no inherited member
    of the table object, [getJobStatus] returns what the last
    [setJobStatus] for that id stored, whatever was stored before; every
    call logs one line; the status of every other id and every lane are
    untouched; in the module's initial state [getJobStatus] returns
    [null]. *)
Theorem job_status_round_trip (st : Store) (jobId : string) (s1 s2 : JobStatus) :
  JsObject.ordinaryKey jobId = true ->
  let st1 := snd (setJobStatus jobId s1 st) in
  let st2 := snd (setJobStatus jobId s2 st1) in
  getJobStatus jobId st1 = (Some s1, st1) /\
  getJobStatus jobId st2 = (Some s2, st2) /\
  statusLog st2 = statusLog st ++ [(jobId, s1); (jobId, s2)] /\
  (forall other, other <> jobId ->
     fst (getJobStatus other st2) = fst (getJobStatus other st)) /\
  (forall q, lane st2 q = lane st q) /\
  fst (getJobStatus jobId initial) = None.
Proof.
  intros _ st1 st2. unfold getJobStatus, st2, st1, setJobStatus.
  cbn [fst snd jobStatuses statusLog].
  rewrite !lookup_insert_eq, <- app_assoc. repeat split.
  intros other Hne. rewrite !lookup_insert_ne by congruence. reflexivity.
Qed.

(** One priority insertion, on the lane view. *)
Lemma enqueuePriority_step (st : Store) (q : QueueName) (job : QueueJob) (now : Z) :
  wf st ->
  let st' := snd (enqueuePriority q job now st) in
  (exists before after,
     lane st q = before ++ after /\
     lane st' q = before ++ withCreatedAt job now :: after /\
     Forall (fun j => priority job <= priority j) before /\
     match after with [] => True | j :: _ => priority j < priority job end) /\
  (forall q', q' <> q -> lane st' q' = lane st q') /\
  wf st'.
Proof.
  intros Hwf st'.
  destruct (priority_insertion_point (lane st q) job (withCreatedAt job now))
    as (before & after & Hsplit & Hins & Hbefore & Hafter).
  split; [|split].
  - exists before, after. split; [exact Hsplit|]. split; [|auto].
    rewrite <- Hins. unfold st', enqueuePriority. fold (lane st q).
    destruct (findIndex _ (lane st q)); cbn [snd]; apply lane_mutate_same.
  - intros q' Hne. unfold st', enqueuePriority.
    destruct (findIndex _ _); cbn [snd]; apply lane_mutate_other; assumption.
  - unfold st', enqueuePriority.
    destruct (findIndex _ _); cbn [snd]; apply wf_mutate, Hwf.
Qed.

Lemma filter_none {A : Type} (P : A -> Prop) `{forall x, Decision (P x)} (l : list A) :
  Forall (fun x => ~ P x) l -> filter P l = [].
Proof.
  induction 1 as [|x l Hx _ IH]; [reflexivity|].
  rewrite filter_cons_False by exact Hx. exact IH.
Qed.

(** In a sorted lane the jobs behind the insertion point are all strictly
    lower, so the jobs of each priority keep their order of arrival. *)
Lemma insertion_keeps_arrival_order (before after : list QueueJob) (x : QueueJob) (p : Z) :
  nonIncreasing (before ++ after) ->
  match after with [] => True | j :: _ => priority j < priority x end ->
  filter (fun j => priority j = p) (before ++ x :: after)
  = filter (fun j => priority j = p) (before ++ after)
    ++ (if decide (priority x = p) then [x] else []).
Proof.
  intros Hsorted Hafter.
  assert (Hlow : Forall (fun j => priority j < priority x) after).
  { apply StronglySorted_app in Hsorted as (_ & _ & Ha).
    destruct after as [|j after]; [constructor|].
    apply StronglySorted_cons in Ha as [Hj _].
    constructor; [exact Hafter|]. eapply Forall_impl; [exact Hj|]. cbn. intros; lia. }
  rewrite !filter_app, filter_cons.
  destruct (decide (priority x = p)) as [E|Hne].
  - assert (Hnone : filter (fun j => priority j = p) after = []).
    { apply filter_none. eapply Forall_impl; [exact Hlow|]. cbn. intros; lia. }
    rewrite Hnone, !app_nil_r. reflexivity.
  - rewrite app_nil_r. reflexivity.
Qed.

Lemma enqueueAllPriority_spec (q : QueueName) (arrivals : list (QueueJob * Z)) :
  forall st,
    wf st -> nonIncreasing (lane st q) ->
    let st' := snd (enqueueAllPriority q arrivals st) in
    let stamped := map (fun a => withCreatedAt (fst a) (snd a)) arrivals in
    wf st' /\
    nonIncreasing (lane st' q) /\
    Permutation (lane st' q) (lane st q ++ stamped) /\
    (forall p, filter (fun j => priority j = p) (lane st' q)
               = filter (fun j => priority j = p) (lane st q ++ stamped)) /\
    (forall q', q' <> q -> lane st' q' = lane st q').
Proof.
  induction arrivals as [|[job now] arrivals IH]; intros st Hwf Hsorted.
  - cbn. rewrite app_nil_r.
    split; [exact Hwf|]. split; [exact Hsorted|]. split; [reflexivity|].
    split; reflexivity.
  - destruct (enqueuePriority_step st q job now Hwf)
      as ((before & after & Hsplit & Hins & Hbefore & Hafter) & Hother1 & Hwf1).
    set (st1 := snd (enqueuePriority q job now st)) in *.
    assert (Hsorted1 : nonIncreasing (lane st1 q)).
    { rewrite Hins. rewrite Hsplit in Hsorted.
      apply (nonIncreasing_insert before after _ (priority job)); auto. }
    destruct (IH st1 Hwf1 Hsorted1) as (Hwf' & Hsorted' & Hperm' & Hfilter' & Hother').
    assert (Hrun : snd (enqueueAllPriority q ((job, now) :: arrivals) st)
                   = snd (enqueueAllPriority q arrivals st1)).
    { unfold enqueueAllPriority. cbn [Eff.forEach fst snd]. unfold Eff.bind at 1.
      unfold st1. destruct (enqueuePriority q job now st) as [[] s]. reflexivity. }
    cbv zeta. rewrite Hrun. cbn [map fst snd].
    split; [exact Hwf'|]. split; [exact Hsorted'|]. split; [|split].
    + rewrite Hperm', Hins, Hsplit. rewrite <- !app_assoc.
      apply Permutation_app_head. cbn [app]. apply Permutation_middle.
    + intros p. rewrite Hfilter'. rewrite !filter_app. rewrite Hins.
      rewrite (insertion_keeps_arrival_order before after _ p);
        [|rewrite <- Hsplit; exact Hsorted|exact Hafter].
      rewrite <- Hsplit. rewrite filter_cons. cbn [priority withCreatedAt].
      rewrite <- !app_assoc. f_equal.
      destruct (decide (priority job = p)); reflexivity.
    + intros q' Hne. rewrite (Hother' q' Hne). apply Hother1, Hne.
Qed.

(** X4. The priority lane.  Starting from a lane in non-increasing
    priority order, any series of [enqueuePriority] calls leaves a lane in
    non-increasing priority order that holds the old jobs and the new ones
    (each stamped with its time of arrival), the jobs of any one priority
    in their order of arrival; no other lane changes.  On such a lane
    [dequeuePriority] returns a job whose priority is not lower than that
    of any job it leaves behind. *)
Theorem priority_lane_discipline
    (st : Store) (q : QueueName) (arrivals : list (QueueJob * Z)) :
  wf st ->
  nonIncreasing (lane st q) ->
  let st' := snd (enqueueAllPriority q arrivals st) in
  let stamped := map (fun a => withCreatedAt (fst a) (snd a)) arrivals in
  nonIncreasing (lane st' q) /\
  Permutation (lane st' q) (lane st q ++ stamped) /\
  (forall p, filter (fun j => priority j = p) (lane st' q)
             = filter (fun j => priority j = p) (lane st q ++ stamped)) /\
  (forall q', q' <> q -> lane st' q' = lane st q') /\
  (forall j rest,
     lane st' q = j :: rest ->
     exists st'',
       dequeuePriority q st' = (Some j, st'') /\
       lane st'' q = rest /\
       Forall (fun j' => priority j' <= priority j) rest /\
       nonIncreasing rest).
Proof.
  intros Hwf Hsorted st' stamped.
  destruct (enqueueAllPriority_spec q arrivals st Hwf Hsorted)
    as (Hwf' & Hsorted' & Hperm & Hfilter & Hother).
  split; [exact Hsorted'|]. split; [exact Hperm|]. split; [exact Hfilter|].
  split; [exact Hother|].
  intros j rest Hlane. fold st' in Hsorted', Hwf'.
  destruct (dequeue_cons q j rest st' Hwf' Hlane) as (st'' & Hdq & Hq & _ & _).
  exists st''. split; [exact Hdq|]. split; [exact Hq|].
  rewrite Hlane in Hsorted'. apply StronglySorted_cons in Hsorted' as [Hall Hrest].
  split; [exact Hall|exact Hrest].
Qed.

Lemma totalJobs_lanes (st : Store) :
  totalJobs st
  = (length (lane st UPLOAD) + length (lane st PROCESS) + length (lane st RENDER)
     + length (lane st COMPLETED) + length (lane st FAILED))%nat.
Proof. reflexivity. Qed.

(** X5. A turn of the worker neither loses nor duplicates a job: with a
    processor that only signals its outcome, and no string stored under
    [retryCount], the number of jobs in all lanes together is the same
    after the turn as before, and [getQueueStats] leaves the store as it
    is. *)
Theorem processQueueTurn_conserves_jobs
    (q : QueueName) (processor : QueueJob -> M (option Js.Thrown))
    (options : Options) (now : Z) (st : Store) :
  wf st ->
  (forall job, exists outcome, forall s, processor job s = (outcome, s)) ->
  (forall job, In job (lane st q) -> nextRetryCount (data job) <> None) ->
  totalJobs (snd (processQueueTurn q processor options now st)) = totalJobs st /\
  wf (snd (processQueueTurn q processor options now st)) /\
  snd (getQueueStats st) = st.
Proof.
  intros Hwf Hproc Hcount. split; [|split; [|reflexivity]].
  - destruct (lane st q) as [|job rest] eqn:Hlane.
    + rewrite (processQueueTurn_empty q processor options now st Hlane). reflexivity.
    + destruct (Hproc job) as [outcome Hout].
      assert (Hex : exists target x st',
        processQueueTurn q processor options now st = (Immediately, st') /\
        forall q', lane st' q' =
          (if decide (q' = q) then rest else lane st q')
          ++ (if decide (q' = target) then [withCreatedAt x now] else [])).
      { destruct outcome as [e|].
        - destruct (nextRetryCount (data job)) as [rc|] eqn:Hrc;
            [|exfalso; apply (Hcount job); [left; reflexivity|exact Hrc]].
          destruct (rc <? default 3 (maxRetries options)) eqn:Hlt.
          + destruct (processQueueTurn_head q processor options now st job rest (Some e)
                        Hwf Hlane Hout q
                        (withData job (<["retryCount" := JNum rc]> (data job))))
              as (st' & Hturn & _ & Hl); [exists rc; rewrite Hlt; auto|].
            eexists _, _, st'. split; [exact Hturn|exact Hl].
          + destruct (processQueueTurn_head q processor options now st job rest (Some e)
                        Hwf Hlane Hout FAILED
                        (withData job
                           (<["error" := JStr (Js.messageOr "Unknown error" e)]>
                              (data job))))
              as (st' & Hturn & _ & Hl); [exists rc; rewrite Hlt; auto|].
            eexists _, _, st'. split; [exact Hturn|exact Hl].
        - destruct (processQueueTurn_head q processor options now st job rest None
                      Hwf Hlane Hout COMPLETED job (conj eq_refl eq_refl))
            as (st' & Hturn & _ & Hl).
          eexists _, _, st'. split; [exact Hturn|exact Hl]. }
      destruct Hex as (target & x & st' & Hturn & Hl).
      rewrite Hturn. cbn [snd]. rewrite !totalJobs_lanes, !Hl.
      destruct q, target; cbn [decide decide_rel QueueName_eq_dec];
        repeat match goal with
               | |- context [decide (?a = ?b)] =>
                   destruct (decide (a = b)); try congruence
               end;
        rewrite ?Hlane, ?length_app; cbn [length]; lia.
  - destruct (lane st q) as [|job rest] eqn:Hlane.
    + rewrite (processQueueTurn_empty q processor options now st Hlane). exact Hwf.
    + destruct (Hproc job) as [outcome Hout].
      destruct outcome as [e|].
      * destruct (nextRetryCount (data job)) as [rc|] eqn:Hrc;
          [|exfalso; apply (Hcount job); [left; reflexivity|exact Hrc]].
        destruct (rc <? default 3 (maxRetries options)) eqn:Hlt.
        -- destruct (processQueueTurn_head q processor options now st job rest (Some e)
                       Hwf Hlane Hout q
                       (withData job (<["retryCount" := JNum rc]> (data job))))
             as (st' & Hturn & Hwf' & _); [exists rc; rewrite Hlt; auto|].
           rewrite Hturn. exact Hwf'.
        -- destruct (processQueueTurn_head q processor options now st job rest (Some e)
                       Hwf Hlane Hout FAILED
                       (withData job
                          (<["error" := JStr (Js.messageOr "Unknown error" e)]>
                             (data job))))
             as (st' & Hturn & Hwf' & _); [exists rc; rewrite Hlt; auto|].
           rewrite Hturn. exact Hwf'.
      * destruct (processQueueTurn_head q processor options now st job rest None
                    Hwf Hlane Hout COMPLETED job (conj eq_refl eq_refl))
          as (st' & Hturn & Hwf' & _).
        rewrite Hturn. exact Hwf'.
Qed.

(** X6. An idle worker.  On an empty lane every turn sleeps for the poll
    interval (a second when the option is absent), the processor is never
    called and the store does not change. *)
Theorem processQueue_idle
    (q : QueueName) (processor : QueueJob -> M (option Js.Thrown))
    (options : Options) (st : Store) :
  lane st q = [] ->
  forall n clock,
    processQueue q processor options clock n st
    = (repeat (Slept (default 1000 (pollInterval options))) n, st).
Proof.
  intros Hlane. induction n as [|n IH]; intros clock; [reflexivity|].
  cbn [processQueue repeat]. unfold Eff.bind at 1.
  rewrite (processQueueTurn_empty q processor options (clock O) st Hlane).
  unfold Eff.bind at 1. rewrite IH. reflexivity.
Qed.

End QueueMore.

(** ** More on the analyzer *)

Module AnalyzerMoreFacts.
Import Analyzer AnalyzerMore AnalyzerFacts GapFacts.

(** X7. The number of captions is the number of words divided by five,
    rounded up: five times the count covers the words and exceeds them by
    less than five.  A transcription without words gives no caption. *)
Theorem generateCaptions_count toLowerCase (t : Transcription) (kws : list string) :
  let c := length (generateCaptions toLowerCase t kws) in
  (length (words t) <= 5 * c < length (words t) + 5)%nat /\
  (words t = [] -> generateCaptions toLowerCase t kws = []).
Proof.
  assert (Hloop : forall fuel i, (length (words t) - i <= fuel)%nat ->
    let c := length (captionsFrom toLowerCase kws (words t) fuel i) in
    (length (words t) - i <= 5 * c < length (words t) - i + 5)%nat).
  { induction fuel as [|fuel IH]; intros i Hfuel; cbn [captionsFrom].
    - cbn. lia.
    - destruct (Nat.ltb_spec i (length (words t))) as [Hlt|Hge]; [|cbn; lia].
      assert (Hne : Js.slice (words t) i (i + wordsPerCaption) <> []).
      { intros E. apply (f_equal length) in E. unfold Js.slice in E.
        rewrite length_take, length_drop in E. unfold wordsPerCaption in E.
        cbn [length] in E. lia. }
      destruct (captionOf_nonempty toLowerCase kws _ Hne) as (cap & _ & _ & Hcap & _).
      rewrite Hcap. cbn [length].
      specialize (IH (i + wordsPerCaption)%nat ltac:(unfold wordsPerCaption; lia)).
      unfold wordsPerCaption in *. cbv zeta in IH. lia. }
  intros c. split.
  - specialize (Hloop (length (words t)) O ltac:(lia)). cbv zeta in Hloop.
    unfold c, generateCaptions. lia.
  - intros E. unfold generateCaptions. rewrite E. reflexivity.
Qed.

(** The highlighted words of the loop from index [i]. *)
Lemma captionsFrom_highlights toLowerCase kws ws :
  forall fuel i, (length ws - i <= fuel)%nat ->
  concat (map highlight_words (captionsFrom toLowerCase kws ws fuel i))
  = map word
      (List.filter (fun w => Js.includes kws (toLowerCase (word w))) (drop i ws)) /\
  Forall (fun cap => is_highlighted cap = true <-> highlight_words cap <> [])
         (captionsFrom toLowerCase kws ws fuel i).
Proof.
  induction fuel as [|fuel IH]; intros i Hfuel; cbn [captionsFrom].
  - rewrite drop_ge by lia. split; [reflexivity|constructor].
  - destruct (Nat.ltb_spec i (length ws)) as [Hlt|Hge];
      [|rewrite drop_ge by lia; split; [reflexivity|constructor]].
    set (c := Js.slice ws i (i + wordsPerCaption)).
    assert (Hc : c = take wordsPerCaption (drop i ws)).
    { unfold c, Js.slice. f_equal. lia. }
    assert (Hsplit : drop i ws = c ++ drop (i + wordsPerCaption) ws).
    { rewrite Hc.
      transitivity (take wordsPerCaption (drop i ws) ++ drop wordsPerCaption (drop i ws));
        [symmetry; apply take_drop|].
      f_equal. rewrite drop_drop. reflexivity. }
    destruct (IH (i + wordsPerCaption)%nat ltac:(unfold wordsPerCaption; lia))
      as [IHwords IHflag].
    destruct c as [|w0 rest] eqn:Ec.
    + cbn [captionOf]. rewrite Hsplit. cbn [app]. split; [exact IHwords|exact IHflag].
    + cbn [captionOf map concat highlight_words]. split.
      * rewrite IHwords, Hsplit, List.filter_app, map_app. reflexivity.
      * constructor; [|exact IHflag]. cbn [is_highlighted highlight_words].
        match goal with
        | |- context [length ?l] => generalize l
        end.
        intros [|h tl]; cbn; split; intros H; try discriminate; try reflexivity.
        exfalso. apply H. reflexivity.
Qed.

(** X8. Highlighting.  The highlighted words of all captions, read in
    order, are exactly the words of the transcription whose lower-case form
    is one of the keywords, in the order of the transcription; a caption
    is flagged as highlighted exactly when it has a highlighted word.  With
    no keywords nothing is highlighted. *)
Theorem generateCaptions_highlights toLowerCase (t : Transcription) (kws : list string) :
  let captions := generateCaptions toLowerCase t kws in
  concat (map highlight_words captions)
  = map word (List.filter (fun w => Js.includes kws (toLowerCase (word w))) (words t)) /\
  Forall (fun cap => is_highlighted cap = true <-> highlight_words cap <> []) captions /\
  (kws = [] ->
   Forall (fun cap => is_highlighted cap = false /\ highlight_words cap = []) captions).
Proof.
  intros captions.
  destruct (captionsFrom_highlights toLowerCase kws (words t) (length (words t)) O
              ltac:(lia)) as [Hwords Hflag].
  rewrite drop_0 in Hwords. fold (generateCaptions toLowerCase t kws) in Hwords, Hflag.
  split; [exact Hwords|]. split; [exact Hflag|].
  intros ->. fold captions in Hwords, Hflag.
  assert (Hnone : concat (map highlight_words captions) = []).
  { rewrite Hwords. clear. induction (words t) as [|w ws IH]; [reflexivity|exact IH]. }
  clear Hwords. induction captions as [|cap captions IH]; [constructor|].
  cbn [map concat] in Hnone. apply app_eq_nil in Hnone as [Hcap Hrest].
  inversion Hflag as [|? ? Hiff Hflag']; subst.
  constructor; [|apply IH; assumption].
  split; [|exact Hcap].
  destruct (is_highlighted cap); [|reflexivity].
  exfalso. apply Hiff; [reflexivity|exact Hcap].
Qed.

(** *** Caption times *)

Lemma StronglySorted_sublist {A : Type} (R : relation A) (l1 l2 : list A) :
  l1 `sublist_of` l2 -> StronglySorted R l2 -> StronglySorted R l1.
Proof.
  induction 1 as [|x l1 l2 Hsub IH|x l1 l2 Hsub IH]; intros Hsorted.
  - constructor.
  - apply StronglySorted_cons in Hsorted as [Hall Hrest].
    apply StronglySorted_cons. split; [|apply IH, Hrest].
    rewrite Forall_forall in *. intros y Hy. apply Hall.
    eapply elem_of_sublist; eassumption.
  - apply StronglySorted_cons in Hsorted as [_ Hrest]. apply IH, Hrest.
Qed.

Lemma last_end_in_wordTimes (l : list TranscriptionWord) (wl : TranscriptionWord) :
  last l = Some wl -> [end_ wl] `sublist_of` wordTimes l.
Proof.
  induction l as [|w l IH]; [discriminate|].
  destruct l as [|w' l].
  - intros [= ->]. cbn. apply sublist_cons, sublist_skip, sublist_nil.
  - intros Hlast. change (last (w :: w' :: l)) with (last (w' :: l)) in Hlast.
    cbn [wordTimes flat_map app] in *. do 2 apply sublist_cons. apply IH, Hlast.
Qed.

Lemma caption_in_wordTimes (c : list TranscriptionWord) (cap : CaptionOut) :
  captionFor c cap -> [start_time cap; end_time cap] `sublist_of` wordTimes c.
Proof.
  intros (w0 & wl & Hhd & Hlast & _ & -> & ->).
  destruct c as [|w c]; [discriminate|]. injection Hhd as ->.
  destruct c as [|w' c].
  - injection Hlast as <-. cbn. do 2 apply sublist_skip. apply sublist_nil.
  - change (last (w0 :: w' :: c)) with (last (w' :: c)) in Hlast.
    cbn [wordTimes flat_map app]. apply sublist_skip, sublist_cons.
    apply (last_end_in_wordTimes (w' :: c)), Hlast.
Qed.

Lemma captionTimes_sublist chunks caps :
  Forall2 captionFor chunks caps ->
  captionTimes caps `sublist_of` wordTimes (concat chunks).
Proof.
  induction 1 as [|c cap chunks caps Hcap _ IH]; [constructor|].
  unfold captionTimes, wordTimes in *. cbn [flat_map concat].
  rewrite flat_map_app. apply sublist_app; [|exact IH].
  apply caption_in_wordTimes, Hcap.
Qed.

(** X9. Captions keep the order of time.  If the times of the words never
    go back (each word ends no earlier than it starts and no later than
    the next one starts), then neither do the times of the captions: each
    caption ends no earlier than it starts, and no later than the next
    caption starts. *)
Theorem captions_keep_time_order toLowerCase (t : Transcription) (kws : list string) :
  ascending (wordTimes (words t)) ->
  ascending (captionTimes (generateCaptions toLowerCase t kws)).
Proof.
  intros Hsorted. unfold generateCaptions.
  destruct (captionsFrom_chunks toLowerCase kws (words t) (length (words t)) 0)
    as (chunks & Hcat & _ & _ & Hcaps); [lia|].
  rewrite drop_0 in Hcat. rewrite <- Hcat in Hsorted.
  eapply StronglySorted_sublist; [|exact Hsorted].
  apply captionTimes_sublist, Hcaps.
Qed.

(** *** Silences and scene changes *)

Lemma gapsFrom_length {A : Type} (threshold : Q) (mk : _ -> _ -> A) ws :
  forall n i, (length (gapsFrom threshold mk ws n i) <= n)%nat.
Proof.
  induction n as [|n IH]; intros i; cbn [gapsFrom]; [cbn; lia|].
  destruct (ws !! (i - 1)%nat), (ws !! i); cbn [length]; try lia.
  destruct (Qlt_le_dec _ _); cbn [length]; specialize (IH (S i)); lia.
Qed.

Lemma scenes_fewer_than_silences ws :
  forall n i,
    (length (gapsFrom 2 sceneOf ws n i) <= length (gapsFrom 1 silenceOf ws n i))%nat.
Proof.
  induction n as [|n IH]; intros i; cbn [gapsFrom]; [cbn; lia|].
  destruct (ws !! (i - 1)%nat) as [p|], (ws !! i) as [w|]; cbn [length]; try lia.
  specialize (IH (S i)).
  destruct (Qlt_le_dec 2 _) as [H2|H2], (Qlt_le_dec 1 _) as [H1|H1]; cbn [length]; try lia.
  exfalso. lra.
Qed.

(** X10. Reported silences.  Every silence [detectSilences] reports has a
    duration above one second, the duration being the difference of its
    end and its start as the code computes it (rounded to a double); its
    start is the end of one word, its end the start of the next, and the
    end is strictly later than the start.  There is at most one silence
    per pair of neighbouring words, so a transcription of fewer than two
    words has neither silences nor scene changes. *)
Theorem detectSilences_reports (t : Transcription) :
  Forall (fun s =>
            (1 < sp_duration s)%Q /\
            sp_duration s = Js.fsub (sp_end s) (sp_start s) /\
            (sp_start s < sp_end s)%Q /\
            exists j p w,
              words t !! j = Some p /\ words t !! S j = Some w /\
              sp_start s = end_ p /\ sp_end s = start w)
         (detectSilences t) /\
  (length (detectSilences t) <= length (words t) - 1)%nat /\
  ((length (words t) < 2)%nat -> detectSilences t = [] /\ detectScenes t = []).
Proof.
  split; [|split].
  - rewrite Forall_forall. intros s Hs. apply list_elem_of_In in Hs.
    unfold detectSilences in Hs. rewrite silencesFrom_gapsFrom in Hs.
    destruct (words t) as [|w0 ws] eqn:Hws; [contradiction|].
    rewrite In_gapsFrom in Hs by (cbn [length]; lia).
    destruct Hs as (p & w & (j & Hj & Hp & Hw) & Hgap & ->).
    cbn [silenceOf sp_duration sp_end sp_start]. split; [exact Hgap|].
    split; [reflexivity|]. split.
    { pose proof (DoubleFacts.fl_gt_double _ 1 DoubleFacts.isDouble_1 Hgap). lra. }
    exists (j - 1)%nat, p, w. split; [exact Hp|]. split; [|split; reflexivity].
    replace (S (j - 1)) with j by lia. exact Hw.
  - unfold detectSilences. rewrite silencesFrom_gapsFrom. apply gapsFrom_length.
  - intros Hshort. unfold detectSilences, detectScenes.
    replace (length (words t) - 1)%nat with O by lia. split; reflexivity.
Qed.

(** X11. Reported scene changes.  When the times of the words are doubles,
    every scene change [detectScenes] reports belongs to a silence that
    [detectSilences] reports, one that lasts more than two seconds: its
    timestamp is the start of the silence plus half its duration, as the
    code computes them, and lies between the start and the end of the
    silence; it is of type fade, and its confidence is a fifth of the
    duration capped at 1, at least the double nearest to 0.4.  So there
    are never more scene changes than silences. *)
Theorem detectScenes_reports (t : Transcription) :
  Forall (fun w => Js.isDouble (start w) /\ Js.isDouble (end_ w)) (words t) ->
  (forall c, In c (detectScenes t) ->
     exists s,
       In s (detectSilences t) /\
       (2 < sp_duration s)%Q /\
       sc_timestamp c = Js.fadd (sp_start s) (Js.fdiv (sp_duration s) 2) /\
       (sp_start s <= sc_timestamp c <= sp_end s)%Q /\
       sc_type c = fade /\
       sc_confidence c = Qmin (Js.fdiv (sp_duration s) 5) 1 /\
       (Js.double 0.4 <= sc_confidence c <= 1)%Q) /\
  (length (detectScenes t) <= length (detectSilences t))%nat.
Proof.
  intros Hdoubles. split.
  - intros c Hc. unfold detectScenes in Hc. rewrite scenesFrom_gapsFrom in Hc.
    destruct (words t) as [|w0 ws] eqn:Hws; [contradiction|].
    rewrite In_gapsFrom in Hc by (cbn [length]; lia).
    destruct Hc as (p & w & Hadj & Hgap & ->).
    assert (Hpw : Js.isDouble (end_ p) /\ Js.isDouble (start w)).
    { destruct Hadj as (j & _ & Hp & Hw). rewrite Forall_forall in Hdoubles.
      split.
      - apply (Hdoubles p). eapply list_elem_of_lookup_2, Hp.
      - apply (Hdoubles w). eapply list_elem_of_lookup_2, Hw. }
    destruct Hpw as [Hend Hstart].
    set (g := Js.fsub (start w) (end_ p)) in *.
    assert (Hexact : (2 < start w - end_ p)%Q).
    { apply (DoubleFacts.fl_gt_double _ 2 DoubleFacts.isDouble_2 Hgap). }
    exists (silenceOf p w).
    cbn [silenceOf sceneOf sc_timestamp sc_type sc_confidence sp_start sp_end sp_duration].
    fold g.
    split; [|split; [exact Hgap|split; [reflexivity|split; [|split; [reflexivity|split;
      [reflexivity|]]]]]].
    + unfold detectSilences. rewrite Hws, silencesFrom_gapsFrom.
      rewrite In_gapsFrom by (cbn [length]; lia).
      exists p, w. split; [exact Hadj|]. split; [fold g; lra|reflexivity].
    + assert (Hhalf0 : (0 <= Js.fdiv g 2)%Q).
      { apply DoubleFacts.fl_nonneg. unfold Qdiv. change (/ 2)%Q with (1 # 2)%Q. lra. }
      assert (Hhalf : (Js.fdiv g 2 <= start w - end_ p)%Q).
      { apply DoubleFacts.fl_half_le. lra. }
      split.
      * apply DoubleFacts.fl_ge_double; [exact Hend|lra].
      * apply DoubleFacts.fl_le_double; [exact Hstart|lra].
    + assert (Hlow : (Js.double 0.4 <= Js.fdiv g 5)%Q).
      { apply DoubleFacts.fl_monotone. unfold Qdiv. change (/ 5)%Q with (1 # 5)%Q. lra. }
      assert (Hone : (Js.double 0.4 <= 1)%Q) by (vm_compute; discriminate).
      destruct (Q.min_spec (Js.fdiv g 5) 1) as [[Hlt E]|[Hle E]]; rewrite E; split; lra.
  - unfold detectScenes, detectSilences.
    rewrite scenesFrom_gapsFrom, silencesFrom_gapsFrom.
    apply scenes_fewer_than_silences.
Qed.

(** *** Volume peaks *)

(** The volume is the double the code computes: for the draw 0.25 it is
    not 0.85 but the next double above it. *)
Example volume_of_a_quarter :
  Js.Number_toString (Js.fadd (Js.double 0.8) (Js.fmul 0.25 (Js.double 0.2)))
  = "0.8500000000000001".
Proof. vm_compute. reflexivity. Qed.

(** X12. Simulated volume peaks.  With draws in [0, 1), [detectVolumePeaks]
    reports one peak for every word that equals its upper-case form or
    contains an exclamation or question mark, in the order of the words
    and at the start of the word; the volume of the k-th peak is computed
    from the k-th draw as [0.8 + draw * 0.2] in doubles, and lies between
    the double nearest to 0.8 and 1. *)
Theorem detectVolumePeaks_reports toUpperCase (t : Transcription) (random : nat -> Q) :
  (forall k, (0 <= random k < 1)%Q) ->
  let peaks := detectVolumePeaks toUpperCase t random in
  map vp_timestamp peaks
  = map start (List.filter (hasEmphasis toUpperCase) (words t)) /\
  map vp_volume peaks
  = map (fun k => Js.fadd (Js.double 0.8) (Js.fmul (random k) (Js.double 0.2)))
        (seq 0 (length peaks)) /\
  Forall (fun p => (Js.double 0.8 <= vp_volume p <= 1)%Q) peaks.
Proof.
  intros Hdraw peaks. unfold peaks, detectVolumePeaks. generalize O as k.
  induction (words t) as [|w ws IH]; intros k; cbn [peaksFrom List.filter].
  - repeat split. constructor.
  - destruct (IH k) as (IHt & IHv & IHb). destruct (IH (S k)) as (IHt' & IHv' & IHb').
    destruct (hasEmphasis toUpperCase w).
    + cbn [map vp_timestamp vp_volume length seq]. split; [|split].
      * f_equal. exact IHt'.
      * f_equal. rewrite IHv'. rewrite <- seq_shift, map_map. reflexivity.
      * constructor; [|exact IHb']. cbn [vp_volume]. specialize (Hdraw k).
        assert (Hfifth : (0 < Js.double 0.2)%Q) by (vm_compute; reflexivity).
        assert (Hd2 : Js.isDouble (Js.double 0.2)) by DoubleFacts.double_constant.
        assert (Hd8 : Js.isDouble (Js.double 0.8)) by DoubleFacts.double_constant.
        assert (Hsum : (Js.fl (Js.double 0.8 + Js.double 0.2) == 1)%Q)
          by (vm_compute; reflexivity).
        assert (Hprod : (0 <= Js.fmul (random k) (Js.double 0.2) <= Js.double 0.2)%Q).
        { split.
          - apply DoubleFacts.fl_nonneg. apply Qmult_le_0_compat; lra.
          - apply DoubleFacts.fl_le_double; [exact Hd2|].
            rewrite <- (Qmult_1_l (Js.double 0.2)) at 2.
            apply Qmult_le_compat_r; lra. }
        split.
        -- apply DoubleFacts.fl_ge_double; [exact Hd8|lra].
        -- rewrite <- Hsum. apply DoubleFacts.fl_monotone. lra.
    + split; [exact IHt|]. split; [|exact IHb].
      rewrite IHv. reflexivity.
Qed.

End AnalyzerMoreFacts.

(** ** More on the JavaScript primitives *)

Module JsMore.
Import TextUse.

Lemma allChars_append (p : ascii -> bool) (s1 s2 : string) :
  Js.allChars p (s1 +:+ s2) = Js.allChars p s1 && Js.allChars p s2.
Proof.
  induction s1 as [|c s1 IH]; [reflexivity|].
  change (String c s1 +:+ s2) with (String c (s1 +:+ s2)).
  cbn [Js.allChars]. rewrite IH. destruct (p c); reflexivity.
Qed.

Lemma allChars_weaken (p p' : ascii -> bool) (s : string) :
  (forall c, p c = true -> p' c = true) ->
  Js.allChars p s = true -> Js.allChars p' s = true.
Proof.
  intros Himp. induction s as [|c s IH]; [reflexivity|]. cbn.
  intros [Hc Hs]%andb_prop. rewrite (Himp c Hc), (IH Hs). reflexivity.
Qed.

(** A text without a dot has no extension to replace. *)
Lemma replaceExt_dotless (excluded : ascii -> bool) (r s : string) :
  dotless s = true -> Js.replaceExt excluded r s = s.
Proof.
  unfold dotless. induction s as [|c s IH]; [reflexivity|]. cbn.
  intros [Hc Hs]%andb_prop. destruct (Ascii.eqb c "."); [discriminate|].
  cbn. rewrite (IH Hs). reflexivity.
Qed.

(** The extension of [base.ext]: everything from the last dot on. *)
Lemma replaceExt_extension (excluded : ascii -> bool) (r base ext : string) :
  ext <> EmptyString ->
  Js.allChars (fun d => negb (Ascii.eqb d "." || excluded d)) ext = true ->
  Js.replaceExt excluded r (base +:+ String "." ext) = base +:+ r.
Proof.
  intros Hne Hext. induction base as [|c base IH].
  - change (EmptyString +:+ String "." ext) with (String "." ext).
    change (EmptyString +:+ r) with r. cbn [Js.replaceExt].
    destruct ext as [|e ext]; [congruence|]. rewrite Hext. reflexivity.
  - change (String c base +:+ String "." ext)
      with (String c (base +:+ String "." ext)).
    change (String c base +:+ r) with (String c (base +:+ r)).
    cbn [Js.replaceExt]. rewrite IH.
    assert (Hdot : Js.allChars (fun d => negb (Ascii.eqb d "." || excluded d))
                     (base +:+ String "." ext) = false).
    { rewrite allChars_append. cbn [Js.allChars]. rewrite Ascii.eqb_refl.
      cbn [orb negb andb]. apply andb_false_r. }
    rewrite Hdot, andb_false_r. reflexivity.
Qed.

End JsMore.

(** ** More on the command-string builders *)

Module FfmpegMore.
Import Ffmpeg FfmpegFacts TextUse.

(** Escaping loses nothing: when the backslash is itself escaped, two
    texts with the same escaped form are the same text. *)
Lemma escapeEach_injective (special : ascii -> bool) :
  special "\"%char = true ->
  forall s1 s2, escapeEach special s1 = escapeEach special s2 -> s1 = s2.
Proof.
  intros Hbs. induction s1 as [|c1 s1 IH]; intros [|c2 s2]; cbn [escapeEach].
  - reflexivity.
  - destruct (special c2); discriminate.
  - destruct (special c1); discriminate.
  - destruct (special c1) eqn:H1, (special c2) eqn:H2; intros E.
    + injection E as -> E. f_equal. apply IH, E.
    + injection E as <- E. congruence.
    + injection E as -> E. congruence.
    + injection E as -> E. f_equal. apply IH, E.
Qed.

Lemma escapeEach_length (special : ascii -> bool) (s : string) :
  String.length (escapeEach special s) = (String.length s + countChars special s)%nat.
Proof.
  induction s as [|c s IH]; [reflexivity|].
  cbn [escapeEach countChars]. destruct (special c); cbn [String.length]; rewrite IH; lia.
Qed.

(** X13. The caption filter carries the caption text between single
    quotes with a backslash put before every backslash, single quote,
    colon and square bracket and nothing else changed: the five
    replacements, applied one after the other, never escape a character
    twice.  The escaped text is longer by one character per escaped
    character, and two different texts never have the same escaped text. *)
Theorem caption_text_escaping {num : Type} `{JsNumber num}
    (caption : Caption) (w h : option num) (style : Types.StyleConfig) :
  (exists before after,
     generateCaptionFilter caption w h style
     = before +:+ ":text='" +:+ escapeEach captionSpecial (text caption) +:+ "'"
       +:+ after) /\
  (forall s, escapeCaptionText s = escapeEach captionSpecial s) /\
  (forall s, String.length (escapeCaptionText s)
             = (String.length s + countChars captionSpecial s)%nat) /\
  (forall s1 s2, escapeCaptionText s1 = escapeCaptionText s2 -> s1 = s2).
Proof.
  split; [apply generateCaptionFilter_text|].
  split; [apply escapeCaptionText_escapeEach|]. split.
  - intros s. rewrite escapeCaptionText_escapeEach. apply escapeEach_length.
  - intros s1 s2. rewrite !escapeCaptionText_escapeEach.
    apply escapeEach_injective. reflexivity.
Qed.

(** X14. The title escaping of [generateViralThumbnail] puts a backslash
    before every backslash, single quote and colon, and leaves every other
    character, square brackets included, as it is; two different titles
    never have the same escaped title. *)
Theorem title_escaping (title : string) :
  escapeTitle title = escapeEach titleSpecial title /\
  String.length (escapeTitle title)
  = (String.length title + countChars titleSpecial title)%nat /\
  (countChars titleSpecial title = O -> escapeTitle title = title) /\
  (forall other, escapeTitle title = escapeTitle other -> title = other).
Proof.
  split; [apply escapeTitle_escapeEach|]. split; [|split].
  - rewrite escapeTitle_escapeEach. apply escapeEach_length.
  - rewrite escapeTitle_escapeEach. induction title as [|c s IH]; [reflexivity|].
    cbn [countChars escapeEach]. destruct (titleSpecial c); [discriminate|].
    cbn. intros Hs. rewrite (IH Hs). reflexivity.
  - intros other. rewrite !escapeTitle_escapeEach.
    apply escapeEach_injective. reflexivity.
Qed.

(** X15. What the pipeline builder produces.  Unless audio normalisation
    is switched off explicitly, the call throws: the option
    [normalizeAudio] hides the builder of that name, and the body calls
    the option.  With normalisation off it returns, in order, the two
    audio commands (only when noise removal is on), one video command and
    the final [mv]; a command of the [normalizeAudio] builder is never
    among them. *)
Theorem pipeline_outcome {num : Type} `{JsNumber num}
    (inputPath outputPath : string) (captions : list Caption)
    (effects : list VisualEffect) (style : Types.StyleConfig)
    (options : PipelineOptions) :
  let result :=
    generateCompleteEditingPipeline inputPath outputPath captions effects style options in
  let audioPath := withSuffix inputPath "_audio.wav" in
  let denoisedPath := withSuffix inputPath "_denoised.wav" in
  let effectsPath := withSuffix inputPath "_effects.mp4" in
  (o_normalizeAudio options <> Some false ->
   result = Threw (Js.ErrorObj "normalizeAudio is not a function")) /\
  (o_normalizeAudio options = Some false ->
   exists video,
     result
     = Returned
         ((if default true (o_removeNoise options)
           then [extractAudio inputPath audioPath; reduceNoise audioPath denoisedPath]
           else [])
          ++ [video; "mv " +:+ Js.quoted effectsPath +:+ " " +:+ Js.quoted outputPath])).
Proof.
  intros result audioPath denoisedPath effectsPath.
  unfold result, generateCompleteEditingPipeline.
  fold audioPath denoisedPath effectsPath. split.
  - intros Hon.
    assert (Hdef : default true (o_normalizeAudio options) = true).
    { destruct (o_normalizeAudio options) as [[]|]; [reflexivity|congruence|reflexivity]. }
    rewrite Hdef, orb_true_r.
    destruct (default true (o_removeNoise options)); reflexivity.
  - intros Hoff. rewrite Hoff.
    destruct (default true (o_removeNoise options));
      cbv beta iota zeta delta [from_option id orb].
    + destruct (negb (String.eqb denoisedPath EmptyString));
        eexists; reflexivity.
    + eexists. reflexivity.
Qed.

(** X16. The intermediate paths of the pipeline.  For an input path
    [base.ext] whose extension is not empty and has no dot, the derived
    path is [base] with the suffix appended; for an input path without any
    dot the derived path is the input path itself, whatever the suffix. *)
Theorem pipeline_paths (base ext suffix : string) :
  ext <> EmptyString ->
  dotless ext = true ->
  withSuffix (base +:+ String "." ext) suffix = base +:+ suffix /\
  (forall inputPath, dotless inputPath = true -> withSuffix inputPath suffix = inputPath).
Proof.
  intros Hne Hext. unfold withSuffix. split.
  - apply JsMore.replaceExt_extension; [exact Hne|].
    eapply JsMore.allChars_weaken; [|exact Hext].
    cbn. intros c Hc. rewrite orb_false_r. exact Hc.
  - intros inputPath. apply JsMore.replaceExt_dotless.
Qed.

End FfmpegMore.

(** ** More on the mock pipeline *)

Module ProcessorMore.
Import Processor ProcessorUse ProcessorFacts.

(** *** The time estimate *)

Lemma step_durations_sum (k : StepKey) :
  0 <= STEP_DURATIONS k /\
  0 <= fold_left (fun acc k' => acc + STEP_DURATIONS k')
         (skipn (S (indexOf stepKeys k)) stepKeys) 0 /\
  STEP_DURATIONS k
  + fold_left (fun acc k' => acc + STEP_DURATIONS k')
      (skipn (S (indexOf stepKeys k)) stepKeys) 0 <= 100.
Proof. destruct k; vm_compute; repeat split; discriminate. Qed.

Lemma round_bounds (x : Q) (lo hi : Z) :
  (inject_Z lo <= x <= inject_Z hi)%Q -> lo <= Js.round x <= hi.
Proof.
  intros [Hlo Hhi]. unfold Js.round. split.
  - rewrite <- (Qfloor_Z lo). apply Qfloor_resp_le. lra.
  - assert (H : (inject_Z (Qfloor (x + (1 # 2))) < inject_Z (hi + 1))%Q).
    { eapply Qle_lt_trans; [apply Qfloor_le|]. rewrite inject_Z_plus.
      change (inject_Z 1) with 1%Q. lra. }
    rewrite <- Zlt_Qlt in H. lia.
Qed.

Lemma isDouble_small (n : Z) : 0 <= n <= 300 -> Js.isDouble (inject_Z n).
Proof.
  intros Hn.
  assert (Hall : forallb (fun k => Qeq_bool (Js.fl (inject_Z (Z.of_nat k)))
                                    (inject_Z (Z.of_nat k))) (seq 0 301) = true)
    by (vm_compute; reflexivity).
  rewrite forallb_forall in Hall.
  specialize (Hall (Z.to_nat n)). rewrite Z2Nat.id in Hall by lia.
  apply Qeq_bool_iff, Hall, in_seq. lia.
Qed.

(** The estimate is rounded from the doubles: for the rendering step at 67
    percent of a one-minute video the code computes 30.499999999999996,
    where the exact value is 30.5. *)
Example calculateTimeRemaining_rounds_the_double :
  calculateTimeRemaining "Rendering video" 67 60 = 30 /\
  Js.round ((50 * (1 - 67 / 100) + 14) * Qmin (60 / 60) 3)%Q = 31.
Proof. split; vm_compute; reflexivity. Qed.

(** X17. The time estimate.  For a step label that names no inherited
    member of the step table, a step progress between 0 and 100 and a
    video duration that is not negative, [calculateTimeRemaining] returns
    between 5 and 300 seconds, whatever the roundings of its arithmetic; a
    step label it does not know is treated as the rendering step; and for
    a video of duration zero the estimate is the floor of 5 seconds. *)
Theorem calculateTimeRemaining_bounds (currentStep : string) (stepProgress videoDuration : Q) :
  JsObject.ordinaryKey currentStep = true ->
  (0 <= stepProgress <= 100)%Q ->
  (0 <= videoDuration)%Q ->
  5 <= calculateTimeRemaining currentStep stepProgress videoDuration <= 300 /\
  (stepMap currentStep = None ->
   calculateTimeRemaining currentStep stepProgress videoDuration
   = calculateTimeRemaining "Rendering video" stepProgress videoDuration) /\
  ((videoDuration == 0)%Q ->
   calculateTimeRemaining currentStep stepProgress videoDuration = 5).
Proof.
  intros _ Hp Hd.
  assert (Hunknown : stepMap currentStep = None ->
    calculateTimeRemaining currentStep stepProgress videoDuration
    = calculateTimeRemaining "Rendering video" stepProgress videoDuration).
  { intros Hnone. unfold calculateTimeRemaining. rewrite Hnone. reflexivity. }
  cut (5 <= calculateTimeRemaining currentStep stepProgress videoDuration <= 300 /\
       ((videoDuration == 0)%Q ->
        calculateTimeRemaining currentStep stepProgress videoDuration = 5)).
  { intros [H1 H2]. split; [exact H1|]. split; [exact Hunknown|exact H2]. }
  clear Hunknown. unfold calculateTimeRemaining.
  set (k := default rendering (stepMap currentStep)).
  destruct (step_durations_sum k) as (HD & HF & HDF).
  set (D := STEP_DURATIONS k) in *.
  set (F := fold_left _ (skipn (S (indexOf stepKeys k)) stepKeys) 0) in *.
  set (m := Qmin (Js.fdiv videoDuration 60) 3).
  assert (Hm : (0 <= m <= 3)%Q).
  { assert (H0 : (0 <= Js.fdiv videoDuration 60)%Q).
    { apply DoubleFacts.fl_nonneg. unfold Qdiv. change (/ 60)%Q with (1 # 60)%Q. lra. }
    unfold m. destruct (Q.min_spec (Js.fdiv videoDuration 60) 3) as [[_ E]|[_ E]]; rewrite E.
    - split; [exact H0|]. rewrite <- E. apply Q.le_min_r.
    - split; lra. }
  assert (HDq : (0 <= inject_Z D)%Q) by (change 0%Q with (inject_Z 0); rewrite <- Zle_Qle; lia).
  assert (HFq : (0 <= inject_Z F)%Q) by (change 0%Q with (inject_Z 0); rewrite <- Zle_Qle; lia).
  assert (HDFq : (inject_Z D + inject_Z F <= inject_Z (D + F))%Q).
  { rewrite inject_Z_plus. apply Qle_refl. }
  assert (HDF100 : (inject_Z (D + F) <= 100)%Q).
  { change 100%Q with (inject_Z 100). rewrite <- Zle_Qle. lia. }
  set (q := Js.fdiv stepProgress 100).
  assert (Hq : (0 <= q <= 1)%Q).
  { unfold q, Js.fdiv. split.
    - apply DoubleFacts.fl_nonneg. unfold Qdiv. change (/ 100)%Q with (1 # 100)%Q. lra.
    - apply DoubleFacts.fl_le_double; [apply DoubleFacts.isDouble_1|].
      unfold Qdiv. change (/ 100)%Q with (1 # 100)%Q. lra. }
  set (u := Js.fsub 1 q).
  assert (Hu : (0 <= u <= 1)%Q).
  { unfold u, Js.fsub. split.
    - apply DoubleFacts.fl_nonneg. lra.
    - apply DoubleFacts.fl_le_double; [apply DoubleFacts.isDouble_1|lra]. }
  set (A := Js.fmul (inject_Z D) u).
  assert (HA : (0 <= A <= inject_Z D)%Q).
  { unfold A, Js.fmul. split.
    - apply DoubleFacts.fl_nonneg, Qmult_le_0_compat; lra.
    - apply DoubleFacts.fl_le_double; [apply isDouble_small; lia|].
      rewrite <- (Qmult_1_r (inject_Z D)) at 2.
      rewrite !(Qmult_comm (inject_Z D)). apply Qmult_le_compat_r; lra. }
  set (x := Js.fadd A (inject_Z F)).
  assert (Hx : (0 <= x <= 100)%Q).
  { unfold x, Js.fadd. split.
    - apply DoubleFacts.fl_nonneg. lra.
    - apply Qle_trans with (inject_Z (D + F)); [|exact HDF100].
      apply DoubleFacts.fl_le_double; [apply isDouble_small; lia|].
      rewrite inject_Z_plus. lra. }
  set (total := Js.fmul x m).
  assert (Htotal : (0 <= total <= 300)%Q).
  { unfold total, Js.fmul. split.
    - apply DoubleFacts.fl_nonneg, Qmult_le_0_compat; lra.
    - apply (DoubleFacts.fl_le_double _ (inject_Z 300)); [apply isDouble_small; lia|].
      change (inject_Z 300) with 300%Q.
      apply Qle_trans with (100 * m)%Q; [apply Qmult_le_compat_r; lra|lra]. }
  split.
  - destruct (round_bounds total 0 300) as [Hlo Hhi].
    { change (inject_Z 0) with 0%Q. change (inject_Z 300) with 300%Q. exact Htotal. }
    lia.
  - intros Hzero.
    assert (Hm0 : (m == 0)%Q).
    { assert (E0 : (Js.fdiv videoDuration 60 == 0)%Q).
      { unfold Js.fdiv. rewrite DoubleFacts.fl_zero; [reflexivity|].
        rewrite Hzero. reflexivity. }
      unfold m. destruct (Q.min_spec (Js.fdiv videoDuration 60) 3) as [[_ E]|[Hle _]].
      - rewrite E. exact E0.
      - exfalso. rewrite E0 in Hle. vm_compute in Hle. apply Hle. reflexivity. }
    assert (Etotal : total = 0%Q).
    { unfold total, Js.fmul. apply DoubleFacts.fl_zero. rewrite Hm0. ring. }
    rewrite Etotal. reflexivity.
Qed.

(** *** A whole run *)

Lemma lane_ext (q q' : Queue.Store) :
  Queue.heap q' = Queue.heap q ->
  Queue.inMemoryQueues q' = Queue.inMemoryQueues q ->
  forall l, Queue.lane q' l = Queue.lane q l.
Proof. intros Hh Hl l. unfold Queue.lane, Queue.deref. rewrite Hh, Hl. reflexivity. Qed.

Lemma wf_ext (q q' : Queue.Store) :
  Queue.heap q' = Queue.heap q ->
  Queue.inMemoryQueues q' = Queue.inMemoryQueues q ->
  Queue.wf q -> Queue.wf q'.
Proof. intros Hh Hl. unfold Queue.wf. rewrite Hh, Hl. auto. Qed.

(** The loop leaves every other job alone. *)
Lemma forEach_steps_others jobId other (ss : list Step) :
  other <> jobId ->
  forall st,
    let st' := snd (Eff.forEach ss (stepBody jobId) st) in
    processingJobs st' !! other = processingJobs st !! other /\
    Queue.jobStatuses (queue st') !! other = Queue.jobStatuses (queue st) !! other.
Proof.
  intros Hne. induction ss as [|s ss IH]; intros st; [split; reflexivity|].
  cbn [Eff.forEach]. unfold Eff.bind.
  destruct (stepBody jobId s st) as [[] st1] eqn:Hstep. cbv beta iota zeta.
  destruct (IH st1) as [IH1 IH2]. cbv zeta in IH1, IH2. rewrite IH1, IH2.
  unfold stepBody, Eff.run, stepBodyT, Eff.bindT, Eff.await, Eff.ret, updateJobProgress,
    liftQueue, Queue.setJobStatus in Hstep.
  destruct (processingJobs st !! jobId); cbn [fst] in Hstep; inversion Hstep; subst st1;
    cbn [processingJobs queue Queue.jobStatuses];
    rewrite ?lookup_insert_ne by congruence; split; reflexivity.
Qed.

(** The state in which one run of [processVideo] ends. *)
Lemma processVideo_run videoId userId videoPath styleConfig env st :
  let jobId := "job_" +:+ Js.Z_to_string (jobNow env) +:+ "_"
               +:+ substring 2 9 (jobRandom env) in
  let totalTime := Js.round (inject_Z (endNow env - startTime env) / 1000) in
  let final :=
    {| Queue.progress := 100;
       Queue.currentStep := Some "Completed";
       Queue.timeRemaining := Some 0;
       Queue.totalTime := Some totalTime;
       Queue.error := None |} in
  exists st1 j1,
    processingJobs st1 !! jobId = Some j1 /\
    (forall other, other <> jobId ->
       processingJobs st1 !! other = processingJobs st !! other /\
       Queue.jobStatuses (queue st1) !! other = Queue.jobStatuses (queue st) !! other) /\
    Queue.statusLog (queue st1)
    = Queue.statusLog (queue st) ++ map (fun s => (jobId, statusOf s)) steps /\
    Queue.heap (queue st1) = Queue.heap (queue st) /\
    Queue.inMemoryQueues (queue st1) = Queue.inMemoryQueues (queue st) /\
    snd (processVideo videoId userId videoPath styleConfig env st)
    = {| processingJobs :=
           <[jobId := {| id := id j1; video_id := video_id j1; status := completed;
                         progress := 100; currentStep := "Completed";
                         metadata := metadata j1 |}]> (processingJobs st1);
         videos :=
           match videos st !! videoId with
           | Some _ => <[videoId := completedVideo (isoNow env)]> (videos st)
           | None => videos st
           end;
         queue :=
           snd (Queue.enqueue Queue.COMPLETED
                  (completedJob jobId videoId totalTime 0) (enqueueNow env)
                  (snd (Queue.setJobStatus jobId final (queue st1)))) |}.
Proof.
  intros jobId totalTime final.
  destruct (createProcessingJob_effect videoId running
              (Some {| md_styleConfig := styleConfig; md_startTime := startTime env |})
              env st) as (st0 & Hcreate & Hj0 & Hq0).
  fold jobId in Hcreate, Hj0.
  assert (Hv0 : videos st0 = videos st).
  { unfold createProcessingJob in Hcreate. inversion Hcreate. reflexivity. }
  assert (Hothers0 : forall other, other <> jobId ->
            processingJobs st0 !! other = processingJobs st !! other).
  { intros other Hne. unfold createProcessingJob in Hcreate. inversion Hcreate.
    cbn [processingJobs]. fold jobId. rewrite lookup_insert_ne by congruence. reflexivity. }
  destruct (forEach_steps jobId steps st0 _ Hj0)
    as (st1 & j1 & Hloop & Hj1 & _ & _ & _ & _ & _ & Hlog1 & Hv1 & Hh1 & Hl1).
  exists st1, j1. split; [exact Hj1|]. split.
  { intros other Hne.
    destruct (forEach_steps_others jobId other steps Hne st0) as [H1 H2].
    cbv zeta in H1, H2. rewrite Hloop in H1, H2. cbn [snd] in H1, H2.
    rewrite H1, H2, Hq0. split; [apply Hothers0, Hne|reflexivity]. }
  split; [rewrite Hlog1, Hq0; reflexivity|].
  split; [rewrite Hh1, Hq0; reflexivity|].
  split; [rewrite Hl1, Hq0; reflexivity|].
  rewrite processVideo_sequential. unfold Eff.bind. rewrite Hcreate, Hloop.
  fold totalTime. rewrite <- Hv0, <- Hv1.
  unfold saveAIAnalysis, updateJobProgress, updateVideoStatus, liftQueue,
    Queue.setJobStatus, Queue.enqueue, completedJob, completedVideo.
  destruct (videos st1 !! videoId) as [v|] eqn:Hv;
    cbn [processingJobs videos queue snd fst]; rewrite Hj1;
    cbn [processingJobs videos queue snd fst].
  - rewrite lookup_insert_eq. cbn [processingJobs videos queue snd fst
      u_processed_url u_thumbnail_url u_duration u_ai_analysis].
    rewrite insert_insert_eq. reflexivity.
  - rewrite Hv. reflexivity.
Qed.

(** X18. Where a run of [processVideo] leaves its traces.  For a video id
    that names no inherited member of the tables, and from a store whose
    lanes are distinct arrays, the run appends exactly one job to the
    COMPLETED lane: it carries the new job id, the video id, priority 0,
    the creation time of the final [enqueue] and the data
    [{status: 'completed', totalTime}].  Every other lane, the FAILED lane
    among them, is as before, and so are the record and the stored status
    of every other job. *)
Theorem processVideo_completed_lane
    (videoId userId videoPath : string) (styleConfig : Types.StyleConfig)
    (env : Env) (st : State) :
  JsObject.ordinaryKey videoId = true ->
  Queue.wf (queue st) ->
  let jobId := "job_" +:+ Js.Z_to_string (jobNow env) +:+ "_"
               +:+ substring 2 9 (jobRandom env) in
  let totalTime := Js.round (inject_Z (endNow env - startTime env) / 1000) in
  let st' := snd (processVideo videoId userId videoPath styleConfig env st) in
  Queue.lane (queue st') Queue.COMPLETED
  = Queue.lane (queue st) Queue.COMPLETED
    ++ [completedJob jobId videoId totalTime (enqueueNow env)] /\
  (forall q, q <> Queue.COMPLETED -> Queue.lane (queue st') q = Queue.lane (queue st) q) /\
  Queue.wf (queue st') /\
  (forall other, other <> jobId ->
     processingJobs st' !! other = processingJobs st !! other /\
     Queue.jobStatuses (queue st') !! other = Queue.jobStatuses (queue st) !! other).
Proof.
  intros _ Hwf jobId totalTime st'.
  destruct (processVideo_run videoId userId videoPath styleConfig env st)
    as (st1 & j1 & Hj1 & Hothers & Hlog & Hh & Hl & Hrun).
  fold jobId totalTime in Hj1, Hothers, Hlog, Hrun.
  unfold st'. rewrite Hrun. cbn [queue processingJobs].
  match goal with
  | |- context [Queue.enqueue ?q ?job ?now ?s] =>
      assert (Hwfs : Queue.wf s) by
        (apply (wf_ext (queue st)); [exact Hh|exact Hl|exact Hwf]);
      assert (Hlanes : forall l, Queue.lane s l = Queue.lane (queue st) l) by
        (apply lane_ext; [exact Hh|exact Hl]);
      destruct (QueueFacts.enqueue_lane q job now s Hwfs) as (Hsame & Hother & Hwf')
  end.
  cbv zeta in Hsame, Hother, Hwf'.
  split; [rewrite Hsame, Hlanes; reflexivity|].
  split; [intros q Hq; rewrite (Hother q Hq), Hlanes; reflexivity|].
  split; [exact Hwf'|].
  intros other Hne. destruct (Hothers other Hne) as [H1 H2].
  rewrite lookup_insert_ne by congruence. split; [exact H1|].
  cbn [Queue.enqueue snd Queue.setJobStatus Queue.mutate Queue.withHeap Queue.jobStatuses].
  rewrite lookup_insert_ne by congruence. exact H2.
Qed.

(** X19. The time estimates of a run.  The estimates [processVideo] records
    with its statuses are 200, 192, 169, 138, 58, 19, 5, 30 and 0 seconds,
    whatever the state and the clock: the estimate falls to the floor of 5
    at "Uploading" and rises again to 30 at "Finalizing", a label
    [calculateTimeRemaining] does not know, so the recorded sequence is not
    decreasing. *)
Theorem processVideo_time_estimates
    (videoId userId videoPath : string) (styleConfig : Types.StyleConfig)
    (env : Env) (st : State) :
  let jobId := "job_" +:+ Js.Z_to_string (jobNow env) +:+ "_"
               +:+ substring 2 9 (jobRandom env) in
  let st' := snd (processVideo videoId userId videoPath styleConfig env st) in
  exists recorded : list Queue.JobStatus,
    Queue.statusLog (queue st')
    = Queue.statusLog (queue st) ++ map (fun r => (jobId, r)) recorded /\
    map Queue.timeRemaining recorded = map Some [200; 192; 169; 138; 58; 19; 5; 30; 0] /\
    map Queue.currentStep recorded
    = map Some ("Validating video" :: "Extracting audio" :: "Analyzing with AI"
                :: "Generating visual effects" :: "Rendering video"
                :: "Generating thumbnail" :: "Uploading" :: "Finalizing"
                :: "Completed" :: nil) /\
    stepMap "Finalizing" = None /\
    ~ StronglySorted (fun a b => b <= a)
        (omap Queue.timeRemaining recorded).
Proof.
  intros jobId st'.
  destruct (processVideo_run videoId userId videoPath styleConfig env st)
    as (st1 & j1 & Hj1 & Hothers & Hlog & Hh & Hl & Hrun).
  fold jobId in Hj1, Hothers, Hlog, Hrun.
  set (final :=
    {| Queue.progress := 100;
       Queue.currentStep := Some "Completed";
       Queue.timeRemaining := Some 0;
       Queue.totalTime := Some (Js.round (inject_Z (endNow env - startTime env) / 1000));
       Queue.error := None |}) in *.
  exists (map statusOf steps ++ [final]).
  split; [|split; [|split; [|split]]].
  - unfold st'. rewrite Hrun.
    cbn [queue Queue.enqueue snd Queue.setJobStatus Queue.mutate Queue.withHeap
         Queue.statusLog].
    rewrite Hlog, map_app, map_map, <- app_assoc. reflexivity.
  - rewrite map_app, map_map, timeRemaining_values. reflexivity.
  - rewrite map_app, map_map. reflexivity.
  - reflexivity.
  - assert (E : omap Queue.timeRemaining (map statusOf steps ++ [final])
                = [200; 192; 169; 138; 58; 19; 5; 30; 0]) by (vm_compute; reflexivity).
    rewrite E. intros Hsorted.
    repeat match goal with
    | H : StronglySorted _ (_ :: _) |- _ =>
        apply StronglySorted_inv in H; destruct H
    end.
    repeat match goal with
    | H : Forall _ (_ :: _) |- _ => inversion H; clear H; subst
    end. lia.
Qed.

(** X20. Video records.  For a video id that names no inherited member of
    the table object, neither [processVideo] nor [queueVideoProcessing]
    creates or removes a video record.  A video that is not in the table
    leaves the table exactly as it was; for one that is,
    [processVideo] replaces the record by the completed one (sample URLs,
    duration 120, the mock analysis, the new time stamp), whatever it held,
    and [queueVideoProcessing] changes its status to queued and its time
    stamp and keeps the other fields. *)
Theorem video_records_only_updated
    (videoId userId videoPath : string) (styleConfig : Types.StyleConfig)
    (env : Env) (now : Z) (iso : string) (st : State) :
  JsObject.ordinaryKey videoId = true ->
  let processed := snd (processVideo videoId userId videoPath styleConfig env st) in
  let queued := snd (queueVideoProcessing videoId userId videoPath styleConfig now iso st) in
  dom (videos processed) = dom (videos st) /\
  dom (videos queued) = dom (videos st) /\
  (forall other, other <> videoId ->
     videos processed !! other = videos st !! other /\
     videos queued !! other = videos st !! other) /\
  match videos st !! videoId with
  | None => videos processed = videos st /\ videos queued = videos st
  | Some v =>
      videos processed !! videoId = Some (completedVideo (isoNow env)) /\
      videos queued !! videoId
      = Some {| v_status := Types.queued;
                v_processed_url := v_processed_url v;
                v_thumbnail_url := v_thumbnail_url v;
                v_duration := v_duration v;
                v_ai_analysis := v_ai_analysis v;
                v_updated_at := iso |}
  end.
Proof.
  intros _ processed queued.
  destruct (processVideo_run videoId userId videoPath styleConfig env st)
    as (st1 & j1 & _ & _ & _ & _ & _ & Hrun).
  assert (Hp : videos processed
               = match videos st !! videoId with
                 | Some _ => <[videoId := completedVideo (isoNow env)]> (videos st)
                 | None => videos st
                 end).
  { unfold processed. rewrite Hrun. reflexivity. }
  assert (Hq : videos queued
               = match videos st !! videoId with
                 | Some v => <[videoId := {| v_status := Types.queued;
                                             v_processed_url := v_processed_url v;
                                             v_thumbnail_url := v_thumbnail_url v;
                                             v_duration := v_duration v;
                                             v_ai_analysis := v_ai_analysis v;
                                             v_updated_at := iso |}]> (videos st)
                 | None => videos st
                 end).
  { unfold queued, queueVideoProcessing, Eff.bind, liftQueue, Queue.enqueue,
      updateVideoStatus. cbn [videos snd fst].
    destruct (videos st !! videoId); reflexivity. }
  rewrite Hp, Hq. clear Hp Hq Hrun.
  destruct (videos st !! videoId) as [v|] eqn:Hv.
  - assert (Hdom : forall v', dom (<[videoId := v']> (videos st)) = dom (videos st)).
    { intros v'. rewrite dom_insert_L. apply subseteq_union_1_L.
      apply singleton_subseteq_l, elem_of_dom. eauto. }
    split; [apply Hdom|]. split; [apply Hdom|]. split.
    + intros other Hne. rewrite !lookup_insert_ne by congruence. split; reflexivity.
    + rewrite !lookup_insert_eq. split; reflexivity.
  - split; [reflexivity|]. split; [reflexivity|]. split; [|split; reflexivity].
    intros other _. split; reflexivity.
Qed.

End ProcessorMore.

(** ** The upload form and the upload handler together *)

Module ClientFacts.
Import Client ApiFacts.

Lemma quoteChar_parse (c : ascii) (X b r : string) :
  Js.parseStringBody X = Some (b, r) ->
  Js.parseStringBody (quoteChar c X) = Some (String c b, r).
Proof.
  intros HX.
  destruct c as [[] [] [] [] [] [] [] []];
    match goal with
    | |- context [quoteChar ?c] =>
        let f := eval vm_compute in (quoteChar c) in change (quoteChar c) with f
    end; cbv beta; cbn; rewrite HX; reflexivity.
Qed.

Lemma quoteInto_parse (s rest : string) :
  Js.parseStringBody (quoteInto s (String (ascii_of_nat 34) rest))
  = Some (s, rest).
Proof.
  induction s as [|c s IH]; [reflexivity|].
  cbn [quoteInto]. apply quoteChar_parse, IH.
Qed.

Lemma parseValue_literal (fuel : nat) (v tail : string) :
  Js.parseValue (S fuel) (literalInto v tail) = Some (Js.JsonString v, tail).
Proof.
  unfold literalInto. cbn [Js.parseValue].
  change (Ascii.eqb (ascii_of_nat 34) "{") with false.
  change (Ascii.eqb (ascii_of_nat 34) "[") with false.
  change (Ascii.eqb (ascii_of_nat 34) (ascii_of_nat 34)) with true.
  cbv iota. rewrite quoteInto_parse. reflexivity.
Qed.

Lemma parseMembers_step (fuel : nat) (k v tail : string) :
  Js.parseMembers (S (S fuel)) (literalInto k (String ":" (literalInto v tail)))
  = match Js.skipWs tail with
    | String "," r4 =>
        match Js.parseMembers (S fuel) (Js.skipWs r4) with
        | Some (ms, r5) => Some (parsedMember (k, v) :: ms, r5)
        | None => None
        end
    | String "}" r4 => Some ([parsedMember (k, v)], r4)
    | _ => None
    end.
Proof.
  unfold literalInto at 1.
  change (Js.parseMembers (S (S fuel)) (String (ascii_of_nat 34) ?s))
    with (match Js.parseStringBody s with
          | None => None
          | Some (key, r) =>
              match Js.skipWs r with
              | String ":" r2 =>
                  match Js.parseValue (S fuel) (Js.skipWs r2) with
                  | None => None
                  | Some (v, r3) =>
                      match Js.skipWs r3 with
                      | String "," r4 =>
                          match Js.parseMembers (S fuel) (Js.skipWs r4) with
                          | Some (ms, r5) => Some ((key, v) :: ms, r5)
                          | None => None
                          end
                      | String "}" r4 => Some ([(key, v)], r4)
                      | _ => None
                      end
                  end
              | _ => None
              end
          end).
  rewrite quoteInto_parse.
  change (Js.skipWs (String ":" (literalInto v tail)))
    with (String ":" (literalInto v tail)).
  cbv iota.
  change (Js.skipWs (literalInto v tail)) with (literalInto v tail).
  rewrite parseValue_literal. reflexivity.
Qed.

Lemma parseMembers_membersInto (kvs : list (string * string)) :
  kvs <> [] ->
  forall fuel rest,
    (length kvs < fuel)%nat ->
    Js.parseMembers fuel (membersInto kvs (String "}" rest))
    = Some (map parsedMember kvs, rest).
Proof.
  induction kvs as [|[k v] kvs IH]; [congruence|]. intros _ fuel rest Hfuel.
  destruct kvs as [|kv2 kvs].
  - destruct fuel as [|[|fuel]]; cbn in Hfuel; try lia.
    cbn [membersInto]. rewrite parseMembers_step. reflexivity.
  - destruct fuel as [|[|fuel]]; cbn in Hfuel; try lia.
    change (membersInto ((k, v) :: kv2 :: kvs) (String "}" rest))
      with (literalInto k (String ":" (literalInto v
              (String "," (membersInto (kv2 :: kvs) (String "}" rest)))))).
    rewrite parseMembers_step.
    change (Js.skipWs (String "," ?s)) with (String "," s). cbv iota.
    assert (Hskip : Js.skipWs (membersInto (kv2 :: kvs) (String "}" rest))
                    = membersInto (kv2 :: kvs) (String "}" rest)).
    { destruct kv2 as [k2 v2]. destruct kvs as [|kv3 kvs]; reflexivity. }
    rewrite Hskip, IH by (cbn [length] in *; (congruence || lia)).
    reflexivity.
Qed.

Lemma quoteInto_length (s tail : string) :
  (String.length tail <= String.length (quoteInto s tail))%nat.
Proof.
  induction s as [|c s IH]; [reflexivity|]. cbn [quoteInto].
  etransitivity; [exact IH|].
  generalize (quoteInto s tail). intros t. unfold quoteChar.
  repeat match goal with |- context [if ?b then _ else _] => destruct b end;
    cbn [String.length]; lia.
Qed.

Lemma literalInto_length (s tail : string) :
  (String.length tail < String.length (literalInto s tail))%nat.
Proof.
  unfold literalInto. cbn [String.length].
  pose proof (quoteInto_length s (String (ascii_of_nat 34) tail)) as H.
  cbn [String.length] in H. lia.
Qed.

Lemma membersInto_length (kvs : list (string * string)) (tail : string) :
  (length kvs + String.length tail <= String.length (membersInto kvs tail))%nat.
Proof.
  induction kvs as [|[k v] kvs IH]; [reflexivity|].
  destruct kvs as [|kv2 kvs].
  - cbn [membersInto length].
    pose proof (literalInto_length k (String ":" (literalInto v tail))) as H1.
    pose proof (literalInto_length v tail) as H2.
    cbn [String.length] in H1. lia.
  - change (membersInto ((k, v) :: kv2 :: kvs) tail)
      with (literalInto k (String ":" (literalInto v
              (String "," (membersInto (kv2 :: kvs) tail))))).
    pose proof (literalInto_length k (String ":" (literalInto v
                  (String "," (membersInto (kv2 :: kvs) tail))))) as H1.
    pose proof (literalInto_length v (String "," (membersInto (kv2 :: kvs) tail))) as H2.
    cbn [String.length length] in *. lia.
Qed.

(** What [JSON.stringify] writes, [JSON.parse] reads back: the object that
    defining the same properties in the same order gives. *)
Lemma JSON_parse_stringify (properties : list (string * string)) :
  Js.JSON_parse (JSON_stringify properties)
  = Some (Js.JsonObject (Js.objectOf (map parsedMember properties))).
Proof.
  unfold Js.JSON_parse, JSON_stringify.
  change (Js.skipWs (String "{" ?s)) with (String "{" s).
  pose proof (membersInto_length properties (String "}" EmptyString)) as Hlen.
  set (text := membersInto properties (String "}" EmptyString)) in *.
  cbn [String.length] in *.
  destruct (2 * S (String.length text) + 2)%nat as [|fuel] eqn:Hfuel; [lia|].
  destruct properties as [|kv kvs].
  - reflexivity.
  - assert (Hrun : Js.parseMembers fuel text = Some (map parsedMember (kv :: kvs), EmptyString)).
    { apply parseMembers_membersInto; [congruence|]. cbn [length] in *. lia. }
    assert (Hhead : Js.skipWs text = text /\
                    exists s, text = String (Ascii false true false false false true false false) s).
    { unfold text. destruct kv as [k v]. destruct kvs as [|kv2 kvs];
        (split; [reflexivity|eexists; reflexivity]). }
    destruct Hhead as [Hskip [s Hs]].
    cbn [Js.parseValue]. change (Ascii.eqb "{" "{") with true. cbv iota.
    rewrite Hskip. rewrite Hs in *. cbv iota. rewrite Hrun. reflexivity.
Qed.

End ClientFacts.

(** ** More on the route handlers and their clients *)

Module ApiMore.
Import Api ApiFacts TextUse.

(** X21. Title and format of an accepted upload.  The format of the
    synthesized record is mp4, quicktime or x-msvideo: the part of the MIME
    type after "video/".  The title is the file name without its
    extension: for a name [base.ext], where [ext] is not empty and has
    neither a dot nor a slash, it is [base] (so only the last extension
    goes, and a name that starts with its only dot gives the empty title);
    a name without a dot is the title as it is. *)
Theorem upload_title_and_format
    (formData : FormData) (env : UploadEnv) (videoFile : File)
    (mockVideo : Video) (message : string) :
  video formData = Some videoFile ->
  POST formData env = Status200 true mockVideo message ->
  (exists f, format mockVideo = Some f /\ type videoFile = "video/" +:+ f /\
             In f ["mp4"; "quicktime"; "x-msvideo"]) /\
  (forall base ext,
     name videoFile = base +:+ String "." ext ->
     ext <> EmptyString ->
     Js.allChars (fun c => negb (Ascii.eqb c "." || Ascii.eqb c "/")) ext = true ->
     title mockVideo = base) /\
  (dotless (name videoFile) = true -> title mockVideo = name videoFile).
Proof.
  intros Hvideo Hpost. unfold POST in Hpost. rewrite Hvideo in Hpost.
  destruct (maxSize <? size videoFile); [discriminate|].
  destruct (Js.includes validTypes (type videoFile)) eqn:Hinc; [|discriminate].
  cbn [negb] in Hpost.
  destruct (Js.JSON_parse _) as [parsed|]; [|discriminate].
  injection Hpost as <- _. cbn [format title].
  apply includes_In in Hinc. split; [|split].
  - destruct Hinc as [<-|[<-|[<-|[]]]]; eexists; (split; [reflexivity|]);
      (split; [reflexivity|]); cbn; auto.
  - intros base ext Hname Hne Hext. unfold stripExtension. rewrite Hname.
    rewrite (JsMore.replaceExt_extension _ EmptyString base ext Hne Hext).
    clear. induction base as [|c base IH]; [reflexivity|].
    change (String c base +:+ EmptyString) with (String c (base +:+ EmptyString)).
    rewrite IH. reflexivity.
  - intros Hdot. unfold stripExtension. apply JsMore.replaceExt_dotless, Hdot.
Qed.

End ApiMore.

Module ClientMore.
Import Client ClientFacts ApiFacts.

(** X22. The form and the handler together.  [uploadVideo] makes the same
    two checks as the handler before it sends anything, and what it sends
    the handler always accepts: for a file of at most 500 MB with an
    allowed type the attempt ends in the success toast with the handler's
    record, whose style configuration holds the chosen style and pace and
    the three colours as they were chosen, whatever characters they
    contain: [JSON.parse] undoes the escapes [JSON.stringify] wrote, and
    the three properties come back in the order written.  A larger file
    and a file of another type end in the client's own error toast; no
    message of the handler is ever shown. *)
Theorem upload_form_is_accepted
    (file : Api.File) (styleConfig : Types.StyleConfig) (env : Api.UploadEnv) :
  (Api.size file <= 500 * 1024 * 1024 ->
   In (Api.type file) Api.validTypes ->
   exists video,
     uploadVideo file styleConfig env = ToastSuccess "Vídeo enviado com sucesso!" video /\
     Api.POST (formDataOf file styleConfig) env
     = Api.Status200 true video "Vídeo enviado com sucesso! Iniciando processamento..." /\
     Api.sc_style (Api.style_config video) = Some (styleName (Types.style styleConfig)) /\
     Api.sc_pace (Api.style_config video) = Some (paceName (Types.pace styleConfig)) /\
     Api.sc_colors (Api.style_config video)
     = Js.JsonObject
         [("primary", Js.JsonString (Types.primary (Types.colors styleConfig)));
          ("secondary", Js.JsonString (Types.secondary (Types.colors styleConfig)));
          ("accent", Js.JsonString (Types.accent (Types.colors styleConfig)))]) /\
  (500 * 1024 * 1024 < Api.size file ->
   uploadVideo file styleConfig env = ToastError "Arquivo muito grande. Máximo: 500MB") /\
  (Api.size file <= 500 * 1024 * 1024 ->
   ~ In (Api.type file) Api.validTypes ->
   uploadVideo file styleConfig env = ToastError "Formato inválido. Use MP4 ou MOV").
Proof.
  assert (Hparse : Js.JSON_parse
            (Js.strOr (Api.colors (formDataOf file styleConfig)) "{}")
          = Some (Js.JsonObject (Js.objectOf (map parsedMember
                    (colorProperties (Types.colors styleConfig)))))).
  { cbn [formDataOf Api.colors Js.strOr].
    change (String.eqb (JSON_stringify _) EmptyString) with false. cbv iota.
    apply JSON_parse_stringify. }
  split; [|split].
  - intros Hsize Htype. unfold uploadVideo, Api.POST.
    cbn [formDataOf Api.video Api.colors Api.style Api.pace]. change Api.maxSize with (500 * 1024 * 1024).
    destruct (Z.ltb_spec (500 * 1024 * 1024) (Api.size file)) as [?|_]; [lia|].
    apply includes_In in Htype. unfold Api.validTypes in *. rewrite Htype.
    cbn [negb]. change (Api.colors (formDataOf file styleConfig))
      with (Some (JSON_stringify (colorProperties (Types.colors styleConfig)))) in Hparse.
    rewrite Hparse. eexists. split; [reflexivity|]. split; [reflexivity|].
    cbn [Api.style_config Api.sc_style Api.sc_pace Api.sc_colors Api.style Api.pace].
    repeat split.
  - intros Hbig. unfold uploadVideo.
    destruct (Z.ltb_spec (500 * 1024 * 1024) (Api.size file)) as [_|?]; [reflexivity|lia].
  - intros Hsize Htype. unfold uploadVideo.
    destruct (Z.ltb_spec (500 * 1024 * 1024) (Api.size file)) as [?|_]; [lia|].
    destruct (Js.includes _ (Api.type file)) eqn:Hinc; [|reflexivity].
    exfalso. apply Htype, includes_In, Hinc.
Qed.

End ClientMore.

Module StatusUiFacts.
Import Api StatusUi.

Lemma rows_ok (p : Z) : 1 <= p <= 99 -> rowOk p = true.
Proof.
  intros Hp.
  assert (Hall : forallb rowOk (map Z.of_nat (seq 1 99)) = true) by (vm_compute; reflexivity).
  rewrite forallb_forall in Hall. apply Hall.
  apply in_map_iff. exists (Z.to_nat p). split; [lia|]. apply in_seq. lia.
Qed.

(** X23. What the display makes of a poll.  For a non-empty id and a draw
    in [0, 1) the display shows the progress [p] of the answer and no
    error.  While [p] is below 100 the label of the answer is the step
    number [floor(7 p / 100)] of the route's seven steps, the display
    marks the step after it in its own list of eight (the first, the
    upload, counts as done), the time remaining is
    [round(1.2 (100 - p))], between 1 and 119 seconds, and the clock line
    shows it as seconds or as one minute and seconds.  At 100 the label is
    "Completed", which the display's table does not have: the index falls
    back to 0, the upload step, and the clock line is gone. *)
Theorem poll_display (videoId : string) (env : StatusEnv) :
  videoId <> EmptyString ->
  (0 <= random env)%Q -> (random env < 1)%Q ->
  let p := mockProgressOf (random env) in
  let shown := statusFrom (GET videoId env) in
  StatusUi.progress shown = p /\ StatusUi.error shown = None /\
  (p < 100 ->
   exists i t,
     steps !! i = Some (StatusUi.currentStep shown) /\
     Z.of_nat i = 7 * p / 100 /\
     getCurrentStepIndex (StatusUi.currentStep shown) = Some (S i) /\
     StatusUi.timeRemaining shown = Some t /\
     t = (12 * (100 - p) + 5) / 10 /\ 1 <= t <= 119 /\
     showsClock shown = true /\
     formatTime t
     = if t <? 60 then Js.Z_to_string t +:+ "s"
       else "1m " +:+ Js.Z_to_string (t - 60) +:+ "s") /\
  (p = 100 ->
   StatusUi.currentStep shown = "Completed" /\
   getCurrentStepIndex (StatusUi.currentStep shown) = Some O /\
   StatusUi.timeRemaining shown = Some 0 /\
   showsClock shown = false).
Proof.
  intros Hid Hlo Hhi p shown.
  assert (Hfloor : 0 <= Qfloor (Js.fmul (random env) 100)).
  { change 0 with (Qfloor 0). apply Qfloor_resp_le, DoubleFacts.fl_nonneg. lra. }
  assert (Hp : 1 <= p <= 100) by (unfold p, mockProgressOf; lia).
  assert (Hnonempty : String.eqb videoId EmptyString = false).
  { apply String.eqb_neq, Hid. }
  assert (Hpz : (p =? 0) = false) by (apply Z.eqb_neq; lia).
  unfold shown, GET. rewrite Hnonempty. fold p. cbv zeta.
  destruct (Z.leb_spec 100 p) as [Hge|Hlt].
  - cbn [statusFrom StatusUi.progress StatusUi.error StatusUi.currentStep
         StatusUi.timeRemaining].
    change (100 =? 0) with false. cbv iota.
    split; [lia|]. split; [reflexivity|]. split; [lia|].
    intros _. repeat split.
  - pose proof (rows_ok p ltac:(lia)) as Hrow. unfold rowOk in Hrow.
    cbv zeta in Hrow.
    set (idx := Qfloor (Js.fmul (Js.fdiv (inject_Z p) 100)
                         (inject_Z (Z.of_nat (length steps))))) in *.
    set (step := nth (Z.to_nat (Z.min idx (Z.of_nat (length steps) - 1))) steps EmptyString) in *.
    set (t := Z.max 0 (Js.round (Js.fmul (inject_Z (100 - p)) (Js.double 1.2)))) in *.
    apply andb_prop in Hrow as [Hrow Hrow5]. apply andb_prop in Hrow as [Hrow Hrow4].
    apply andb_prop in Hrow as [Hrow Hrow3]. apply andb_prop in Hrow as [Hrow Hrow2].
    apply andb_prop in Hrow as [Hrow Hrow1]. apply andb_prop in Hrow as [Hrow Hrow0].
    apply Z.eqb_eq in Hrow. apply Z.ltb_lt in Hrow0. apply negb_true_iff in Hrow1.
    apply Z.eqb_eq in Hrow3. apply Z.leb_le in Hrow4. apply Z.leb_le in Hrow5.
    cbn [statusFrom StatusUi.progress StatusUi.error StatusUi.currentStep
         StatusUi.timeRemaining Js.strOr].
    rewrite Hpz, Hrow1.
    split; [reflexivity|]. split; [reflexivity|]. split; [|lia].
    intros _. exists (Z.to_nat idx), t.
    assert (Hidx : 0 <= idx) by (rewrite Hrow; apply Z.div_pos; lia).
    split.
    { unfold step. change (Z.of_nat (length steps) - 1) with 6.
      replace (Z.min idx 6) with idx by lia.
      assert (Hcases : idx = 0 \/ idx = 1 \/ idx = 2 \/ idx = 3 \/ idx = 4
                       \/ idx = 5 \/ idx = 6) by lia.
      clearbody idx.
      destruct Hcases as [->|[->|[->|[->|[->|[->| ->]]]]]]; reflexivity. }
    split; [lia|]. split.
    { destruct (getCurrentStepIndex step) as [n|]; [|discriminate].
      apply Nat.eqb_eq in Hrow2. rewrite Hrow2. reflexivity. }
    split; [reflexivity|]. split; [exact Hrow3|]. split; [lia|]. split.
    { unfold showsClock. cbn [StatusUi.timeRemaining]. apply Z.ltb_lt. lia. }
    unfold formatTime. destruct (Z.ltb_spec t 60) as [_|Hbig]; [reflexivity|].
    replace (t / 60) with 1 by (apply Z.div_unique with (t - 60); lia).
    replace (t mod 60) with (t - 60) by (apply Z.mod_unique with 1; lia).
    reflexivity.
Qed.

End StatusUiFacts.

(** ** More instances *)

Module MoreWitnesses.
Import Samples MoreSamples.

Lemma wf_sample_store : Queue.wf oneJobStore.
Proof. apply (QueueFacts.enqueue_lane _ _ _ _ QueueFacts.wf_initial). Qed.

Lemma sample_lane_sorted : Queue.nonIncreasing (Queue.lane oneJobStore Queue.PROCESS).
Proof.
  change (Queue.lane oneJobStore Queue.PROCESS)
    with [Queue.withCreatedAt (jobOf "v1" 1) 100].
  repeat constructor.
Qed.

Lemma enqueue_dequeue_fifo_witness :
  Queue.wf oneJobStore /\
  exists st',
    Queue.dequeue Queue.PROCESS
      (snd (Queue.enqueue Queue.PROCESS (jobOf "v2" 1) 200 oneJobStore))
    = (Some (Queue.withCreatedAt (jobOf "v1" 1) 100), st') /\
    Queue.lane st' Queue.PROCESS = [Queue.withCreatedAt (jobOf "v2" 1) 200].
Proof.
  split; [exact wf_sample_store|].
  destruct (QueueMore.enqueue_dequeue_fifo oneJobStore Queue.PROCESS (jobOf "v2" 1) 200
              wf_sample_store) as (_ & _ & st' & Hdequeue & Hlane & _).
  exists st'. split; [exact Hdequeue|exact Hlane].
Defined.

Lemma job_status_witness :
  JsObject.ordinaryKey "job_1" = true /\
  Queue.getJobStatus "job_1"
    (snd (Queue.setJobStatus "job_1" (Processor.statusOf (hd_step Processor.steps))
            Queue.initial))
  = (Some (Processor.statusOf (hd_step Processor.steps)),
     snd (Queue.setJobStatus "job_1" (Processor.statusOf (hd_step Processor.steps))
            Queue.initial)).
Proof.
  split; [reflexivity|].
  destruct (QueueMore.job_status_round_trip Queue.initial "job_1"
              (Processor.statusOf (hd_step Processor.steps))
              (Processor.statusOf (hd_step Processor.steps)) eq_refl) as (Hfirst & _).
  exact Hfirst.
Defined.

Lemma clearQueue_witness :
  Queue.wf oneJobStore /\
  Queue.lane (snd (Queue.clearQueue Queue.PROCESS oneJobStore)) Queue.PROCESS = [] /\
  Queue.deref (snd (Queue.clearQueue Queue.PROCESS oneJobStore))
    (Queue.inMemoryQueues oneJobStore Queue.PROCESS)
  = Queue.lane oneJobStore Queue.PROCESS.
Proof.
  split; [exact wf_sample_store|].
  destruct (QueueMore.clearQueue_replaces_the_array oneJobStore Queue.PROCESS
              wf_sample_store) as (Hempty & _ & _ & Hold & _).
  split; [exact Hempty|exact Hold].
Defined.

Lemma priority_lane_witness :
  Queue.wf oneJobStore /\
  Queue.nonIncreasing (Queue.lane oneJobStore Queue.PROCESS) /\
  Queue.nonIncreasing
    (Queue.lane (snd (QueueUse.enqueueAllPriority Queue.PROCESS arrivals oneJobStore))
       Queue.PROCESS).
Proof.
  split; [exact wf_sample_store|]. split; [exact sample_lane_sorted|].
  destruct (QueueMore.priority_lane_discipline oneJobStore Queue.PROCESS arrivals
              wf_sample_store sample_lane_sorted) as (Hsorted & _).
  exact Hsorted.
Defined.

Lemma sample_processor_pure :
  forall job, exists outcome, forall s, alwaysSucceeds job s = (outcome, s).
Proof. intros job. exists None. reflexivity. Qed.

Lemma sample_lane_retryable :
  forall job, In job (Queue.lane oneJobStore Queue.PROCESS) ->
              Queue.nextRetryCount (Queue.data job) <> None.
Proof.
  change (Queue.lane oneJobStore Queue.PROCESS)
    with [Queue.withCreatedAt (jobOf "v1" 1) 100].
  intros job [<-|[]]. vm_compute. discriminate.
Qed.

Lemma conserves_jobs_witness :
  Queue.wf oneJobStore /\
  QueueUse.totalJobs
    (snd (Queue.processQueueTurn Queue.PROCESS alwaysSucceeds Queue.noOptions 500
            oneJobStore))
  = QueueUse.totalJobs oneJobStore.
Proof.
  split; [exact wf_sample_store|].
  destruct (QueueMore.processQueueTurn_conserves_jobs Queue.PROCESS alwaysSucceeds
              Queue.noOptions 500 oneJobStore wf_sample_store sample_processor_pure
              sample_lane_retryable) as (Hsame & _).
  exact Hsame.
Defined.

Lemma processQueue_idle_witness :
  Queue.lane Queue.initial Queue.PROCESS = [] /\
  Queue.processQueue Queue.PROCESS alwaysFails Queue.noOptions tickClock 3 Queue.initial
  = ([Queue.Slept 1000; Queue.Slept 1000; Queue.Slept 1000], Queue.initial).
Proof.
  split; [reflexivity|].
  exact (QueueMore.processQueue_idle Queue.PROCESS alwaysFails Queue.noOptions
           Queue.initial eq_refl 3%nat tickClock).
Defined.

Ltac sorted_rationals :=
  repeat match goal with
  | |- StronglySorted _ _ => constructor
  | |- Forall _ _ => constructor
  | |- (_ <= _)%Q => vm_compute; discriminate
  end.

Lemma talk_times_ascend : AnalyzerMore.ascending (AnalyzerMore.wordTimes (Analyzer.words talk)).
Proof.
  unfold AnalyzerMore.ascending.
  change (AnalyzerMore.wordTimes (Analyzer.words talk))
    with [Analyzer.start hello; Analyzer.end_ hello; Analyzer.start world;
          Analyzer.end_ world; Analyzer.start again; Analyzer.end_ again;
          Analyzer.start later; Analyzer.end_ later; Analyzer.start finally;
          Analyzer.end_ finally].
  sorted_rationals.
Qed.

Lemma captions_keep_time_order_witness :
  AnalyzerMore.ascending (AnalyzerMore.wordTimes (Analyzer.words talk)) /\
  AnalyzerMore.ascending
    (AnalyzerMore.captionTimes (Analyzer.generateCaptions (fun s => s) talk [])).
Proof.
  split; [exact talk_times_ascend|].
  exact (AnalyzerMoreFacts.captions_keep_time_order (fun s => s) talk [] talk_times_ascend).
Defined.

Lemma halves_in_range : forall k, (0 <= halves k < 1)%Q.
Proof. intros k. split; vm_compute; [discriminate|reflexivity]. Qed.

Lemma talk_times_are_doubles :
  Forall (fun w => Js.isDouble (Analyzer.start w) /\ Js.isDouble (Analyzer.end_ w))
         (Analyzer.words talk).
Proof. repeat constructor; vm_compute; reflexivity. Qed.

Lemma detectScenes_reports_witness :
  Forall (fun w => Js.isDouble (Analyzer.start w) /\ Js.isDouble (Analyzer.end_ w))
         (Analyzer.words talk) /\
  (forall c, In c (Analyzer.detectScenes talk) ->
     exists s,
       In s (Analyzer.detectSilences talk) /\
       (2 < Analyzer.sp_duration s)%Q /\
       (Analyzer.sp_start s <= Analyzer.sc_timestamp c <= Analyzer.sp_end s)%Q) /\
  (length (Analyzer.detectScenes talk) <= length (Analyzer.detectSilences talk))%nat.
Proof.
  split; [exact talk_times_are_doubles|].
  destruct (AnalyzerMoreFacts.detectScenes_reports talk talk_times_are_doubles)
    as (Hscenes & Hcount).
  split; [|exact Hcount].
  intros c Hc. destruct (Hscenes c Hc) as (s & Hs & Hlong & _ & Hbetween & _).
  exists s. split; [exact Hs|]. split; [exact Hlong|exact Hbetween].
Defined.

Lemma volume_peaks_witness :
  (forall k, (0 <= halves k < 1)%Q) /\
  map AnalyzerMore.vp_timestamp (AnalyzerMore.detectVolumePeaks upperAscii shouted halves)
  = map Analyzer.start
      (List.filter (AnalyzerMore.hasEmphasis upperAscii) (Analyzer.words shouted)).
Proof.
  split; [exact halves_in_range|].
  destruct (AnalyzerMoreFacts.detectVolumePeaks_reports upperAscii shouted halves
              halves_in_range) as (Htimes & _).
  exact Htimes.
Defined.

Lemma pipeline_paths_witness :
  "mp4" <> EmptyString /\ TextUse.dotless "mp4" = true /\
  Ffmpeg.withSuffix "clip.mp4" "_audio.wav" = "clip_audio.wav".
Proof.
  assert (Hne : "mp4" <> EmptyString) by discriminate.
  split; [exact Hne|]. split; [reflexivity|].
  destruct (FfmpegMore.pipeline_paths "clip" "mp4" "_audio.wav" Hne eq_refl) as [Hpath _].
  exact Hpath.
Defined.

Lemma rendering_progress_in_range : (0 <= 70 <= 100)%Q.
Proof. split; vm_compute; discriminate. Qed.

Lemma two_minutes_not_negative : (0 <= 120)%Q.
Proof. vm_compute. discriminate. Qed.

Lemma calculateTimeRemaining_witness :
  JsObject.ordinaryKey "Rendering video" = true /\
  (0 <= 70 <= 100)%Q /\ (0 <= 120)%Q /\
  5 <= Processor.calculateTimeRemaining "Rendering video" 70 120 <= 300.
Proof.
  split; [reflexivity|].
  split; [exact rendering_progress_in_range|]. split; [exact two_minutes_not_negative|].
  destruct (ProcessorMore.calculateTimeRemaining_bounds "Rendering video" 70 120
              eq_refl rendering_progress_in_range two_minutes_not_negative) as (Hbounds & _).
  exact Hbounds.
Defined.

Lemma processVideo_witness :
  JsObject.ordinaryKey "v1" = true /\
  Queue.wf (Processor.queue freshProcessor) /\
  Queue.lane
    (Processor.queue
       (snd (Processor.processVideo "v1" "demo_user" "/tmp/v1.mp4" plainStyle runEnv
               freshProcessor)))
    Queue.COMPLETED
  = [ProcessorUse.completedJob "job_1700000000001_4fzyo82mv" "v1" 8 1700000008001].
Proof.
  split; [reflexivity|]. split; [exact QueueFacts.wf_initial|].
  destruct (ProcessorMore.processVideo_completed_lane "v1" "demo_user" "/tmp/v1.mp4"
              plainStyle runEnv freshProcessor eq_refl QueueFacts.wf_initial) as (Hlane & _).
  exact Hlane.
Defined.

Lemma video_records_witness :
  JsObject.ordinaryKey "v1" = true /\
  Processor.videos
    (snd (Processor.processVideo "v1" "demo_user" "/tmp/v1.mp4" plainStyle runEnv
            freshProcessor))
  = Processor.videos freshProcessor.
Proof.
  split; [reflexivity|].
  destruct (ProcessorMore.video_records_only_updated "v1" "demo_user" "/tmp/v1.mp4"
              plainStyle runEnv 0 EmptyString freshProcessor eq_refl)
    as (_ & _ & _ & Hsame).
  exact (proj1 Hsame).
Defined.

Lemma upload_title_witness :
  Api.video goodForm = Some limitFile /\
  exists mockVideo message,
    Api.POST goodForm uploadEnv = Api.Status200 true mockVideo message /\
    Api.title mockVideo = "clip.final".
Proof.
  split; [reflexivity|]. eexists _, _. split; [reflexivity|].
  assert (Hne : "mp4" <> EmptyString) by discriminate.
  destruct (ApiMore.upload_title_and_format goodForm uploadEnv limitFile _ _
              eq_refl eq_refl) as (_ & Htitle & _).
  exact (Htitle "clip.final" "mp4" eq_refl Hne eq_refl).
Defined.

Lemma half_in_range : (0 <= Api.random (pollEnv 0.5))%Q /\ (Api.random (pollEnv 0.5) < 1)%Q.
Proof. split; vm_compute; [discriminate|reflexivity]. Qed.

Lemma poll_display_witness :
  "v1" <> EmptyString /\
  (0 <= Api.random (pollEnv 0.5))%Q /\ (Api.random (pollEnv 0.5) < 1)%Q /\
  StatusUi.progress (StatusUi.statusFrom (Api.GET "v1" (pollEnv 0.5))) = 51 /\
  StatusUi.getCurrentStepIndex
    (StatusUi.currentStep (StatusUi.statusFrom (Api.GET "v1" (pollEnv 0.5))))
  = Some 4%nat.
Proof.
  assert (Hid : "v1" <> EmptyString) by discriminate.
  split; [exact Hid|]. split; [exact (proj1 half_in_range)|].
  split; [exact (proj2 half_in_range)|].
  destruct (StatusUiFacts.poll_display "v1" (pollEnv 0.5) Hid (proj1 half_in_range)
              (proj2 half_in_range)) as (Hprogress & _ & Hprocessing & _).
  split; [exact Hprogress|].
  destruct Hprocessing as (i & t & _ & Hi & Hindex & _); [vm_compute; reflexivity|].
  rewrite Hindex. f_equal. f_equal.
  change (7 * Api.mockProgressOf (Api.random (pollEnv 0.5)) / 100) with 3 in Hi. lia.
Defined.

End MoreWitnesses.
